(** * Grab.js: a shallow embedding of the request pipeline

    The development follows [src/Grab.js]: the ordered [Map]s of the HTTP
    cache, the three-state circuit breaker, the error classes, the
    error-interceptor chain, the retry loop around the single-request
    operation and the cacheable path with its in-flight registry.

    Conventions.
    - JavaScript strings are [string]s (byte strings; header names and the
      other strings inspected by the code are ASCII).
    - [Date.now()] is passed explicitly as a [Z] number of milliseconds.
    - A JavaScript [Map] keeps insertion order, which the code relies on for
      its LRU and FIFO evictions, so a [Map] keyed by strings is an
      association list ([JsMap]).
    - A plain object used as a record of string keys is an association list
      in property order.
    - [async] code is cut at its [await]s: every function below is the
      synchronous stretch between two suspension points, and the client is a
      transition system over those stretches. *)

From Stdlib Require Import ZArith List String Ascii Bool Lia DecimalString.
Import ListNotations.

Local Open Scope string_scope.
Local Open Scope Z_scope.

(** ** JavaScript strings *)

Module JsString.

Definition is_upper (c : ascii) : bool :=
  let n := nat_of_ascii c in (Nat.leb 65 n && Nat.leb n 90)%bool.

Definition lower_char (c : ascii) : ascii :=
  if is_upper c then ascii_of_nat (nat_of_ascii c + 32) else c.

(** [String.prototype.toLowerCase] on ASCII text. *)
Fixpoint toLowerCase (s : string) : string :=
  match s with
  | EmptyString => EmptyString
  | String c r => String (lower_char c) (toLowerCase r)
  end.

(** [Array.prototype.join]. *)
Definition join (sep : string) (parts : list string) : string :=
  String.concat sep parts.

(** [s.startsWith(p)]. *)
Definition startsWith (s p : string) : bool := String.prefix p s.

(** A string is truthy when it is not empty. *)
Definition truthy (s : string) : bool :=
  match s with EmptyString => false | _ => true end.

(** Decimal rendering of an integer, as in a template literal. *)
Definition of_Z (z : Z) : string := NilZero.string_of_int (Z.to_int z).

Fixpoint insert_sorted (x : string) (l : list string) : list string :=
  match l with
  | [] => [x]
  | y :: r => if String.leb x y then x :: l else y :: insert_sorted x r
  end.

(** [Array.prototype.sort()] with the default comparison (code-unit
    order). *)
Definition sort (l : list string) : list string :=
  fold_right insert_sorted [] l.

(** The double-quote character. *)
Definition dquote : ascii := ascii_of_nat 34.

Definition hex_digit (n : nat) : ascii :=
  if Nat.ltb n 10 then ascii_of_nat (48 + n) else ascii_of_nat (87 + n).

(** One character inside a JSON string literal, as [JSON.stringify]
    writes it. *)
Definition json_escape (c : ascii) : string :=
  let n := nat_of_ascii c in
  if Nat.eqb n 34 then String "\"%char (String dquote EmptyString)
  else if Nat.eqb n 92 then "\\"
  else if Nat.eqb n 8 then "\b"
  else if Nat.eqb n 9 then "\t"
  else if Nat.eqb n 10 then "\n"
  else if Nat.eqb n 12 then "\f"
  else if Nat.eqb n 13 then "\r"
  else if Nat.ltb n 32 then
    "\u00" ++ String (hex_digit (Nat.div n 16)) (String (hex_digit (Nat.modulo n 16)) EmptyString)
  else String c EmptyString.

Fixpoint json_body (s : string) : string :=
  match s with
  | EmptyString => EmptyString
  | String c r => json_escape c ++ json_body r
  end.

(** [JSON.stringify] of a string. *)
Definition json_quote (s : string) : string :=
  String dquote (json_body s ++ String dquote EmptyString).

End JsString.

(** ** Insertion-ordered maps ([Map]) *)

Module JsMap.

Section Ordered.

Context {V : Type}.

Definition t := list (string * V).

Definition empty : t := [].

Fixpoint get (k : string) (m : t) : option V :=
  match m with
  | [] => None
  | (k', v) :: r => if String.eqb k' k then Some v else get k r
  end.

Definition has (k : string) (m : t) : bool :=
  match get k m with Some _ => true | None => false end.

(** [set] keeps the position of a key that is present and appends a new
    key at the end. *)
Fixpoint set (k : string) (v : V) (m : t) : t :=
  match m with
  | [] => [(k, v)]
  | (k', v') :: r =>
      if String.eqb k' k then (k', v) :: r else (k', v') :: set k v r
  end.

Definition delete (k : string) (m : t) : t :=
  filter (fun kv => negb (String.eqb (fst kv) k)) m.

Definition size (m : t) : Z := Z.of_nat (List.length m).

Definition keys (m : t) : list string := map fst m.

(** [m.keys().next().value]: the oldest key, if any. *)
Definition first_key (m : t) : option string :=
  match m with
  | [] => None
  | (k, _) :: _ => Some k
  end.

(** [m.delete(m.keys().next().value)]; deleting [undefined] does
    nothing. *)
Definition delete_first (m : t) : t :=
  match first_key m with
  | Some k => delete k m
  | None => m
  end.

End Ordered.

Arguments t : clear implicits.

End JsMap.

(** ** Response descriptors *)

(** The decoded body of a response: [null], [undefined], or a decoded
    payload. *)
Inductive js_data :=
| DataNull
| DataUndefined
| DataJson (text : string)
| DataText (text : string)
| DataOpaque (tag : string).

(** An optional string property: absent, [null], or a string. *)
Inductive js_field :=
| FieldAbsent
| FieldNull
| FieldStr (s : string).

Module Headers.

(** A header bag, in insertion order. *)
Definition t := list (string * string).

(** [headers.get(name)]: case-insensitive; [None] is [null]. *)
Fixpoint get (h : t) (name : string) : option string :=
  match h with
  | [] => None
  | (k, v) :: r =>
      if String.eqb (JsString.toLowerCase k) (JsString.toLowerCase name)
      then Some v else get r name
  end.

End Headers.

Module Resp.

(** The object returned by [buildResponse], with the [fromCache] mark
    that [HttpCache.get] adds. *)
Record t := mk {
  ok : bool;
  status : Z;
  statusText : string;
  headers : Headers.t;
  url : string;
  data : js_data;
  etag : js_field;
  fromCache : option bool
}.

(** [{ ...r, fromCache: b }]. *)
Definition with_fromCache (r : t) (b : bool) : t :=
  mk (ok r) (status r) (statusText r) (headers r) (url r) (data r) (etag r)
     (Some b).

End Resp.

(** ** Constants *)

Definition AUTH_HEADERS : list string := ["authorization"; "x-api-key"; "cookie"].
Definition CACHE_SEP : string := String (ascii_of_nat 0) EmptyString.
Definition DEFAULT_TIMEOUT : Z := 30000.
Definition DEFAULT_RETRY_ATTEMPTS : Z := 3.
Definition DEFAULT_CACHE_TTL : Z := 5 * 60 * 1000.
Definition MAX_BACKOFF : Z := 30000.

(** [findHeader(headers, name)]: the value of the first own property whose
    lower-cased name is [name] lower-cased; [None] is [null]. *)
Fixpoint findHeader (headers : list (string * string)) (name : string)
  : option string :=
  match headers with
  | [] => None
  | (key, value) :: r =>
      if String.eqb (JsString.toLowerCase key) (JsString.toLowerCase name)
      then Some value else findHeader r name
  end.

(** ** Query parameters and [JSON.stringify] of flat objects *)

(** A parameter value: [Record<string, string | number | boolean>], with the
    [null] and [undefined] that [buildUrl] skips. A number carries its
    decimal rendering. *)
Inductive pval :=
| PString (s : string)
| PNumber (repr : string)
| PBool (b : bool)
| PNull
| PUndefined.

Module Json.

Definition of_pval (v : pval) : option string :=
  match v with
  | PString s => Some (JsString.json_quote s)
  | PNumber repr => Some repr
  | PBool true => Some "true"
  | PBool false => Some "false"
  | PNull => Some "null"
  | PUndefined => None
  end.

Definition member (k v : string) : string :=
  JsString.json_quote k ++ ":" ++ v.

Definition object (members : list string) : string :=
  "{" ++ JsString.join "," members ++ "}".

(** [JSON.stringify] of an object of scalars; a property whose value is
    [undefined] is left out. *)
Definition stringify_params (params : list (string * pval)) : string :=
  object
    (flat_map (fun kv => match of_pval (snd kv) with
                         | Some v => [member (fst kv) v]
                         | None => []
                         end) params).

(** [JSON.stringify] of an object of strings. *)
Definition stringify_strings (o : list (string * string)) : string :=
  object (map (fun kv => member (fst kv) (JsString.json_quote (snd kv))) o).

End Json.

(** [x || d] on an optional number: [undefined], [null] and [0] are
    falsy. *)
Definition or_default (x : option Z) (d : Z) : Z :=
  match x with
  | Some v => if v =? 0 then d else v
  | None => d
  end.

(** ** HTTP cache *)

Module HttpCache.

Record entry := mkEntry {
  data : Resp.t;
  expires : Z;
  etag : option string
}.

(** The fields of an [HttpCache]. [pending] maps a fingerprint to the
    identity of the in-flight promise registered for it. *)
Record t := mk {
  cache : JsMap.t entry;
  ttl : Z;
  maxSize : Z;
  authHeaders : list string;
  pending : JsMap.t nat;
  etags : JsMap.t string;
  _authCache : JsMap.t string;
  _cleanupScheduled : bool
}.

Definition with_cache (c : t) (m : JsMap.t entry) : t :=
  mk m (ttl c) (maxSize c) (authHeaders c) (pending c) (etags c)
     (_authCache c) (_cleanupScheduled c).

Definition with_pending (c : t) (m : JsMap.t nat) : t :=
  mk (cache c) (ttl c) (maxSize c) (authHeaders c) m (etags c)
     (_authCache c) (_cleanupScheduled c).

Definition with_etags (c : t) (m : JsMap.t string) : t :=
  mk (cache c) (ttl c) (maxSize c) (authHeaders c) (pending c) m
     (_authCache c) (_cleanupScheduled c).

Definition with_authCache (c : t) (m : JsMap.t string) : t :=
  mk (cache c) (ttl c) (maxSize c) (authHeaders c) (pending c) (etags c)
     m (_cleanupScheduled c).

Definition with_cleanupScheduled (c : t) (b : bool) : t :=
  mk (cache c) (ttl c) (maxSize c) (authHeaders c) (pending c) (etags c)
     (_authCache c) b.

(** [new HttpCache(options)]. *)
Definition new (o_ttl o_maxSize : option Z) (o_authHeaders : option (list string)) : t :=
  mk JsMap.empty
     (or_default o_ttl DEFAULT_CACHE_TTL)
     (or_default o_maxSize 100)
     (match o_authHeaders with Some l => l | None => AUTH_HEADERS end)
     JsMap.empty JsMap.empty JsMap.empty false.

(** The object [authHeaders] built by the [forEach] of [key]: one property
    per configured name whose header is present and truthy. *)
Definition extract_auth (names : list string) (headers : list (string * string))
  : list (string * string) :=
  fold_left
    (fun acc name =>
       match findHeader headers name with
       | Some value => if JsString.truthy value then JsMap.set name value acc else acc
       | None => acc
       end)
    names [].

(** [key(method, url, params, headers)]: the fingerprint, and the cache
    with its auth memo updated. *)
Definition key (c : t) (method url : string) (params : list (string * pval))
           (headers : list (string * string)) : string * t :=
  let params_part :=
    match params with
    | [] => EmptyString
    | _ => Json.stringify_params params
    end in
  let headerKeys := JsString.join "," (JsString.sort (map fst headers)) in
  match JsMap.get headerKeys (_authCache c) with
  | Some authStr =>
      (JsString.join CACHE_SEP [method; url; params_part; authStr], c)
  | None =>
      let authHeaders := extract_auth (authHeaders c) headers in
      let authStr :=
        match authHeaders with
        | [] => EmptyString
        | _ => Json.stringify_strings authHeaders
        end in
      let memo :=
        if 100 <? JsMap.size (_authCache c)
        then JsMap.delete_first (_authCache c)
        else _authCache c in
      (JsString.join CACHE_SEP [method; url; params_part; authStr],
       with_authCache c (JsMap.set headerKeys authStr memo))
  end.

Definition getPending (c : t) (k : string) : option nat :=
  JsMap.get k (pending c).

(** [track(key, promise)], the registration; the removal that
    [promise.finally] schedules is [untrack]. *)
Definition track (c : t) (k : string) (promise : nat) : t :=
  with_pending c (JsMap.set k promise (pending c)).

Definition untrack (c : t) (k : string) : t :=
  with_pending c (JsMap.delete k (pending c)).

(** [_scheduleCleanup()]: arms the sweep timer once. *)
Definition _scheduleCleanup (c : t) : t :=
  if _cleanupScheduled c then c else with_cleanupScheduled c true.

(** [set(key, data, customTtl, etag)] at time [now]. *)
Definition set (c : t) (k : string) (d : Resp.t) (customTtl : option Z)
           (tag : option string) (now : Z) : t :=
  let c1 :=
    if ((maxSize c <=? JsMap.size (cache c)) && negb (JsMap.has k (cache c)))%bool
    then
      match JsMap.first_key (cache c) with
      | Some oldestKey =>
          with_etags (with_cache c (JsMap.delete oldestKey (cache c)))
                     (JsMap.delete oldestKey (etags c))
      | None => c
      end
    else c in
  let e := mkEntry d (now + or_default customTtl (ttl c)) tag in
  let c2 := with_cache c1 (JsMap.set k e (cache c1)) in
  let c3 :=
    match tag with
    | Some s => if JsString.truthy s then with_etags c2 (JsMap.set k s (etags c2)) else c2
    | None => c2
    end in
  _scheduleCleanup c3.

(** [get(key)] at time [now]; [None] is [null]. *)
Definition get (c : t) (k : string) (now : Z) : option Resp.t * t :=
  match JsMap.get k (cache c) with
  | None => (None, c)
  | Some e =>
      if expires e <? now
      then (None,
            with_etags (with_cache c (JsMap.delete k (cache c)))
                       (JsMap.delete k (etags c)))
      else (Some (Resp.with_fromCache (data e) true),
            with_cache c (JsMap.set k e (JsMap.delete k (cache c))))
  end.

Definition get_etag (c : t) (k : string) : option string :=
  JsMap.get k (etags c).

(** [refresh(key)] at time [now]. *)
Definition refresh (c : t) (k : string) (now : Z) : t :=
  match JsMap.get k (cache c) with
  | Some e =>
      with_cache c (JsMap.set k (mkEntry (data e) (now + ttl c) (etag e)) (cache c))
  | None => c
  end.

Definition clear (c : t) : t :=
  mk JsMap.empty (ttl c) (maxSize c) (authHeaders c) JsMap.empty JsMap.empty
     JsMap.empty (_cleanupScheduled c).

(** [_cleanup()] at time [now]. *)
Definition _cleanup (c : t) (now : Z) : t :=
  let dead := filter (fun kv => expires (snd kv) <=? now) (cache c) in
  fold_left
    (fun acc kv =>
       with_etags (with_cache acc (JsMap.delete (fst kv) (cache acc)))
                  (JsMap.delete (fst kv) (etags acc)))
    dead c.

(** The callback of the timer armed by [_scheduleCleanup]. *)
Definition cleanup_timer (c : t) (now : Z) : t :=
  _cleanup (with_cleanupScheduled c false) now.

(** The fingerprint [k] of a request is memoised in [c]: [key] finds the
    auth extract of the request's header shape in the memo. *)
Definition memoised (c : t) (k method url : string) (params : list (string * pval))
           (headers : list (string * string)) : Prop :=
  exists authStr,
    JsMap.get (JsString.join "," (JsString.sort (map fst headers))) (_authCache c)
    = Some authStr /\
    k = JsString.join CACHE_SEP
          [method; url;
           match params with [] => EmptyString | _ => Json.stringify_params params end;
           authStr].

End HttpCache.

(** ** Values, errors and outcomes *)

(** A platform error object ([Error], [TypeError], [DOMException], ...):
    its [name] and [message]. *)
Record platform_error := mkPlatformError {
  pe_name : string;
  pe_message : string
}.

(** What a body reader of a response handle settles with. *)
Inductive decode :=
| Decoded (d : js_data)
| DecodeRejects (e : platform_error).

Module Handle.

(** The response handle of the transport: what [fetch] resolves with. *)
Record t := mk {
  ok : bool;
  status : Z;
  statusText : string;
  headers : Headers.t;
  url : string;
  json : decode;
  text : decode;
  blob : decode;
  arrayBuffer : decode;
  body : js_data
}.

End Handle.

(** The error classes of the client, and any other error object. *)
Inductive jserror :=
| HttpError (message : string) (status : Z) (url : string) (response : Handle.t)
| NetworkError (message : string) (url : string)
| TimeoutError (url : string) (timeout : Z)
| PlainError (name : string) (message : string).

(** [error.name]. *)
Definition error_name (e : jserror) : string :=
  match e with
  | HttpError _ _ _ _ => "HttpError"
  | NetworkError _ _ => "NetworkError"
  | TimeoutError _ _ => "TimeoutError"
  | PlainError name _ => name
  end.

(** [error.message]. *)
Definition error_message (e : jserror) : string :=
  match e with
  | HttpError message _ _ _ => message
  | NetworkError message _ => message
  | TimeoutError url timeout =>
      "Request timeout after " ++ JsString.of_Z timeout ++ "ms: " ++ url
  | PlainError _ message => message
  end.

Definition of_platform_error (e : platform_error) : jserror :=
  PlainError (pe_name e) (pe_message e).

(** The values that flow through the pipeline: what a promise settles with,
    what an interceptor or a fallback returns, what is thrown. [VOther] is
    any other value; it has none of the properties the pipeline reads. *)
Inductive jsval :=
| VUndefined
| VNull
| VError (e : jserror)
| VResponse (r : Resp.t)
| VOther (tag : string).

(** How a call ends. *)
Inductive outcome :=
| Returned (v : jsval)
| Threw (v : jsval).

Definition TypeError (message : string) : jsval :=
  VError (PlainError "TypeError" message).

(** ** Circuit breaker *)

Module CircuitBreaker.

Inductive circuit := CIRCUIT_CLOSED | CIRCUIT_OPEN | CIRCUIT_HALF_OPEN.

Definition circuit_eqb (a b : circuit) : bool :=
  match a, b with
  | CIRCUIT_CLOSED, CIRCUIT_CLOSED
  | CIRCUIT_OPEN, CIRCUIT_OPEN
  | CIRCUIT_HALF_OPEN, CIRCUIT_HALF_OPEN => true
  | _, _ => false
  end.

(** The value of [options.fallback]: missing, [null], or a thunk, given by
    how a call of it ends. *)
Inductive fallback_value :=
| FallbackUndefined
| FallbackNull
| FallbackFunction (result : outcome).

(** The own properties of a [CircuitBreaker]. The constructor assigns
    [this.fallback = options.fallback], so every instance has an own
    property [fallback]; the class also declares a method of that name,
    which lives on the prototype. *)
Record t := mk {
  failureThreshold : Z;
  resetTimeout : Z;
  fallback : fallback_value;
  state : circuit;
  failureCount : Z;
  lastFailureTime : option Z;
  successCount : Z;
  halfOpenRequestSent : bool
}.

Definition with_state (cb : t) (s : circuit) : t :=
  mk (failureThreshold cb) (resetTimeout cb) (fallback cb) s (failureCount cb)
     (lastFailureTime cb) (successCount cb) (halfOpenRequestSent cb).

Definition with_halfOpenRequestSent (cb : t) (b : bool) : t :=
  mk (failureThreshold cb) (resetTimeout cb) (fallback cb) (state cb)
     (failureCount cb) (lastFailureTime cb) (successCount cb) b.

Definition with_failureCount (cb : t) (n : Z) : t :=
  mk (failureThreshold cb) (resetTimeout cb) (fallback cb) (state cb) n
     (lastFailureTime cb) (successCount cb) (halfOpenRequestSent cb).

Definition with_successCount (cb : t) (n : Z) : t :=
  mk (failureThreshold cb) (resetTimeout cb) (fallback cb) (state cb)
     (failureCount cb) (lastFailureTime cb) n (halfOpenRequestSent cb).

Definition with_lastFailureTime (cb : t) (x : option Z) : t :=
  mk (failureThreshold cb) (resetTimeout cb) (fallback cb) (state cb)
     (failureCount cb) x (successCount cb) (halfOpenRequestSent cb).

(** [new CircuitBreaker(options)]. *)
Definition new (o_failureThreshold o_resetTimeout : option Z)
           (o_fallback : fallback_value) : t :=
  mk (or_default o_failureThreshold 5)
     (or_default o_resetTimeout 60000)
     o_fallback CIRCUIT_CLOSED 0 None 0 false.

(** [shouldReset()] at time [now]; [null] counts as [0] in the
    subtraction. *)
Definition shouldReset (cb : t) (now : Z) : bool :=
  let last := match lastFailureTime cb with Some x => x | None => 0 end in
  resetTimeout cb <? now - last.

(** The expression [this.fallback()] inside [call]. The lookup of
    [fallback] on [this] finds the own property before the prototype, so
    what is called is the value of [options.fallback]; calling a value
    that is not a function throws a [TypeError]. *)
Definition this_fallback (cb : t) : outcome :=
  match fallback cb with
  | FallbackFunction result => result
  | FallbackUndefined | FallbackNull =>
      Threw (TypeError "this.fallback is not a function")
  end.

Definition SERVICE_UNAVAILABLE : jsval :=
  VError (PlainError "Error"
    "Circuit breaker is OPEN - service temporarily unavailable").

(** The body of the method [fallback()] of the class. No expression of
    the code reaches it through an instance: see [this_fallback]. *)
Definition fallback_method (cb : t) : outcome :=
  match fallback cb with
  | FallbackFunction _ => this_fallback cb
  | FallbackUndefined | FallbackNull => Threw SERVICE_UNAVAILABLE
  end.

(** What [call] decides before it reaches [await fn()]. *)
Inductive gate :=
| Rejected (o : outcome)
| Allowed.

(** [call(fn)] up to the invocation of [fn], at time [now]. *)
Definition enter (cb : t) (now : Z) : gate * t :=
  let after_open :=
    match state cb with
    | CIRCUIT_OPEN =>
        if shouldReset cb now
        then Some (with_halfOpenRequestSent (with_state cb CIRCUIT_HALF_OPEN) false)
        else None
    | _ => Some cb
    end in
  match after_open with
  | None => (Rejected (this_fallback cb), cb)
  | Some cb1 =>
      match state cb1 with
      | CIRCUIT_HALF_OPEN =>
          if halfOpenRequestSent cb1
          then (Rejected (this_fallback cb1), cb1)
          else (Allowed, with_halfOpenRequestSent cb1 true)
      | _ => (Allowed, cb1)
      end
  end.

Definition onSuccess (cb : t) : t :=
  let cb1 := with_successCount (with_failureCount cb 0) (successCount cb + 1) in
  match state cb1 with
  | CIRCUIT_HALF_OPEN =>
      with_halfOpenRequestSent (with_state cb1 CIRCUIT_CLOSED) false
  | _ => cb1
  end.

Definition onFailure (cb : t) (now : Z) : t :=
  let cb1 :=
    with_lastFailureTime (with_failureCount cb (failureCount cb + 1)) (Some now) in
  if failureThreshold cb1 <=? failureCount cb1
  then with_state cb1 CIRCUIT_OPEN
  else cb1.

(** [call(fn)] from the settlement of [fn] on, at time [now]: the [try]
    and the [catch] around [await fn()]. *)
Definition settle (cb : t) (now : Z) (r : outcome) : outcome * t :=
  match r with
  | Returned v => (Returned v, onSuccess cb)
  | Threw e => (Threw e, onFailure cb now)
  end.

(** A whole [call(fn)] with nothing interleaved: it is entered at [now],
    and [fn], when it is invoked, acts on a world [W] and settles at
    [now']. *)
Definition call {W : Type} (cb : t) (now : Z) (fn : W -> outcome * W)
           (now' : Z) (w : W) : outcome * t * W :=
  match enter cb now with
  | (Rejected o, cb1) => (o, cb1, w)
  | (Allowed, cb1) =>
      let (r, w1) := fn w in
      let (r1, cb2) := settle cb1 now' r in
      (r1, cb2, w1)
  end.

Definition reset (cb : t) : t :=
  mk (failureThreshold cb) (resetTimeout cb) (fallback cb) CIRCUIT_CLOSED 0
     None 0 false.

(** [stats().isHealthy]. *)
Definition isHealthy (cb : t) : bool :=
  (circuit_eqb (state cb) CIRCUIT_CLOSED
   && (failureCount cb <? failureThreshold cb))%bool.

(** What happens to a breaker, one synchronous stretch at a time: a
    [call] is entered, or the [fn] of an admitted [call] settles. *)
Inductive event :=
| Enter (now : Z)
| Success (now : Z)
| Failure (now : Z).

Definition step (cb : t) (e : event) : t :=
  match e with
  | Enter now => snd (enter cb now)
  | Success _ => onSuccess cb
  | Failure now => onFailure cb now
  end.

Definition run (cb : t) (trace : list event) : t := fold_left step trace cb.

(** A thunk that counts its invocations and ends with [r]. *)
Definition counting (r : outcome) (n : nat) : outcome * nat := (r, S n).

(** The two situations in which [call] turns a caller away. *)
Definition rejecting (cb : t) (now : Z) : Prop :=
  (state cb = CIRCUIT_OPEN /\ shouldReset cb now = false) \/
  (state cb = CIRCUIT_HALF_OPEN /\ halfOpenRequestSent cb = true).

(** One whole call whose thunk fails. *)
Definition failing_call (e : jsval) (acc : t * nat) (times : Z * Z) : t * nat :=
  let '(_, cb, n) :=
    call (fst acc) (fst times) (counting (Threw e)) (snd times) (snd acc) in
  (cb, n).

(** The invariant of a breaker whose calls never overlap: while it is not
    closed, the failure count is at or above the threshold. *)
Definition tripped (cb : t) : Prop :=
  state cb <> CIRCUIT_CLOSED -> failureThreshold cb <= failureCount cb.

End CircuitBreaker.

(** ** The error-interceptor chain and the default retry condition *)

(** An error interceptor, by how the awaited call [fn(current)] ends. *)
Definition interceptor := jsval -> outcome.

(** One turn of the loop of [callErrorInterceptors]. *)
Definition error_turn (current : jsval) (fn : interceptor) : jsval :=
  match fn current with
  | Returned VUndefined => current
  | Returned result => result
  | Threw err => err
  end.

Definition callErrorInterceptors (interceptors : list interceptor) (error : jsval)
  : jsval :=
  fold_left error_turn interceptors error.

(** The values handed to the successive interceptors of a chain. *)
Fixpoint interceptor_inputs (interceptors : list interceptor) (current : jsval)
  : list jsval :=
  match interceptors with
  | [] => []
  | fn :: rest => current :: interceptor_inputs rest (error_turn current fn)
  end.

(** [Grab.prototype.defaultRetryCondition]. *)
Definition defaultRetryCondition (error : jsval) : bool :=
  match error with
  | VError (NetworkError _ _) => true
  | VError (TimeoutError _ _) => true
  | VError (HttpError _ status _ _) =>
      ((500 <=? status) || (status =? 408) || (status =? 429))%bool
  | _ => false
  end.

(** The errors that [defaultRetryCondition] accepts: network and timeout
    errors, and HTTP errors whose status is 408, 429 or at least 500. *)
Definition retried_by_default (error : jsval) : Prop :=
  match error with
  | VError (NetworkError _ _) => True
  | VError (TimeoutError _ _) => True
  | VError (HttpError _ status _ _) => status = 408 \/ status = 429 \/ 500 <= status
  | _ => False
  end.

(** ** Numbers out of strings *)

Module JsNumber.

Definition is_space (c : ascii) : bool :=
  let n := nat_of_ascii c in
  (Nat.eqb n 32 || (Nat.leb 9 n && Nat.leb n 13))%bool.

Definition digit (c : ascii) : option Z :=
  let n := nat_of_ascii c in
  if (Nat.leb 48 n && Nat.leb n 57)%bool then Some (Z.of_nat (n - 48)) else None.

Fixpoint skip_spaces (s : string) : string :=
  match s with
  | String c r => if is_space c then skip_spaces r else s
  | EmptyString => s
  end.

(** The value of the longest prefix of digits, if there is a digit. *)
Fixpoint digits (s : string) (acc : option Z) : option Z :=
  match s with
  | String c r =>
      match digit c with
      | Some d => digits r (Some (10 * match acc with Some a => a | None => 0 end + d))
      | None => acc
      end
  | EmptyString => acc
  end.

(** [parseInt(s, 10)]; [None] is [NaN]. *)
Definition parseInt (s : string) : option Z :=
  match skip_spaces s with
  | String "-" r => option_map Z.opp (digits r None)
  | String "+" r => digits r None
  | r => digits r None
  end.

(** [toInt(val, fallback)] of the code. *)
Definition toInt (val : string) (fallback : Z) : Z :=
  match parseInt val with
  | Some n => n
  | None => fallback
  end.

Fixpoint all_digits (s : string) : bool :=
  match s with
  | String c r => match digit c with Some _ => all_digits r | None => false end
  | EmptyString => true
  end.

(** [+s] for a string of decimal digits, the shape of a [Content-Length];
    any other string counts as [NaN] here. *)
Definition of_digits (s : string) : option Z :=
  match s with
  | EmptyString => None
  | _ => if all_digits s then digits s None else None
  end.

Definition clamp (val min max : Z) : Z := Z.max min (Z.min max val).

End JsNumber.

(** [normalizeRetry(r).attempts] for an integer or missing [r.attempts]. *)
Definition normalizeRetryAttempts (attempts : option Z) : Z :=
  match attempts with
  | Some a => if 0 <=? a then JsNumber.clamp a 0 10 else 3
  | None => 3
  end.

(** ** Requests *)

(** A request body, by the cases the code tells apart. A plain object
    carries what [JSON.stringify] makes of it: the text, or the message of
    the error it throws. *)
Inductive js_body :=
| BodyNone
| BodyString (s : string)
| BodyArrayBuffer (byteLength : Z)
| BodyFormData
| BodyObject (json : string + string)
| BodyBlob
| BodyFile.

(** A caller-supplied [AbortSignal]: whether it is already aborted, and
    otherwise after how many milliseconds it fires, if ever. *)
Record signal := mkSignal {
  aborted : bool;
  fires_after : option Z
}.

Module Config.

(** A request descriptor. A missing [params] or [headers] is the empty
    object; a missing [url] does not occur. *)
Record t := mk {
  method : option string;
  url : string;
  params : list (string * pval);
  headers : list (string * string);
  body : js_body;
  timeout : option Z;
  signal : option signal;
  cache : option bool;
  responseType : option string;
  priority : option string
}.

Definition with_headers (c : t) (h : list (string * string)) : t :=
  mk (method c) (url c) (params c) h (body c) (timeout c) (signal c)
     (cache c) (responseType c) (priority c).

End Config.

(** [{ ...a, ...b }]. *)
Definition spread {V : Type} (a b : JsMap.t V) : JsMap.t V :=
  fold_left (fun acc kv => JsMap.set (fst kv) (snd kv) acc) b a.

Module Url.

Definition is_unreserved (c : ascii) : bool :=
  let n := nat_of_ascii c in
  ((Nat.leb 48 n && Nat.leb n 57) || (Nat.leb 65 n && Nat.leb n 90)
   || (Nat.leb 97 n && Nat.leb n 122)
   || Nat.eqb n 42 || Nat.eqb n 45 || Nat.eqb n 46 || Nat.eqb n 95)%bool.

Definition upper_hex (n : nat) : ascii :=
  if Nat.ltb n 10 then ascii_of_nat (48 + n) else ascii_of_nat (55 + n).

(** The [application/x-www-form-urlencoded] byte serializer. *)
Fixpoint encode (s : string) : string :=
  match s with
  | EmptyString => EmptyString
  | String c r =>
      let n := nat_of_ascii c in
      if is_unreserved c then String c (encode r)
      else if Nat.eqb n 32 then String "+" (encode r)
      else String "%" (String (upper_hex (Nat.div n 16))
                         (String (upper_hex (Nat.modulo n 16)) (encode r)))
  end.

(** [new URLSearchParams()] filled by [append], then [toString()]. *)
Definition search_string (pairs : list (string * string)) : string :=
  JsString.join "&" (map (fun kv => encode (fst kv) ++ "=" ++ encode (snd kv)) pairs).

(** [String(value)] for a parameter that is neither [null] nor
    [undefined]. *)
Definition param_string (v : pval) : option string :=
  match v with
  | PString s => Some s
  | PNumber repr => Some repr
  | PBool true => Some "true"
  | PBool false => Some "false"
  | PNull | PUndefined => None
  end.

Fixpoint includes_char (s : string) (c : ascii) : bool :=
  match s with
  | EmptyString => false
  | String d r => if Ascii.eqb d c then true else includes_char r c
  end.

(** [url.replace(/^\//, '')]. *)
Definition strip_slash (url : string) : string :=
  match url with
  | String "/" r => r
  | _ => url
  end.

(** [url.replace(/\/$/, '')]. *)
Fixpoint strip_trailing_slash (url : string) : string :=
  match url with
  | EmptyString => EmptyString
  | String "/" EmptyString => EmptyString
  | String c r => String c (strip_trailing_slash r)
  end.

End Url.

(** ** The client *)

Module Grab.

Inductive retry_delay :=
| DelayFunction (f : Z -> Z)
| DelayConstant (ms : Z).

(** What a [Grab] instance is configured with; its cache and breaker,
    which change, are in [client] below. [supportsPriority] is the answer
    of the host to the function of that name. *)
Record settings := mkSettings {
  baseUrl : string;
  timeout : Z;
  defaultHeaders : list (string * string);
  retryAttempts : Z;
  retryDelay : retry_delay;
  retryCondition : jsval -> bool;
  respectRetryAfter : bool;
  errorInterceptors : list interceptor;
  maxRequestSize : Z;
  maxResponseSize : Z;
  supportsPriority : bool
}.

Definition Error (message : string) : jsval := VError (PlainError "Error" message).

(** [resolveUrl(url)]. *)
Definition resolveUrl (s : settings) (url : string) : string + jsval :=
  if (JsString.startsWith url "http://" || JsString.startsWith url "https://")%bool
  then inl url
  else if JsString.startsWith url "//"
  then inr (Error "Protocol-relative URLs not allowed for security")
  else if JsString.truthy (baseUrl s)
  then inl (baseUrl s ++ "/" ++ Url.strip_slash url)
  else inl url.

(** [buildUrl(url, params)]. *)
Definition buildUrl (url : string) (params : list (string * pval)) : string :=
  match params with
  | [] => url
  | _ =>
      let pairs :=
        flat_map (fun kv => match Url.param_string (snd kv) with
                            | Some v => [(fst kv, v)]
                            | None => []
                            end) params in
      let separator := if Url.includes_char url "?" then "&" else "?" in
      url ++ separator ++ Url.search_string pairs
  end.

(** The options handed to the transport. *)
Record fetch_options := mkOptions {
  o_method : string;
  o_body : js_body;
  o_credentials : string;
  o_headers : list (string * string);
  o_priority : option string
}.

Definition body_truthy (b : js_body) : bool :=
  match b with
  | BodyNone => false
  | BodyString s => JsString.truthy s
  | _ => true
  end.

(** The [size] computed by [buildFetchOptions]; computing it throws when
    [JSON.stringify] throws. *)
Definition body_size (b : js_body) : Z + jsval :=
  match b with
  | BodyString s => inl (Z.of_nat (String.length s))
  | BodyArrayBuffer n => inl n
  | BodyFormData => inl 0
  | BodyObject (inl text) => inl (Z.of_nat (String.length text))
  | BodyObject (inr message) => inr (TypeError message)
  | BodyBlob | BodyFile => inl 2
  | BodyNone => inl 2
  end.

(** [buildFetchOptions(config)]. *)
Definition buildFetchOptions (s : settings) (config : Config.t)
  : fetch_options + jsval :=
  let method := match Config.method config with Some m => m | None => "GET" end in
  let body := Config.body config in
  let checked : option jsval :=
    if (body_truthy body && negb (maxRequestSize s =? 0))%bool
    then match body_size body with
         | inl size =>
             if maxRequestSize s <? size
             then Some (Error ("Request body too large: " ++ JsString.of_Z size
                                 ++ " bytes (max: "
                                 ++ JsString.of_Z (maxRequestSize s) ++ ")"))
             else None
         | inr e => Some e
         end
    else None in
  match checked with
  | Some e => inr e
  | None =>
      let serialized : js_body + jsval :=
        match body with
        | BodyObject (inl text) => inl (BodyString text)
        | BodyObject (inr message) =>
            inr (Error ("Failed to serialize request body: " ++ message))
        | _ => inl body
        end in
      match serialized with
      | inr e => inr e
      | inl finalBody =>
          let merged := spread (spread [] (defaultHeaders s)) (Config.headers config) in
          let headers :=
            match finalBody with
            | BodyFormData =>
                JsMap.delete "content-type" (JsMap.delete "Content-Type" merged)
            | _ => merged
            end in
          let priority :=
            match Config.priority config with
            | Some p => if (JsString.truthy p && supportsPriority s)%bool
                        then Some p else None
            | None => None
            end in
          inl (mkOptions method finalBody "same-origin" headers priority)
      end
  end.

(** What awaiting the transport yields. *)
Inductive fetch_outcome :=
| FetchResolves (h : Handle.t)
| FetchRejects (v : jsval).

Definition includes (s sub : string) : bool :=
  match String.index 0 sub s with Some _ => true | None => false end.

Definition of_decode (d : decode) : js_data + jsval :=
  match d with
  | Decoded x => inl x
  | DecodeRejects e => inr (VError (of_platform_error e))
  end.

(** [parseResponse(response, responseType, maxSize)]. *)
Definition parseResponse (response : Handle.t) (responseType : string)
           (maxSize : Z) : js_data + jsval :=
  let contentType :=
    match Headers.get (Handle.headers response) "content-type" with
    | Some v => v
    | None => EmptyString
    end in
  let too_large : option string :=
    match Headers.get (Handle.headers response) "content-length" with
    | Some contentLength =>
        if (JsString.truthy contentLength && negb (maxSize =? 0))%bool
        then match JsNumber.of_digits contentLength with
             | Some n => if maxSize <? n then Some contentLength else None
             | None => None
             end
        else None
    | None => None
    end in
  match too_large with
  | Some contentLength =>
      inr (Error ("Response too large: " ++ contentLength ++ " bytes (max: "
                    ++ JsString.of_Z maxSize ++ ")"))
  | None =>
      if (String.eqb responseType "json"
          || (String.eqb responseType "auto" && includes contentType "application/json"))%bool
      then of_decode (Handle.json response)
      else if (String.eqb responseType "text"
               || (String.eqb responseType "auto" && JsString.startsWith contentType "text/"))%bool
      then of_decode (Handle.text response)
      else if String.eqb responseType "blob" then of_decode (Handle.blob response)
      else if String.eqb responseType "arraybuffer"
      then of_decode (Handle.arrayBuffer response)
      else if String.eqb responseType "stream" then inl (Handle.body response)
      else match Handle.json response with
           | Decoded x => inl x
           | DecodeRejects _ => of_decode (Handle.text response)
           end
  end.

(** [buildResponse(response, responseType, originalUrl)]. *)
Definition buildResponse (s : settings) (response : Handle.t)
           (responseType originalUrl : string) : Resp.t + jsval :=
  if Handle.status response =? 304
  then inl (Resp.mk true 304 "Not Modified" (Handle.headers response)
                    (Handle.url response) DataNull FieldAbsent None)
  else if negb (Handle.ok response)
  then inr (VError (HttpError
                      ("HTTP " ++ JsString.of_Z (Handle.status response) ++ ": "
                         ++ Handle.statusText response)
                      (Handle.status response) originalUrl response))
  else match parseResponse response responseType (maxResponseSize s) with
       | inr e => inr e
       | inl data =>
           inl (Resp.mk (Handle.ok response) (Handle.status response)
                        (Handle.statusText response) (Handle.headers response)
                        (Handle.url response) data
                        (match Headers.get (Handle.headers response) "etag" with
                         | Some e => FieldStr e
                         | None => FieldNull
                         end)
                        None)
       end.

(** What [executeHttpRequest] has in hand when it reaches [await fetch]:
    the final URL, the options, the timeout in force, and whether the
    controller was aborted on entry. *)
Record prepared := mkPrepared {
  p_url : string;
  p_options : fetch_options;
  p_timeout : Z;
  p_aborted : bool
}.

(** [executeHttpRequest(config)] up to the call of the transport. *)
Definition prepare (s : settings) (config : Config.t) : prepared + jsval :=
  match resolveUrl s (Config.url config) with
  | inr e => inr e
  | inl resolved =>
      let url := buildUrl resolved (Config.params config) in
      match buildFetchOptions s config with
      | inr e => inr e
      | inl options =>
          let timeout := or_default (Config.timeout config) (timeout s) in
          let aborted_on_entry :=
            match Config.signal config with
            | Some sg => aborted sg
            | None => false
            end in
          inl (mkPrepared url options timeout aborted_on_entry)
      end
  end.

(** The [catch] clause of [executeHttpRequest]: what is thrown for a
    caught [error]. Reading [name] off [undefined] or [null] throws. *)
Definition translate (p : prepared) (error : jsval) : jsval :=
  match error with
  | VUndefined => TypeError "Cannot read properties of undefined (reading 'name')"
  | VNull => TypeError "Cannot read properties of null (reading 'name')"
  | VError e =>
      if String.eqb (error_name e) "AbortError"
      then VError (TimeoutError (p_url p) (p_timeout p))
      else match e with
           | HttpError _ _ _ _ => error
           | _ => VError (NetworkError (error_message e) (p_url p))
           end
  | VResponse _ | VOther _ => VError (NetworkError EmptyString (p_url p))
  end.

(** [executeHttpRequest(config)] from the settlement of [await fetch] on:
    the [try] and its [catch]. *)
Definition complete (s : settings) (config : Config.t) (p : prepared)
           (fo : fetch_outcome) : outcome :=
  match fo with
  | FetchRejects error => Threw (translate p error)
  | FetchResolves response =>
      let responseType :=
        match Config.responseType config with
        | Some rt => if JsString.truthy rt then rt else "auto"
        | None => "auto"
        end in
      match buildResponse s response responseType (p_url p) with
      | inl r => Returned (VResponse r)
      | inr error => Threw (translate p error)
      end
  end.

(** *** The host: aborting a transport call *)

(** How a transport call would go if nobody aborted it: after how many
    milliseconds it settles, if ever, and with what. *)
Record transport := mkTransport {
  settles_after : option Z;
  settles_with : fetch_outcome
}.

(** What a transport call rejects with once its signal is aborted. *)
Definition AbortError : jsval :=
  VError (PlainError "AbortError" "The operation was aborted").

(** Why the controller of a request aborts. *)
Inductive abort_cause :=
| SignalAbortedOnEntry
| SignalFired (after : Z)
| TimerFired (after : Z).

(** The first thing to abort the controller of [executeHttpRequest]: the
    caller's signal if it is aborted already; otherwise the earlier of the
    caller's signal and the timer set by [setupTimeout]. *)
Definition first_abort (p : prepared) (sg : option signal) : abort_cause :=
  if p_aborted p then SignalAbortedOnEntry
  else match sg with
       | Some (mkSignal _ (Some t)) =>
           if t <? p_timeout p then SignalFired t else TimerFired (p_timeout p)
       | _ => TimerFired (p_timeout p)
       end.

Definition abort_time (c : abort_cause) : Z :=
  match c with
  | SignalAbortedOnEntry => 0
  | SignalFired t | TimerFired t => t
  end.

(** The transport call is aborted when it has not settled before the
    controller aborts. *)
Definition aborts (tr : transport) (p : prepared) (sg : option signal) : bool :=
  match first_abort p sg with
  | SignalAbortedOnEntry => true
  | c => match settles_after tr with
         | Some t => negb (t <? abort_time c)
         | None => true
         end
  end.

(** [await fetch(url, options)] with [options.signal] the signal of the
    controller. *)
Definition await_fetch (tr : transport) (p : prepared) (sg : option signal)
  : fetch_outcome :=
  if aborts tr p sg then FetchRejects AbortError else settles_with tr.

(** [executeHttpRequest(config)] against a transport call that goes as
    [tr]: how it ends, and whether the transport was called. *)
Definition executeHttpRequest (s : settings) (config : Config.t) (tr : transport)
  : outcome * bool :=
  match prepare s config with
  | inr e => (Threw e, false)
  | inl p => (complete s config p (await_fetch tr p (Config.signal config)), true)
  end.

(** *** The retry loop *)

Inductive retry_decision :=
| GiveUp (finalError : jsval)
| SleepFor (delay : Z).

(** The [Retry-After] override of the computed delay. *)
Definition retry_after (s : settings) (error : jsval) (delay : Z) : Z :=
  match error with
  | VError (HttpError _ status _ response) =>
      if (respectRetryAfter s && (status =? 429))%bool
      then match Headers.get (Handle.headers response) "retry-after" with
           | Some retryAfter =>
               if JsString.truthy retryAfter
               then let retryAfterMs := JsNumber.toInt retryAfter 0 * 1000 in
                    if 0 <? retryAfterMs then Z.min retryAfterMs MAX_BACKOFF else delay
               else delay
           | None => delay
           end
      else delay
  | _ => delay
  end.

(** The [catch] block of the loop of [executeWithRetry], for the error
    of attempt number [attempt]. *)
Definition on_attempt_error (s : settings) (attempt : Z) (error : jsval)
  : retry_decision :=
  let isFinalAttempt := attempt =? retryAttempts s in
  let shouldRetry := retryCondition s error in
  if (isFinalAttempt || negb shouldRetry)%bool
  then GiveUp (callErrorInterceptors (errorInterceptors s) error)
  else
    let delay :=
      match retryDelay s with
      | DelayFunction f => f attempt
      | DelayConstant ms => ms
      end in
    SleepFor (retry_after s error delay).

(** What one run of the pipeline leaves behind: how many times
    [executeHttpRequest] was entered, how many times the transport was
    called, and the delays slept, oldest first. *)
Record world := mkWorld {
  attempts : nat;
  dispatches : nat;
  slept : list Z
}.

(** The loop of [executeWithRetry] with [remaining] iterations to go,
    [attempt] being the number of the next one. The [n]-th transport call
    goes as [script n]. *)
Fixpoint retry_loop (s : settings) (config : Config.t) (script : nat -> transport)
         (remaining : nat) (attempt : Z) (lastError : jsval) (w : world)
  : outcome * world :=
  match remaining with
  | O => (Threw lastError, w)
  | S remaining' =>
      let (r, called) := executeHttpRequest s config (script (dispatches w)) in
      let w1 := mkWorld (S (attempts w))
                        (if called then S (dispatches w) else dispatches w)
                        (slept w) in
      match r with
      | Returned v => (Returned v, w1)
      | Threw error =>
          match on_attempt_error s attempt error with
          | GiveUp finalError => (Threw finalError, w1)
          | SleepFor delay =>
              retry_loop s config script remaining' (attempt + 1) error
                         (mkWorld (attempts w1) (dispatches w1) (slept w1 ++ [delay]))
          end
      end
  end.

(** [executeWithRetry(config)], run to its end. *)
Definition executeWithRetry (s : settings) (config : Config.t)
           (script : nat -> transport) (w : world) : outcome * world :=
  retry_loop s config script (Z.to_nat (retryAttempts s)) 1 VUndefined w.

(** *** The cacheable path *)

(** Where the pipeline behind an in-flight promise stands: awaiting the
    transport call of an attempt; asleep between two attempts; or with
    its thunk settled, or its breaker gate closed, and the continuations
    ([call]'s own, the [then] callback, the [finally] of [track]) still
    to run. *)
Inductive phase :=
| AwaitingTransport (attempt : Z) (config : Config.t) (p : prepared)
| Sleeping (attempt : Z) (config : Config.t) (error : jsval) (delay : Z)
| ThunkSettled (r : outcome)
| GateSettled (r : outcome).

Record task := mkTask {
  t_key : string;
  t_phase : phase
}.

(** A client at rest between two synchronous stretches: its cache and
    breaker, the pipelines in flight and the promises settled so far
    (promises are numbered), and the number of transport calls made. *)
Record client := mkClient {
  cache : HttpCache.t;
  circuitBreaker : CircuitBreaker.t;
  tasks : list (nat * task);
  results : list (nat * outcome);
  next_promise : nat;
  transport_calls : nat
}.

Definition with_cache (c : client) (h : HttpCache.t) : client :=
  mkClient h (circuitBreaker c) (tasks c) (results c) (next_promise c)
           (transport_calls c).

Fixpoint find_task (promise : nat) (l : list (nat * task)) : option task :=
  match l with
  | [] => None
  | (n, t) :: r => if Nat.eqb n promise then Some t else find_task promise r
  end.

Definition remove_task (promise : nat) (l : list (nat * task)) : list (nat * task) :=
  filter (fun nt => negb (Nat.eqb (fst nt) promise)) l.

Definition set_phase (promise : nat) (ph : phase) (l : list (nat * task))
  : list (nat * task) :=
  map (fun nt => if Nat.eqb (fst nt) promise
                 then (fst nt, mkTask (t_key (snd nt)) ph) else nt) l.

Fixpoint find_result (promise : nat) (l : list (nat * outcome)) : option outcome :=
  match l with
  | [] => None
  | (n, r) :: rest => if Nat.eqb n promise then Some r else find_result promise rest
  end.

Definition after_error (s : settings) (config : Config.t) (attempt : Z)
           (error : jsval) : phase :=
  match on_attempt_error s attempt error with
  | GiveUp finalError => ThunkSettled (Threw finalError)
  | SleepFor delay => Sleeping attempt config error delay
  end.

(** [executeWithRetry] from the test of its loop for attempt number
    [attempt] to the next suspension, and whether the transport was
    called on the way. *)
Definition start_attempt (s : settings) (config : Config.t) (attempt : Z)
           (lastError : jsval) : phase * bool :=
  if retryAttempts s <? attempt then (ThunkSettled (Threw lastError), false)
  else match prepare s config with
       | inl p => (AwaitingTransport attempt config p, true)
       | inr error => (after_error s config attempt error, false)
       end.

(** The pipeline is awaiting a transport call. *)
Definition awaiting (ph : phase) : bool :=
  match ph with
  | AwaitingTransport _ _ _ => true
  | _ => false
  end.

(** What the promise returned by [cacheableRequest] is: the in-flight
    promise already registered, a promise settled on the spot, or a new
    in-flight promise. *)
Inductive reply :=
| Joins (promise : nat)
| Answers (r : outcome)
| Starts (promise : nat).

(** [cacheableRequest(config)] at time [now]: one synchronous stretch. *)
Definition cacheableRequest (s : settings) (c : client) (config : Config.t)
           (now : Z) : reply * client :=
  match resolveUrl s (Config.url config) with
  | inr e => (Answers (Threw e), c)
  | inl url =>
      let (cacheKey, cache1) :=
        HttpCache.key (cache c) "GET" url (Config.params config)
                      (Config.headers config) in
      match HttpCache.getPending cache1 cacheKey with
      | Some pendingRequest => (Joins pendingRequest, with_cache c cache1)
      | None =>
          let (cached, cache2) := HttpCache.get cache1 cacheKey now in
          match cached with
          | Some r => (Answers (Returned (VResponse r)), with_cache c cache2)
          | None =>
              let config1 :=
                match HttpCache.get_etag cache2 cacheKey with
                | Some etag =>
                    if JsString.truthy etag
                    then Config.with_headers config
                           (spread (spread [] (Config.headers config))
                                   [("If-None-Match", etag)])
                    else config
                | None => config
                end in
              let (g, breaker1) := CircuitBreaker.enter (circuitBreaker c) now in
              let (ph, called) :=
                match g with
                | CircuitBreaker.Rejected o => (GateSettled o, false)
                | CircuitBreaker.Allowed => start_attempt s config1 1 VUndefined
                end in
              let requestPromise := next_promise c in
              (Starts requestPromise,
               mkClient (HttpCache.track cache2 cacheKey requestPromise)
                        breaker1
                        ((requestPromise, mkTask cacheKey ph) :: tasks c)
                        (results c)
                        (S requestPromise)
                        (if called then S (transport_calls c) else transport_calls c))
          end
      end
  end.

(** [response.status], for the values that have one. *)
Definition status_of (v : jsval) : option Z :=
  match v with
  | VResponse r => Some (Resp.status r)
  | VError (HttpError _ status _ _) => Some status
  | _ => None
  end.

(** The callback that [cacheableRequest] passes to [then], at time
    [now]. *)
Definition then_callback (h : HttpCache.t) (cacheKey : string) (response : jsval)
           (now : Z) : outcome * HttpCache.t :=
  match response with
  | VUndefined =>
      (Threw (TypeError "Cannot read properties of undefined (reading 'status')"), h)
  | VNull =>
      (Threw (TypeError "Cannot read properties of null (reading 'status')"), h)
  | _ =>
      let (refreshed, h1) :=
        match status_of response with
        | Some status =>
            if status =? 304
            then HttpCache.get (HttpCache.refresh h cacheKey now) cacheKey now
            else (None, h)
        | None => (None, h)
        end in
      match refreshed with
      | Some r => (Returned (VResponse r), h1)
      | None =>
          match response with
          | VResponse r =>
              if Resp.ok r
              then (Returned response,
                    HttpCache.set h1 cacheKey r None
                                  (Headers.get (Resp.headers r) "etag") now)
              else (Returned response, h1)
          | _ => (Returned response, h1)
          end
      end
  end.

(** What can happen to a client. *)
Inductive event :=
| Request (config : Config.t) (now : Z)
| TransportSettles (promise : nat) (fo : fetch_outcome)
| SleepEnds (promise : nat)
| PromiseSettles (promise : nat) (now : Z).

(** The continuations that run once the thunk of [promise] has settled
    or its gate has closed: [onSuccess] or [onFailure], the [then]
    callback on a fulfilment, and the removal from the in-flight
    registry. *)
Definition finish (c : client) (promise : nat) (t : task) (now : Z) : client :=
  let (r, breaker1) :=
    match t_phase t with
    | ThunkSettled r => CircuitBreaker.settle (circuitBreaker c) now r
    | GateSettled r => (r, circuitBreaker c)
    | _ => (Threw VUndefined, circuitBreaker c)
    end in
  let (r1, h1) :=
    match r with
    | Returned v => then_callback (cache c) (t_key t) v now
    | Threw e => (Threw e, cache c)
    end in
  mkClient (HttpCache.untrack h1 (t_key t)) breaker1
           (remove_task promise (tasks c))
           ((promise, r1) :: results c)
           (next_promise c) (transport_calls c).

(** One step of a client; an event that is not due leaves it as it is. *)
Definition step (s : settings) (c : client) (e : event) : client * option reply :=
  match e with
  | Request config now =>
      let (r, c1) := cacheableRequest s c config now in (c1, Some r)
  | TransportSettles promise fo =>
      match find_task promise (tasks c) with
      | Some (mkTask _ (AwaitingTransport attempt config p)) =>
          let ph :=
            match complete s config p fo with
            | Returned v => ThunkSettled (Returned v)
            | Threw error => after_error s config attempt error
            end in
          (mkClient (cache c) (circuitBreaker c) (set_phase promise ph (tasks c))
                    (results c) (next_promise c) (transport_calls c), None)
      | _ => (c, None)
      end
  | SleepEnds promise =>
      match find_task promise (tasks c) with
      | Some (mkTask _ (Sleeping attempt config error _)) =>
          let (ph, called) := start_attempt s config (attempt + 1) error in
          (mkClient (cache c) (circuitBreaker c) (set_phase promise ph (tasks c))
                    (results c) (next_promise c)
                    (if called then S (transport_calls c) else transport_calls c),
           None)
      | _ => (c, None)
      end
  | PromiseSettles promise now =>
      match find_task promise (tasks c) with
      | Some (mkTask k (ThunkSettled r)) =>
          (finish c promise (mkTask k (ThunkSettled r)) now, None)
      | Some (mkTask k (GateSettled r)) =>
          (finish c promise (mkTask k (GateSettled r)) now, None)
      | _ => (c, None)
      end
  end.

(** A run: the final client and the replies to the requests, in order. *)
Fixpoint run (s : settings) (c : client) (trace : list event)
  : client * list reply :=
  match trace with
  | [] => (c, [])
  | e :: rest =>
      let (c1, r) := step s c e in
      let (c2, replies) := run s c1 rest in
      (c2, match r with Some x => x :: replies | None => replies end)
  end.

(** How the promise behind a reply ends, once it has. *)
Definition outcome_of (c : client) (r : reply) : option outcome :=
  match r with
  | Answers o => Some o
  | Joins promise | Starts promise => find_result promise (results c)
  end.

(** [new Grab(...)]'s cache and breaker, nothing in flight. *)
Definition fresh (h : HttpCache.t) (b : CircuitBreaker.t) : client :=
  mkClient h b [] [] 0%nat 0%nat.

(** Every request reaches the transport, and every transport call ends in
    an error that the retry condition accepts. *)
Definition always_failing (s : settings) (config : Config.t)
           (script : nat -> transport) : Prop :=
  forall n, exists error,
    executeHttpRequest s config (script n) = (Threw error, true) /\
    retryCondition s error = true.

(** The errors of the client's own classes, and the [TypeError] of reading
    a property off [undefined] or [null]. *)
Definition client_error (v : jsval) : Prop :=
  match v with
  | VError (TimeoutError _ _) => True
  | VError (HttpError _ _ _ _) => True
  | VError (NetworkError _ _) => True
  | VError (PlainError name _) => name = "TypeError"
  | _ => False
  end.

End Grab.

(** ** The wording of the specification, where it is compared with the code *)

Module Spec.

(** The errors the specification calls retryable: network and timeout
    errors, and HTTP errors whose status is 408, 429 or in 500-599. *)
Definition retryable (error : jsval) : Prop :=
  match error with
  | VError (NetworkError _ _) => True
  | VError (TimeoutError _ _) => True
  | VError (HttpError _ status _ _) =>
      status = 408 \/ status = 429 \/ 500 <= status <= 599
  | _ => False
  end.

(** The error chain in which a thrown value propagates: it leaves the
    chain at once, and the interceptors after the one that threw are not
    run. *)
Fixpoint error_chain (interceptors : list interceptor) (current : jsval) : jsval :=
  match interceptors with
  | [] => current
  | fn :: rest =>
      match fn current with
      | Returned VUndefined => error_chain rest current
      | Returned result => error_chain rest result
      | Threw err => err
      end
  end.

End Spec.

(** ** Concrete clients, requests and transports *)

Module Example.

(** A response handle with a status, a status text and headers; it is [ok]
    for a status in 200-299, and its body decodes to [data]. *)
Definition handle (status : Z) (statusText : string) (headers : Headers.t)
           (data : js_data) : Handle.t :=
  Handle.mk ((200 <=? status) && (status <=? 299))%bool status statusText headers
            "https://api.example.com/a"
            (Decoded data) (Decoded data) (Decoded data) (Decoded data) data.

(** A client of [https://api.example.com] with the default timeout, a
    constant retry delay and the default retry condition. *)
Definition settings (attempts : Z) (interceptors : list interceptor)
  : Grab.settings :=
  Grab.mkSettings "https://api.example.com" DEFAULT_TIMEOUT
                  [("Content-Type", "application/json")]
                  attempts (Grab.DelayConstant 10) defaultRetryCondition true
                  interceptors (10 * 1024 * 1024) (50 * 1024 * 1024) false.

(** [{ method: 'GET', url }], with an optional signal. *)
Definition request (url : string) (sg : option signal) : Config.t :=
  Config.mk (Some "GET") url [] [] BodyNone None sg None None None.

(** A transport call that resolves with [h] after five milliseconds. *)
Definition answers (h : Handle.t) : Grab.transport :=
  Grab.mkTransport (Some 5) (Grab.FetchResolves h).

(** A transport call that never settles by itself. *)
Definition hangs : Grab.transport :=
  Grab.mkTransport None (Grab.FetchRejects VUndefined).

(** An interceptor that throws an error of its own. *)
Definition thrower : interceptor :=
  fun _ => Threw (VError (PlainError "Error" "first")).

(** An interceptor that returns an error of its own. *)
Definition replacer : interceptor :=
  fun _ => Returned (VError (PlainError "Error" "second")).

Definition world0 : Grab.world := Grab.mkWorld 0 0 [].

End Example.

(** ** More of the cache: invalidation, statistics, and runs of operations *)

Module CacheOps.

(** [invalidate(pattern)] for a pattern whose [test] is the predicate
    [matches] (a string pattern, or a [RegExp] without the [g] or [y]
    flag, whose [test] keeps no state): the count returned and the cache
    left. *)
Definition invalidate (c : HttpCache.t) (matches : string -> bool)
  : Z * HttpCache.t :=
  fold_left
    (fun acc key =>
       if matches key
       then (fst acc + 1,
             HttpCache.with_etags
               (HttpCache.with_cache (snd acc)
                  (JsMap.delete key (HttpCache.cache (snd acc))))
               (JsMap.delete key (HttpCache.etags (snd acc))))
       else acc)
    (JsMap.keys (HttpCache.cache c)) (0, c).

(** [stats()]. *)
Record stats := mkStats {
  st_size : Z;
  st_maxSize : Z;
  st_ttl : Z;
  st_pending : Z;
  st_etags : Z
}.

Definition get_stats (c : HttpCache.t) : stats :=
  mkStats (JsMap.size (HttpCache.cache c)) (HttpCache.maxSize c) (HttpCache.ttl c)
          (JsMap.size (HttpCache.pending c)) (JsMap.size (HttpCache.etags c)).

(** The operations on the entries of a cache. *)
Inductive op :=
| Set_ (k : string) (d : Resp.t) (customTtl : option Z) (tag : option string) (now : Z)
| Get (k : string) (now : Z)
| Refresh (k : string) (now : Z)
| Sweep (now : Z)
| Invalidate (matches : string -> bool)
| Clear.

Definition apply (c : HttpCache.t) (o : op) : HttpCache.t :=
  match o with
  | Set_ k d customTtl tag now => HttpCache.set c k d customTtl tag now
  | Get k now => snd (HttpCache.get c k now)
  | Refresh k now => HttpCache.refresh c k now
  | Sweep now => HttpCache.cleanup_timer c now
  | Invalidate matches => snd (invalidate c matches)
  | Clear => HttpCache.clear c
  end.

Definition run (c : HttpCache.t) (ops : list op) : HttpCache.t :=
  fold_left apply ops c.

(** Every ETag of the index belongs to an entry of the cache. *)
Definition etags_indexed (c : HttpCache.t) : Prop :=
  forall k, JsMap.get k (HttpCache.etags c) <> None ->
            JsMap.get k (HttpCache.cache c) <> None.

(** The keys of the entries are pairwise distinct, as the keys of a
    [Map] are. *)
Definition distinct_keys (c : HttpCache.t) : Prop :=
  NoDup (JsMap.keys (HttpCache.cache c)).

(** [this.cache.delete(key); this.etags.delete(key)], the pair of deletions
    shared by the eviction of [set], the expiry of [get], the sweep and
    [invalidate]. *)
Definition drop (c : HttpCache.t) (key : string) : HttpCache.t :=
  HttpCache.with_etags
    (HttpCache.with_cache c (JsMap.delete key (HttpCache.cache c)))
    (JsMap.delete key (HttpCache.etags c)).

(** Whether [set] evicts: the cache is full and the key is new. *)
Definition evicts (c : HttpCache.t) (k : string) : bool :=
  ((HttpCache.maxSize c <=? JsMap.size (HttpCache.cache c))
   && negb (JsMap.has k (HttpCache.cache c)))%bool.

(** A cache configured for [m] entries that holds no more than [m]. *)
Definition within_capacity (m : Z) (c : HttpCache.t) : Prop :=
  HttpCache.maxSize c = m /\ JsMap.size (HttpCache.cache c) <= m.

End CacheOps.

(** ** Reading back what [JSON.stringify] writes *)

Module JsonRead.

Definition hex_value (c : ascii) : nat :=
  let n := nat_of_ascii c in
  if Nat.leb 97 n then n - 87 else n - 48.

(** One character off the front of the inside of a JSON string literal:
    the character and what follows it; nothing at the closing quote or at a
    malformed escape. *)
Definition read_char (s : string) : option (ascii * string) :=
  match s with
  | EmptyString => None
  | String c r =>
      if Nat.eqb (nat_of_ascii c) 92 then
        match r with
        | String c2 r2 =>
            let n := nat_of_ascii c2 in
            if Nat.eqb n 34 then Some (c2, r2)
            else if Nat.eqb n 92 then Some (c2, r2)
            else if Nat.eqb n 98 then Some (ascii_of_nat 8, r2)
            else if Nat.eqb n 116 then Some (ascii_of_nat 9, r2)
            else if Nat.eqb n 110 then Some (ascii_of_nat 10, r2)
            else if Nat.eqb n 102 then Some (ascii_of_nat 12, r2)
            else if Nat.eqb n 114 then Some (ascii_of_nat 13, r2)
            else if Nat.eqb n 117 then
              match r2 with
              | String _ (String _ (String h1 (String h2 r3))) =>
                  Some (ascii_of_nat (16 * hex_value h1 + hex_value h2), r3)
              | _ => None
              end
            else None
        | EmptyString => None
        end
      else if Nat.eqb (nat_of_ascii c) 34 then None
      else Some (c, r)
  end.

(** The sorted, comma-joined header names under which [key] memoises. *)
Definition shape (headers : list (string * string)) : string :=
  JsString.join "," (JsString.sort (map fst headers)).

(** The text of the members of an object, closed by its brace. *)
Fixpoint members_text (o : list (string * string)) : string :=
  match o with
  | [] => "}"
  | [kv] => Json.member (fst kv) (JsString.json_quote (snd kv)) ++ "}"
  | kv :: rest => Json.member (fst kv) (JsString.json_quote (snd kv)) ++ "," ++ members_text rest
  end.

End JsonRead.

(** ** Calls of a breaker that do not overlap *)

Module BreakerRuns.

(** A whole [call]: when it is entered, how its thunk ends if it is
    invoked, and when that settles. *)
Record whole_call := mkCall {
  entered : Z;
  thunk : outcome;
  settled : Z
}.

(** The breaker after a whole [call] with nothing interleaved. *)
Definition after_call (cb : CircuitBreaker.t) (wc : whole_call) : CircuitBreaker.t :=
  snd (fst (CircuitBreaker.call cb (entered wc)
              (CircuitBreaker.counting (thunk wc)) (settled wc) 0%nat)).

Definition after_calls (cb : CircuitBreaker.t) (calls : list whole_call)
  : CircuitBreaker.t :=
  fold_left after_call calls cb.

(** What holds of a breaker whose calls have not overlapped. *)
Definition consistent (cb : CircuitBreaker.t) : Prop :=
  1 <= CircuitBreaker.failureThreshold cb /\
  0 <= CircuitBreaker.failureCount cb /\
  (CircuitBreaker.state cb = CircuitBreaker.CIRCUIT_CLOSED ->
   CircuitBreaker.failureCount cb < CircuitBreaker.failureThreshold cb) /\
  (CircuitBreaker.state cb <> CircuitBreaker.CIRCUIT_CLOSED ->
   CircuitBreaker.failureThreshold cb <= CircuitBreaker.failureCount cb) /\
  (CircuitBreaker.state cb = CircuitBreaker.CIRCUIT_HALF_OPEN ->
   CircuitBreaker.halfOpenRequestSent cb = false).

End BreakerRuns.

Module SizeLimits.

(** A response that [buildResponse] hands to [parseResponse] and whose
    [Content-Length] is above the client's [maxResponseSize]. *)
Definition oversized (s : Grab.settings) (response : Handle.t) : bool :=
  (negb (Handle.status response =? 304) && Handle.ok response
   && match Headers.get (Handle.headers response) "content-length" with
      | Some contentLength =>
          match JsNumber.of_digits contentLength with
          | Some n => negb (Grab.maxResponseSize s =? 0) && (Grab.maxResponseSize s <? n)
          | None => false
          end
      | None => false
      end)%bool.

(** The message of the error of [parseResponse] for such a response. *)
Definition too_large_message (s : Grab.settings) (response : Handle.t) : string :=
  "Response too large: "
    ++ match Headers.get (Handle.headers response) "content-length" with
       | Some contentLength => contentLength
       | None => EmptyString
       end
    ++ " bytes (max: " ++ JsString.of_Z (Grab.maxResponseSize s) ++ ")".

(** Every transport call of the script resolves, before anything aborts
    it, with an oversized response. *)
Definition always_oversized (s : Grab.settings) (config : Config.t)
           (p : Grab.prepared) (script : nat -> Grab.transport) : Prop :=
  forall n,
    Grab.aborts (script n) p (Config.signal config) = false /\
    exists response,
      Grab.settles_with (script n) = Grab.FetchResolves response /\
      oversized s response = true.

End SizeLimits.

(** ** The options of the constructor *)

Module Options.

(** An option that the code reads as a number: missing ([undefined] or
    [null]), an integer, or a string. *)
Inductive js_option :=
| Missing
| Num (n : Z)
| Str (s : string).

(** [normalizeTimeout(t)]. *)
Definition normalizeTimeout (t : js_option) : Z :=
  match t with
  | Missing => DEFAULT_TIMEOUT
  | _ =>
      let n := match t with
               | Num n => n
               | Str s => JsNumber.toInt s DEFAULT_TIMEOUT
               | Missing => DEFAULT_TIMEOUT
               end in
      if 0 <? n then JsNumber.clamp n 100 300000 else DEFAULT_TIMEOUT
  end.

Record cache_options := mkCacheOptions {
  c_enabled : bool;
  c_ttl : Z;
  c_maxSize : Z
}.

(** [normalizeCache(c)] for integer or missing [ttl] and [maxSize]. *)
Definition normalizeCache (enabled : option bool) (ttl maxSize : option Z)
  : cache_options :=
  mkCacheOptions
    (match enabled with Some false => false | _ => true end)
    (Z.max 1000 (Z.min 86400000 (or_default ttl DEFAULT_CACHE_TTL)))
    (Z.max 1 (Z.min 10000 (or_default maxSize 100))).

Record breaker_options := mkBreakerOptions {
  b_failureThreshold : Z;
  b_resetTimeout : Z;
  b_fallback : CircuitBreaker.fallback_value
}.

(** [normalizeCircuitBreaker(c)] for integer or missing numbers. *)
Definition normalizeCircuitBreaker (failureThreshold resetTimeout : option Z)
           (fallback : CircuitBreaker.fallback_value) : breaker_options :=
  mkBreakerOptions
    (Z.max 1 (Z.min 100 (or_default failureThreshold 5)))
    (Z.max 1000 (Z.min 3600000 (or_default resetTimeout 60000)))
    (match fallback with
     | CircuitBreaker.FallbackFunction r => CircuitBreaker.FallbackFunction r
     | _ => CircuitBreaker.FallbackNull
     end).

(** [normalizeHeaders(headers)] for a plain object, [None] being anything
    else; a value is given by its [String(v)], [None] being [null] or
    [undefined]. *)
Definition normalizeHeaders (headers : option (list (string * option string)))
  : list (string * string) :=
  match headers with
  | None => [("Content-Type", "application/json")]
  | Some entries =>
      let clean :=
        fold_left
          (fun acc kv =>
             match snd kv with
             | Some v => if JsString.truthy (fst kv) then JsMap.set (fst kv) v acc else acc
             | None => acc
             end)
          entries [] in
      match clean with
      | [] => [("Content-Type", "application/json")]
      | _ => spread (spread [] [("Content-Type", "application/json")]) clean
      end
  end.

(** [normalizeBaseUrl(url)] for a string, [None] being anything else;
    [valid] tells whether the host's [new URL(url)] accepts the string. *)
Definition normalizeBaseUrl (valid : string -> bool) (url : option string) : string :=
  match url with
  | None => EmptyString
  | Some u =>
      if negb (JsString.truthy u) then EmptyString
      else if ((JsString.startsWith u "http://" || JsString.startsWith u "https://")
               && negb (valid u))%bool
      then EmptyString
      else Url.strip_trailing_slash u
  end.

(** The cache that the constructor of [Grab] builds: [new HttpCache] on
    what [normalizeCache] returns. *)
Definition cache_of (enabled : option bool) (ttl maxSize : option Z) : HttpCache.t :=
  let cacheOpts := normalizeCache enabled ttl maxSize in
  HttpCache.new (Some (c_ttl cacheOpts)) (Some (c_maxSize cacheOpts)) None.

(** The breaker that the constructor of [Grab] builds. *)
Definition breaker_of (failureThreshold resetTimeout : option Z)
           (fallback : CircuitBreaker.fallback_value) : CircuitBreaker.t :=
  let cbOpts := normalizeCircuitBreaker failureThreshold resetTimeout fallback in
  CircuitBreaker.new (Some (b_failureThreshold cbOpts)) (Some (b_resetTimeout cbOpts))
                     (b_fallback cbOpts).

End Options.

(** ** Text of URLs *)

Module UrlText.

Fixpoint count_char (c : ascii) (s : string) : nat :=
  match s with
  | EmptyString => 0
  | String d r => if Ascii.eqb d c then S (count_char c r) else count_char c r
  end.

Fixpoint all_chars (f : ascii -> bool) (s : string) : bool :=
  match s with
  | EmptyString => true
  | String d r => f d && all_chars f r
  end.

(** The characters that the serializer of [URLSearchParams] writes for a
    name or a value. *)
Definition escaped (c : ascii) : bool :=
  (Url.is_unreserved c || Ascii.eqb c "+" || Ascii.eqb c "%")%bool.

(** The parameters that [buildUrl] appends: those whose value is neither
    [null] nor [undefined]. *)
Definition given (params : list (string * pval)) : list (string * pval) :=
  filter (fun kv => match Url.param_string (snd kv) with
                    | Some _ => true
                    | None => false
                    end) params.

End UrlText.

(** ** Runs of a pipeline *)

Module PipelineRuns.

(** The events inside [executeWithRetry]: a transport call settles, or
    the sleep between two attempts ends. *)
Definition between_attempts (e : Grab.event) : bool :=
  match e with
  | Grab.TransportSettles _ _ | Grab.SleepEnds _ => true
  | _ => false
  end.

End PipelineRuns.

(** * Properties *)

Module JsMapFacts.

Import JsMap.

Section Ordered.

Context {V : Type}.

Lemma get_set_eq (k : string) (v : V) (m : JsMap.t V) :
  get k (set k v m) = Some v.
Proof.
  induction m as [|[k' v'] r IH]; simpl.
  - now rewrite String.eqb_refl.
  - destruct (String.eqb k' k) eqn:E; simpl; rewrite E; auto.
Qed.

Lemma get_set_ne (k k' : string) (v : V) (m : JsMap.t V) :
  k <> k' -> get k' (set k v m) = get k' m.
Proof.
  intros Hne. induction m as [|[k0 v0] r IH]; simpl.
  - destruct (String.eqb_spec k k'); [contradiction | reflexivity].
  - destruct (String.eqb_spec k0 k) as [->|Hk]; simpl.
    + destruct (String.eqb_spec k k'); [contradiction | reflexivity].
    + destruct (String.eqb k0 k'); auto.
Qed.

Lemma get_delete_eq (k : string) (m : JsMap.t V) :
  get k (delete k m) = None.
Proof.
  induction m as [|[k' v'] r IH]; simpl; auto.
  destruct (String.eqb k' k) eqn:E; simpl; auto.
  now rewrite E.
Qed.

Lemma get_delete_ne (k k' : string) (m : JsMap.t V) :
  k <> k' -> get k' (delete k m) = get k' m.
Proof.
  intros Hne. induction m as [|[k0 v0] r IH]; simpl; auto.
  destruct (String.eqb_spec k0 k) as [->|Hk]; simpl.
  - destruct (String.eqb_spec k k'); [contradiction | exact IH].
  - destruct (String.eqb k0 k'); auto.
Qed.

Lemma has_get (k : string) (m : JsMap.t V) :
  has k m = true <-> exists v, get k m = Some v.
Proof.
  unfold has. destruct (get k m); split; intros H; eauto; try discriminate.
  now destruct H.
Qed.

End Ordered.

End JsMapFacts.

(** ** The HTTP cache *)

Module HttpCacheFacts.

Import HttpCache.

(** The auth memo of [key] is indexed by the sorted header names alone:
    once a header shape has been seen, the auth extract computed for it is
    reused for every later header map of the same shape, whatever its
    values. *)
Lemma key_memo_hit (c : t) (method url : string) (params : list (string * pval))
      (h1 h2 : list (string * string)) :
  map fst h1 = map fst h2 ->
  fst (key (snd (key c method url params h1)) method url params h2)
  = fst (key c method url params h1).
Proof.
  intros Hshape. unfold key. rewrite <- Hshape.
  destruct (JsMap.get _ (_authCache c)) eqn:Hmemo; simpl.
  - now rewrite Hmemo.
  - now rewrite JsMapFacts.get_set_eq.
Qed.

Lemma cache_scheduleCleanup (c : t) : cache (_scheduleCleanup c) = cache c.
Proof. unfold _scheduleCleanup. now destruct (_cleanupScheduled c). Qed.

Lemma etags_scheduleCleanup (c : t) : etags (_scheduleCleanup c) = etags c.
Proof. unfold _scheduleCleanup. now destruct (_cleanupScheduled c). Qed.

(** [set] records the entry under its key, with expiry
    [now + (customTtl || ttl)]. *)
Lemma set_records (c : t) (k : string) (v : Resp.t) (customTtl : option Z)
      (tag : option string) (now : Z) :
  JsMap.get k (cache (set c k v customTtl tag now))
  = Some (mkEntry v (now + or_default customTtl (ttl c)) tag).
Proof.
  unfold set. rewrite cache_scheduleCleanup.
  destruct (_ && _)%bool; [destruct (JsMap.first_key _)|];
    (destruct tag as [tg|]; [destruct (JsString.truthy tg)|]); simpl;
    apply JsMapFacts.get_set_eq.
Qed.

(** A [get] that comes no later than the recorded expiry of what [set] has
    just stored returns it, marked as coming from the cache. *)
Lemma get_after_set (c : t) (k : string) (v : Resp.t) (customTtl : option Z)
      (tag : option string) (now now' : Z) :
  now' <= now + or_default customTtl (ttl c) ->
  fst (get (set c k v customTtl tag now) k now') = Some (Resp.with_fromCache v true).
Proof.
  intros Htime. unfold get. rewrite set_records. simpl.
  destruct (Z.ltb_spec (now + or_default customTtl (ttl c)) now'); [lia | reflexivity].
Qed.

(** [set] indexes a truthy ETag under the key. *)
Lemma set_indexes_etag (c : t) (k : string) (v : Resp.t) (customTtl : option Z)
      (tag : string) (now : Z) :
  JsString.truthy tag = true ->
  get_etag (set c k v customTtl (Some tag) now) k = Some tag.
Proof.
  intros Htag. unfold get_etag, set. rewrite etags_scheduleCleanup, Htag. simpl.
  apply JsMapFacts.get_set_eq.
Qed.

(** [key] touches nothing but the auth memo. *)
Lemma key_frame (c : t) (method url : string) (params : list (string * pval))
      (headers : list (string * string)) :
  let c' := snd (key c method url params headers) in
  cache c' = cache c /\ pending c' = pending c /\ etags c' = etags c /\
  authHeaders c' = authHeaders c /\ ttl c' = ttl c /\ maxSize c' = maxSize c.
Proof.
  unfold key. destruct (JsMap.get _ (_authCache c)); simpl; repeat split.
Qed.

Lemma key_memoised (c : t) (k method url : string) (params : list (string * pval))
      (headers : list (string * string)) :
  memoised c k method url params headers ->
  key c method url params headers = (k, c).
Proof.
  intros (authStr & Hmemo & ->). unfold key. now rewrite Hmemo.
Qed.

Lemma key_memoises (c : t) (method url : string) (params : list (string * pval))
      (headers : list (string * string)) :
  memoised (snd (key c method url params headers))
           (fst (key c method url params headers)) method url params headers.
Proof.
  unfold memoised, key.
  destruct (JsMap.get _ (_authCache c)) as [authStr|] eqn:Hmemo; simpl.
  - exists authStr. split; [exact Hmemo | reflexivity].
  - eexists. split; [apply JsMapFacts.get_set_eq | reflexivity].
Qed.

Lemma memoised_same_memo (c c' : t) (k method url : string)
      (params : list (string * pval)) (headers : list (string * string)) :
  _authCache c' = _authCache c ->
  memoised c k method url params headers -> memoised c' k method url params headers.
Proof. unfold memoised. now intros ->. Qed.

Lemma authCache_get (c : t) (k : string) (now : Z) :
  _authCache (snd (get c k now)) = _authCache c.
Proof.
  unfold get. destruct (JsMap.get k (cache c)) as [e|]; [|reflexivity].
  now destruct (expires e <? now).
Qed.

Lemma pending_get (c : t) (k : string) (now : Z) :
  pending (snd (get c k now)) = pending c.
Proof.
  unfold get. destruct (JsMap.get k (cache c)) as [e|]; [|reflexivity].
  now destruct (expires e <? now).
Qed.

(** C5. After [set(key, v)], [get(key)] at a time not past the recorded
    expiry returns [v] with [fromCache = true] (so its [data] is [v.data]);
    at a time past the expiry it returns [null] and leaves neither the
    entry nor its ETag in the cache. *)
Theorem set_then_get (c : t) (k : string) (v : Resp.t) (customTtl : option Z)
        (tag : option string) (now now' : Z) :
  let c' := set c k v customTtl tag now in
  let recorded := now + or_default customTtl (ttl c) in
  (exists e, JsMap.get k (cache c') = Some e /\ expires e = recorded) /\
  (now' <= recorded ->
   exists r, fst (get c' k now') = Some r /\
             Resp.data r = Resp.data v /\ Resp.fromCache r = Some true) /\
  (recorded < now' ->
   fst (get c' k now') = None /\
   JsMap.get k (cache (snd (get c' k now'))) = None /\
   JsMap.get k (etags (snd (get c' k now'))) = None).
Proof.
  intros c' recorded.
  pose proof (set_records c k v customTtl tag now) as Hrec.
  fold c' recorded in Hrec.
  split; [eexists; split; [exact Hrec | reflexivity]|].
  split; intros Htime; unfold get; rewrite Hrec; simpl.
  - destruct (Z.ltb_spec recorded now'); [lia|]. simpl.
    eexists; repeat split.
  - destruct (Z.ltb_spec recorded now'); [|lia]. simpl.
    repeat split; apply JsMapFacts.get_delete_eq.
Qed.

Lemma set_then_get_witness :
  let c := new None None None in
  let v := Resp.mk true 200 "OK" [] "https://api.example.com/a"
                   (DataJson "{x:1}") FieldNull None in
  (exists r, fst (get (set c "k" v None None 1000) "k" 301000) = Some r /\
             Resp.data r = DataJson "{x:1}" /\ Resp.fromCache r = Some true) /\
  fst (get (set c "k" v None None 1000) "k" 301001) = None.
Proof.
  intros c v. split.
  - apply (set_then_get c "k" v None None 1000 301000). vm_compute. discriminate.
  - apply (set_then_get c "k" v None None 1000 301001). reflexivity.
Defined.

(** The sweep and [get] do not agree on the instant of expiry: [get] still
    returns an entry at [now = expires], the sweep already removes it. With
    a TTL of one minute the sweep armed by a [set] is due at that very
    instant. *)
Lemma sweep_at_expiry :
  let v := Resp.mk true 200 "OK" [] "https://api.example.com/a"
                   (DataJson "{x:1}") FieldNull None in
  let c := set (new (Some 60000) None None) "k" v None None 0 in
  _cleanupScheduled c = true /\
  fst (get c "k" 60000) = Some (Resp.with_fromCache v true) /\
  fst (get (cleanup_timer c 60000) "k" 60000) = None.
Proof. cbv zeta. repeat split. Qed.

(** C1 (the code departs from it). On a fresh cache, the fingerprint of a
    request carrying [Authorization: Bearer A] and the fingerprint then
    computed for the same request carrying [Authorization: Bearer B] are
    the same string: the second call reuses the auth extract memoised for
    the first. *)
Theorem key_auth_collision :
  let c := new None None None in
  let h1 := [("Authorization", "Bearer A")] in
  let h2 := [("Authorization", "Bearer B")] in
  let first := key c "GET" "https://api.example.com/d" [] h1 in
  let second := key (snd first) "GET" "https://api.example.com/d" [] h2 in
  h1 <> h2 /\ fst first = fst second /\
  extract_auth AUTH_HEADERS h1 <> extract_auth AUTH_HEADERS h2.
Proof.
  cbv zeta. split; [discriminate|]. split; [vm_compute; reflexivity|].
  vm_compute. discriminate.
Qed.

End HttpCacheFacts.

(** ** The circuit breaker *)

Module CircuitBreakerFacts.

Import CircuitBreaker.

Lemma enter_rejecting (cb : t) (now : Z) :
  rejecting cb now -> enter cb now = (Rejected (this_fallback cb), cb).
Proof.
  unfold enter. intros [[Hs Hr]|[Hs Hp]]; rewrite Hs.
  - now rewrite Hr.
  - simpl. rewrite Hs. now rewrite Hp.
Qed.

(** A rejected [call] leaves the thunk alone and the breaker as it was,
    and ends the way [this.fallback()] ends. *)
Lemma call_rejecting {W : Type} (cb : t) (now now' : Z) (fn : W -> outcome * W)
      (w : W) :
  rejecting cb now -> call cb now fn now' w = (this_fallback cb, cb, w).
Proof.
  intros H. unfold call. now rewrite (enter_rejecting cb now H).
Qed.

(** With a fallback function configured, a rejected [call] ends the way
    the fallback ends. *)
Lemma call_rejecting_fallback {W : Type} (cb : t) (now now' : Z)
      (fn : W -> outcome * W) (w : W) (result : outcome) :
  rejecting cb now -> fallback cb = FallbackFunction result ->
  call cb now fn now' w = (result, cb, w).
Proof.
  intros H Hf. rewrite (call_rejecting cb now now' fn w H).
  unfold this_fallback. now rewrite Hf.
Qed.

(** Without one, a rejected [call] ends in the [TypeError] of calling a
    value that is not a function. *)
Lemma call_rejecting_no_fallback {W : Type} (cb : t) (now now' : Z)
      (fn : W -> outcome * W) (w : W) :
  rejecting cb now ->
  fallback cb = FallbackNull \/ fallback cb = FallbackUndefined ->
  call cb now fn now' w
  = (Threw (TypeError "this.fallback is not a function"), cb, w).
Proof.
  intros H Hf. rewrite (call_rejecting cb now now' fn w H).
  unfold this_fallback. now destruct Hf as [-> | ->].
Qed.

(** C2 (the code departs from it). A breaker built the way [Grab] builds
    it when no fallback is configured ([fallback: null]), opened by two
    failures with a threshold of two, is called again before the reset
    timeout has elapsed: the thunk is not invoked, and the call ends in
    [TypeError: this.fallback is not a function], not in the "service
    unavailable" error that the method [fallback] of the class would
    throw. *)
Theorem open_rejection_without_fallback :
  let cb0 := new (Some 2) (Some 60000) FallbackNull in
  let '(_, cb1, n1) := call cb0 0 (counting (Threw (VOther "boom"))) 10 0%nat in
  let '(_, cb2, n2) := call cb1 20 (counting (Threw (VOther "boom"))) 30 n1 in
  state cb2 = CIRCUIT_OPEN /\ shouldReset cb2 3000 = false /\ n2 = 2%nat /\
  call cb2 3000 (counting (Returned VNull)) 3001 n2
  = (Threw (TypeError "this.fallback is not a function"), cb2, n2) /\
  fallback_method cb2 = Threw SERVICE_UNAVAILABLE /\
  TypeError "this.fallback is not a function" <> SERVICE_UNAVAILABLE.
Proof.
  vm_compute. repeat split; discriminate.
Qed.

(** *** The state machine when calls do not overlap *)

(** A failure always records its time; it opens the breaker exactly when
    the incremented failure count has reached the threshold. *)
Lemma onFailure_spec (cb : t) (now : Z) :
  lastFailureTime (onFailure cb now) = Some now /\
  failureCount (onFailure cb now) = failureCount cb + 1 /\
  failureThreshold (onFailure cb now) = failureThreshold cb /\
  state (onFailure cb now)
  = if failureThreshold cb <=? failureCount cb + 1 then CIRCUIT_OPEN else state cb.
Proof.
  unfold onFailure. simpl.
  destruct (failureThreshold cb <=? failureCount cb + 1); simpl; auto.
Qed.

Lemma failing_calls_closed (e : jsval) (times : list (Z * Z)) :
  forall (cb : t) (n : nat),
    state cb = CIRCUIT_CLOSED ->
    failureCount cb + Z.of_nat (List.length times) <= failureThreshold cb ->
    let '(cb', n') := fold_left (failing_call e) times (cb, n) in
    n' = (n + List.length times)%nat /\
    failureCount cb' = failureCount cb + Z.of_nat (List.length times) /\
    failureThreshold cb' = failureThreshold cb /\
    state cb' = match times with
                | [] => CIRCUIT_CLOSED
                | _ => if failureThreshold cb <=? failureCount cb'
                       then CIRCUIT_OPEN else CIRCUIT_CLOSED
                end.
Proof.
  induction times as [|[now now'] rest IH]; intros cb n Hs Hc.
  - simpl. repeat split; auto; lia.
  - cbn [fold_left].
    assert (Hstep : failing_call e (cb, n) (now, now') = (onFailure cb now', S n)).
    { unfold failing_call, call, enter. cbn [fst snd]. rewrite Hs. simpl.
      rewrite Hs. reflexivity. }
    rewrite Hstep.
    cbn [List.length] in Hc. rewrite Nat2Z.inj_succ in Hc.
    destruct (onFailure_spec cb now') as (_ & Hc1 & Ht1 & Hs1).
    destruct rest as [|t2 rest'].
    + cbn [fold_left List.length]. rewrite Hc1, Ht1, Hs1, Hs.
      repeat split; auto; lia.
    + assert (Hclosed : state (onFailure cb now') = CIRCUIT_CLOSED).
      { rewrite Hs1, Hs. cbn [List.length] in Hc. rewrite Nat2Z.inj_succ in Hc.
        destruct (Z.leb_spec (failureThreshold cb) (failureCount cb + 1));
          [lia | reflexivity]. }
      specialize (IH (onFailure cb now') (S n) Hclosed).
      rewrite Hc1, Ht1 in IH.
      assert (Hle : failureCount cb + 1 + Z.of_nat (List.length (t2 :: rest'))
                    <= failureThreshold cb) by lia.
      specialize (IH Hle).
      destruct (fold_left (failing_call e) (t2 :: rest') (onFailure cb now', S n))
        as [cb' n'].
      destruct IH as (Hn & Hf & Ht & Hst).
      repeat split; auto.
      * rewrite Hn. cbn [List.length]. lia.
      * rewrite Hf. cbn [List.length]. lia.
  Qed.

(** From a closed breaker with no failure on record, [failureThreshold]
    calls in a row that all fail (each one invokes its thunk) leave the
    breaker open. *)
Lemma threshold_failures_open (e : jsval) (times : list (Z * Z)) (cb : t) :
  state cb = CIRCUIT_CLOSED -> failureCount cb = 0 ->
  1 <= failureThreshold cb ->
  Z.of_nat (List.length times) = failureThreshold cb ->
  let '(cb', n') := fold_left (failing_call e) times (cb, 0%nat) in
  state cb' = CIRCUIT_OPEN /\ n' = List.length times.
Proof.
  intros Hs Hc Ht Hlen.
  pose proof (failing_calls_closed e times cb 0%nat Hs) as H.
  rewrite Hc, Hlen in H. specialize (H ltac:(lia)).
  destruct (fold_left (failing_call e) times (cb, 0%nat)) as [cb' n'].
  destruct H as (Hn & Hf & _ & Hst). split; [|exact Hn].
  destruct times; [simpl in Hlen; lia|].
  rewrite Hst, Hf. destruct (Z.leb_spec (failureThreshold cb) (0 + failureThreshold cb)); [reflexivity | lia].
Qed.

(** A success while half-open closes the breaker and clears the failure
    count. *)
Lemma half_open_success (cb : t) :
  state cb = CIRCUIT_HALF_OPEN ->
  state (onSuccess cb) = CIRCUIT_CLOSED /\ failureCount (onSuccess cb) = 0
  /\ halfOpenRequestSent (onSuccess cb) = false.
Proof. unfold onSuccess. simpl. intros ->. simpl. auto. Qed.

Lemma tripped_new (a b : option Z) (f : fallback_value) : tripped (new a b f).
Proof. intros H. now elim H. Qed.

Lemma tripped_call {W : Type} (cb : t) (now now' : Z) (fn : W -> outcome * W)
      (w : W) :
  tripped cb -> tripped (snd (fst (call cb now fn now' w))).
Proof.
  unfold tripped, call, enter. intros Hinv.
  destruct (state cb) eqn:Hs; simpl.
  - rewrite Hs. destruct (fn w) as [[v|v] w1]; simpl.
    + unfold onSuccess; simpl. rewrite Hs. simpl. intros Hn; now elim Hn.
    + unfold onFailure; simpl.
      destruct (Z.leb_spec (failureThreshold cb) (failureCount cb + 1)); simpl; auto.
      rewrite Hs. intros Hn; now elim Hn.
  - destruct (shouldReset cb now); simpl; [|rewrite Hs; auto].
    destruct (fn w) as [[v|v] w1]; simpl.
    + intros Hn; now elim Hn.
    + unfold onFailure; simpl.
      assert (failureThreshold cb <= failureCount cb) by (apply Hinv; discriminate).
      destruct (Z.leb_spec (failureThreshold cb) (failureCount cb + 1)); simpl; lia.
  - rewrite Hs. destruct (halfOpenRequestSent cb) eqn:Hp; simpl; [rewrite Hs; auto|].
    destruct (fn w) as [[v|v] w1]; simpl.
    + unfold onSuccess; simpl. rewrite Hs. simpl. intros Hn; now elim Hn.
    + unfold onFailure; simpl.
      assert (failureThreshold cb <= failureCount cb) by (apply Hinv; discriminate).
      destruct (Z.leb_spec (failureThreshold cb) (failureCount cb + 1)); simpl; lia.
Qed.

(** Under that invariant a failed probe re-opens the breaker. *)
Lemma half_open_failure_tripped (cb : t) (now : Z) :
  tripped cb -> state cb = CIRCUIT_HALF_OPEN ->
  state (onFailure cb now) = CIRCUIT_OPEN /\
  lastFailureTime (onFailure cb now) = Some now.
Proof.
  intros Hinv Hs. destruct (onFailure_spec cb now) as (Hl & _ & _ & Hst).
  split; auto. rewrite Hst.
  assert (failureThreshold cb <= failureCount cb) by (apply Hinv; rewrite Hs; discriminate).
  destruct (Z.leb_spec (failureThreshold cb) (failureCount cb + 1)); [reflexivity | lia].
Qed.

(** C4 (the code departs from it). Threshold two, reset timeout one
    second. Three calls are admitted while the breaker is closed; two of
    them fail, which opens the breaker; the third then succeeds, which
    clears the failure count and leaves the breaker open. After the reset
    timeout the next call is admitted as the half-open probe. Its failure
    records the time and raises the count to one, below the threshold, so
    the state stays half-open with the probe marked as sent, and every
    later call is turned away. *)
Theorem probe_failure_stays_half_open :
  let cb0 := new (Some 2) (Some 1000) FallbackNull in
  let cb3 := run cb0 [Enter 0; Enter 1; Enter 2] in
  let cb6 := run cb3 [Failure 10; Failure 11; Success 12] in
  let probe := enter cb6 2000 in
  let cb8 := onFailure (snd probe) 2010 in
  (fst (enter cb0 0) = Allowed /\ cb3 = cb0) /\
  (state cb6 = CIRCUIT_OPEN /\ failureCount cb6 = 0) /\
  (fst probe = Allowed /\ state (snd probe) = CIRCUIT_HALF_OPEN /\
   halfOpenRequestSent (snd probe) = true) /\
  (state cb8 = CIRCUIT_HALF_OPEN /\ state cb8 <> CIRCUIT_OPEN /\
   lastFailureTime cb8 = Some 2010 /\ failureCount cb8 = 1) /\
  (forall now, enter cb8 now = (Rejected (this_fallback cb8), cb8)).
Proof.
  cbv zeta.
  split; [split; reflexivity|].
  split; [split; reflexivity|].
  split; [split; [|split]; reflexivity|].
  split; [split; [|split; [|split]]; (reflexivity || discriminate)|].
  intros now. apply enter_rejecting. right. split; reflexivity.
Qed.

End CircuitBreakerFacts.

(** ** Retry condition and error chain *)

Module RetryFacts.

(** C7, as amended. [defaultRetryCondition] is true exactly for network
    errors, timeout errors, and HTTP errors whose status is 408, 429 or
    500 and above (there is no upper bound); it is false for every other
    value. *)
Theorem defaultRetryCondition_iff (error : jsval) :
  defaultRetryCondition error = true <-> retried_by_default error.
Proof.
  destruct error as [| |e|r|tag]; simpl; try (split; [discriminate | tauto]).
  destruct e as [m status u h|m u|u t|n m]; simpl;
    try (split; [discriminate | tauto]); try tauto.
  rewrite !Bool.orb_true_iff, Z.leb_le, !Z.eqb_eq. tauto.
Qed.

(** C7, as stated, fails: an HTTP error with status 600 is retried,
    although 600 is neither 408, nor 429, nor within 500-599. *)
Lemma defaultRetryCondition_status_600 :
  let error := VError (HttpError "HTTP 600: " 600 "https://api.example.com/a"
                                 (Example.handle 600 EmptyString [] DataNull)) in
  defaultRetryCondition error = true /\ ~ Spec.retryable error.
Proof.
  split; [reflexivity|]. simpl. lia.
Qed.

(** *** The error chain *)

Lemma chain_snoc (interceptors : list interceptor) (fn : interceptor)
      (error : jsval) :
  callErrorInterceptors (interceptors ++ [fn]) error
  = error_turn (callErrorInterceptors interceptors error) fn.
Proof. unfold callErrorInterceptors. now rewrite fold_left_app. Qed.

(** The interceptor at position [n] is handed what the [n] interceptors
    before it have made of the error. *)
Lemma interceptor_input (interceptors : list interceptor) :
  forall (error : jsval) (n : nat),
    (n < List.length interceptors)%nat ->
    nth_error (interceptor_inputs interceptors error) n
    = Some (callErrorInterceptors (firstn n interceptors) error).
Proof.
  induction interceptors as [|fn rest IH]; intros error n Hn; simpl in Hn.
  - lia.
  - destruct n as [|n]; simpl; [reflexivity|].
    apply IH. lia.
Qed.

(** When the loop of [executeWithRetry] has at least one iteration to go and
    ends in a throw, what it throws is what the error chain makes of the
    error of some attempt. *)
Lemma retry_loop_throws (s : Grab.settings) (config : Config.t)
      (script : nat -> Grab.transport) :
  forall (remaining : nat) (attempt : Z) (lastError : jsval) (w w' : Grab.world)
         (e : jsval),
    attempt + Z.of_nat remaining = Grab.retryAttempts s ->
    Grab.retry_loop s config script (S remaining) attempt lastError w = (Threw e, w') ->
    exists n error called,
      Grab.executeHttpRequest s config (script n) = (Threw error, called) /\
      e = callErrorInterceptors (Grab.errorInterceptors s) error.
Proof.
  induction remaining as [|remaining IH]; intros attempt lastError w w' e Hn.
  - cbn [Grab.retry_loop].
    destruct (Grab.executeHttpRequest s config (script (Grab.dispatches w)))
      as [[v|error] called] eqn:Hreq; [discriminate|].
    unfold Grab.on_attempt_error.
    replace (attempt =? Grab.retryAttempts s) with true
      by (symmetry; apply Z.eqb_eq; lia).
    cbn [orb]. intros H. injection H as <- _.
    now exists (Grab.dispatches w), error, called.
  - remember (S remaining) as m eqn:Hm. cbn [Grab.retry_loop].
    destruct (Grab.executeHttpRequest s config (script (Grab.dispatches w)))
      as [[v|error] called] eqn:Hreq; [discriminate|].
    destruct (Grab.on_attempt_error s attempt error) as [finalError|delay] eqn:Hdec.
    + unfold Grab.on_attempt_error in Hdec.
      destruct ((attempt =? Grab.retryAttempts s)
                || negb (Grab.retryCondition s error))%bool; [|discriminate].
      injection Hdec as <-. intros H. injection H as <- _.
      now exists (Grab.dispatches w), error, called.
    + subst m. apply IH. lia.
Qed.

(** C8, as amended. The error interceptors run in registration order,
    each on what its predecessors have made of the error. A returned
    value other than [undefined] replaces the current error; a returned
    [undefined] leaves it; a thrown value replaces it too, and the chain
    goes on with the next interceptor. With at least one attempt
    configured, what [executeWithRetry] throws is what the chain has made of
    the error of an attempt, and the breaker's [call] rethrows it unchanged
    to the caller. *)
Theorem error_chain_outcome (s : Grab.settings) (config : Config.t)
        (script : nat -> Grab.transport) (w w' : Grab.world)
        (cb : CircuitBreaker.t) (now now' : Z) (e : jsval) :
  1 <= Grab.retryAttempts s ->
  Grab.executeWithRetry s config script w = (Threw e, w') ->
  (forall (error : jsval) (n : nat),
     (n < List.length (Grab.errorInterceptors s))%nat ->
     nth_error (interceptor_inputs (Grab.errorInterceptors s) error) n
     = Some (callErrorInterceptors (firstn n (Grab.errorInterceptors s)) error)) /\
  (forall (fn : interceptor) (current : jsval),
     match fn current with
     | Returned VUndefined => error_turn current fn = current
     | Returned result => error_turn current fn = result
     | Threw err => error_turn current fn = err
     end) /\
  (forall (interceptors : list interceptor) (fn : interceptor) (current : jsval),
     callErrorInterceptors (interceptors ++ [fn]) current
     = error_turn (callErrorInterceptors interceptors current) fn) /\
  (exists n error called,
     Grab.executeHttpRequest s config (script n) = (Threw error, called) /\
     e = callErrorInterceptors (Grab.errorInterceptors s) error) /\
  (fst (CircuitBreaker.enter cb now) = CircuitBreaker.Allowed ->
   fst (fst (CircuitBreaker.call cb now (Grab.executeWithRetry s config script) now' w))
   = Threw e).
Proof.
  intros Hone Hrun.
  split; [intros error n Hn; now apply interceptor_input|].
  split.
  { intros fn current. unfold error_turn.
    destruct (fn current) as [v|v]; [destruct v|]; reflexivity. }
  split; [intros; apply chain_snoc|].
  split.
  { unfold Grab.executeWithRetry in Hrun.
    destruct (Z.to_nat (Grab.retryAttempts s)) as [|remaining] eqn:Hn; [lia|].
    apply (retry_loop_throws s config script remaining 1 VUndefined w w' e); [lia|].
    exact Hrun. }
  intros Hgate. unfold CircuitBreaker.call.
  destruct (CircuitBreaker.enter cb now) as [g cb1]. simpl in Hgate. subst g.
  rewrite Hrun. reflexivity.
Qed.

(** A request that the server answers with 404, on a client with a single
    attempt and two error interceptors, the first of which throws. *)
Lemma error_chain_outcome_witness :
  fst (fst (CircuitBreaker.call
              (CircuitBreaker.new None None CircuitBreaker.FallbackNull) 0
              (Grab.executeWithRetry
                 (Example.settings 1 [Example.thrower; Example.replacer])
                 (Example.request "/a" None)
                 (fun _ => Example.answers (Example.handle 404 "Not Found" [] DataNull)))
              10 Example.world0))
  = Threw (VError (PlainError "Error" "second")).
Proof.
  pose proof
    (error_chain_outcome
       (Example.settings 1 [Example.thrower; Example.replacer])
       (Example.request "/a" None)
       (fun _ => Example.answers (Example.handle 404 "Not Found" [] DataNull))
       Example.world0 _
       (CircuitBreaker.new None None CircuitBreaker.FallbackNull) 0 10
       _ ltac:(discriminate) eq_refl) as H.
  exact (proj2 (proj2 (proj2 (proj2 H))) eq_refl).
Defined.

(** C8, as stated, fails: a value thrown by an interceptor does not leave
    the chain; the next interceptor is run on it, and what that one
    returns is the outcome. *)
Lemma thrown_value_is_replaced :
  let error := VError (NetworkError "down" "https://api.example.com/a") in
  callErrorInterceptors [Example.thrower; Example.replacer] error
  = VError (PlainError "Error" "second") /\
  Spec.error_chain [Example.thrower; Example.replacer] error = VError (PlainError "Error" "first") /\
  interceptor_inputs [Example.thrower; Example.replacer] error
  = [error; VError (PlainError "Error" "first")] /\
  callErrorInterceptors [Example.thrower; Example.replacer] error
  <> Spec.error_chain [Example.thrower; Example.replacer] error.
Proof.
  cbv zeta. split; [reflexivity|]. split; [reflexivity|]. split; [reflexivity|].
  discriminate.
Qed.

(** *** The retry loop against a transport that always fails *)

Lemma retry_loop_always_failing (s : Grab.settings) (config : Config.t)
      (script : nat -> Grab.transport) :
  Grab.always_failing s config script ->
  forall (remaining : nat) (attempt : Z) (lastError : jsval) (w : Grab.world),
    attempt + Z.of_nat remaining = Grab.retryAttempts s + 1 ->
    exists e w',
      Grab.retry_loop s config script remaining attempt lastError w = (Threw e, w') /\
      Grab.dispatches w' = (Grab.dispatches w + remaining)%nat /\
      Grab.attempts w' = (Grab.attempts w + remaining)%nat /\
      List.length (Grab.slept w')
      = (List.length (Grab.slept w) + Nat.pred remaining)%nat.
Proof.
  intros Hfail. induction remaining as [|remaining IH]; intros attempt lastError w Hn.
  - exists lastError, w. simpl. repeat split; lia.
  - destruct (Hfail (Grab.dispatches w)) as (error & Hreq & Hcond).
    cbn [Grab.retry_loop]. rewrite Hreq. unfold Grab.on_attempt_error.
    rewrite Hcond. cbn [negb].
    destruct (Z.eqb_spec attempt (Grab.retryAttempts s)) as [Hlast|Hmore]; cbn [orb].
    + assert (remaining = 0%nat) by lia. subst remaining.
      eexists _, _. split; [reflexivity|]. simpl. repeat split; lia.
    + destruct (IH (attempt + 1) error
                   (Grab.mkWorld (S (Grab.attempts w)) (S (Grab.dispatches w))
                                 (Grab.slept w ++ [Grab.retry_after s error
                                    match Grab.retryDelay s with
                                    | Grab.DelayFunction f => f attempt
                                    | Grab.DelayConstant ms => ms
                                    end])))
        as (e & w' & Hrun & Hd & Ha & Hs); [lia|].
      exists e, w'. split; [exact Hrun|].
      cbn [Grab.dispatches Grab.attempts Grab.slept] in Hd, Ha, Hs.
      rewrite length_app in Hs. cbn [List.length] in Hs.
      repeat split; try lia.
Qed.

Lemma normalizeRetryAttempts_range (a : option Z) :
  0 <= normalizeRetryAttempts a <= 10.
Proof.
  unfold normalizeRetryAttempts, JsNumber.clamp.
  destruct a as [a|]; [destruct (0 <=? a)|]; lia.
Qed.

(** C6. With [retryAttempts] the normalized number of attempts (between 0
    and 10), [executeWithRetry] on a request whose every transport call
    fails with a retryable error calls the transport exactly
    [retryAttempts] times, sleeping between two calls, and then throws. *)
Theorem always_failing_dispatch_count (s : Grab.settings) (config : Config.t)
        (script : nat -> Grab.transport) (w : Grab.world) (requested : option Z) :
  Grab.retryAttempts s = normalizeRetryAttempts requested ->
  Grab.always_failing s config script ->
  0 <= Grab.retryAttempts s <= 10 /\
  exists e w',
    Grab.executeWithRetry s config script w = (Threw e, w') /\
    Z.of_nat (Grab.dispatches w') = Z.of_nat (Grab.dispatches w) + Grab.retryAttempts s /\
    Z.of_nat (Grab.attempts w') = Z.of_nat (Grab.attempts w) + Grab.retryAttempts s.
Proof.
  intros Hnorm Hfail.
  pose proof (normalizeRetryAttempts_range requested) as Hrange.
  rewrite <- Hnorm in Hrange. split; [exact Hrange|].
  destruct (retry_loop_always_failing s config script Hfail
              (Z.to_nat (Grab.retryAttempts s)) 1 VUndefined w)
    as (e & w' & Hrun & Hd & Ha & _); [lia|].
  exists e, w'. split; [exact Hrun|]. lia.
Qed.

(** The server always answers 503; three attempts are configured. *)
Lemma always_failing_dispatch_count_witness :
  exists e w',
    Grab.executeWithRetry (Example.settings 3 []) (Example.request "/a" None)
      (fun _ => Example.answers (Example.handle 503 "Service Unavailable" [] DataNull))
      Example.world0 = (Threw e, w') /\
    Grab.dispatches w' = 3%nat.
Proof.
  destruct (always_failing_dispatch_count
              (Example.settings 3 []) (Example.request "/a" None)
              (fun _ => Example.answers (Example.handle 503 "Service Unavailable" [] DataNull))
              Example.world0 (Some 3) eq_refl
              (fun _ => ex_intro _ _ (conj eq_refl eq_refl)))
    as (_ & e & w' & Hrun & Hd & _).
  exists e, w'. split; [exact Hrun|].
  apply Nat2Z.inj. exact Hd.
Defined.

End RetryFacts.

(** ** The single-request operation and the cacheable path *)

Module PipelineFacts.

Lemma translate_kinds (p : Grab.prepared) (error : jsval) :
  Grab.client_error (Grab.translate p error).
Proof.
  destruct error as [| |e|r|tag]; simpl; auto.
  destruct (String.eqb (error_name e) "AbortError"); simpl; auto.
  destruct e; simpl; auto.
Qed.

Lemma prepare_inl (s : Grab.settings) (config : Config.t) (p : Grab.prepared) :
  Grab.prepare s config = inl p ->
  Grab.p_timeout p = or_default (Config.timeout config) (Grab.timeout s) /\
  (exists resolved, Grab.resolveUrl s (Config.url config) = inl resolved /\
                    Grab.p_url p = Grab.buildUrl resolved (Config.params config)) /\
  Grab.p_aborted p = match Config.signal config with
                     | Some sg => aborted sg
                     | None => false
                     end.
Proof.
  unfold Grab.prepare.
  destruct (Grab.resolveUrl s (Config.url config)) as [resolved|e]; [|discriminate].
  destruct (Grab.buildFetchOptions s config) as [options|e]; [|discriminate].
  intros H. injection H as <-. simpl. repeat split. now exists resolved.
Qed.

(** C9. Once the request is built and the transport called, an abort of the
    call (the caller's signal aborted on entry, or firing first, or the
    timeout timer firing first, the call not having settled before) makes
    [executeHttpRequest] throw a [TimeoutError] that carries the final URL
    (the resolved URL with its query) and the timeout in force
    ([config.timeout || this.timeout]). Whatever the transport does, what
    [executeHttpRequest] throws after calling it is a [TimeoutError], an
    [HttpError], a [NetworkError] or a [TypeError]: there is no cancellation
    error of its own kind. *)
Theorem abort_surfaces_as_timeout (s : Grab.settings) (config : Config.t)
        (tr : Grab.transport) (p : Grab.prepared) :
  Grab.prepare s config = inl p ->
  Grab.aborts tr p (Config.signal config) = true ->
  Grab.executeHttpRequest s config tr
  = (Threw (VError (TimeoutError (Grab.p_url p) (Grab.p_timeout p))), true) /\
  Grab.p_timeout p = or_default (Config.timeout config) (Grab.timeout s) /\
  (exists resolved, Grab.resolveUrl s (Config.url config) = inl resolved /\
                    Grab.p_url p = Grab.buildUrl resolved (Config.params config)) /\
  (forall (tr' : Grab.transport) (v : jsval),
     Grab.executeHttpRequest s config tr' = (Threw v, true) -> Grab.client_error v).
Proof.
  intros Hprep Habort.
  destruct (prepare_inl s config p Hprep) as (Htimeout & Hurl & _).
  split; [|split; [exact Htimeout | split; [exact Hurl|]]].
  - unfold Grab.executeHttpRequest. rewrite Hprep.
    unfold Grab.await_fetch. rewrite Habort. reflexivity.
  - intros tr' v. unfold Grab.executeHttpRequest. rewrite Hprep.
    unfold Grab.complete.
    destruct (Grab.await_fetch tr' p (Config.signal config)) as [h|error].
    + destruct (Grab.buildResponse s h _ (Grab.p_url p)) as [r|error];
        [discriminate|].
      intros H. injection H as <-. apply translate_kinds.
    + intros H. injection H as <-. apply translate_kinds.
Qed.

(** The three ways to an abort: a signal aborted on entry (the transport
    would have answered); a signal that fires after 20 ms on a transport
    that never settles; the timer alone on a transport that never
    settles. *)
Lemma abort_surfaces_as_timeout_witness :
  let s := Example.settings 3 [] in
  let timeout_error :=
    Threw (VError (TimeoutError "https://api.example.com/slow" 30000)) in
  Grab.executeHttpRequest s
    (Example.request "/slow" (Some (mkSignal true None)))
    (Example.answers (Example.handle 200 "OK" [] DataNull)) = (timeout_error, true) /\
  Grab.executeHttpRequest s
    (Example.request "/slow" (Some (mkSignal false (Some 20))))
    Example.hangs = (timeout_error, true) /\
  Grab.executeHttpRequest s (Example.request "/slow" None) Example.hangs
  = (timeout_error, true).
Proof.
  cbv zeta. split; [|split].
  - exact (proj1 (abort_surfaces_as_timeout
                    (Example.settings 3 [])
                    (Example.request "/slow" (Some (mkSignal true None)))
                    (Example.answers (Example.handle 200 "OK" [] DataNull))
                    _ eq_refl eq_refl)).
  - exact (proj1 (abort_surfaces_as_timeout
                    (Example.settings 3 [])
                    (Example.request "/slow" (Some (mkSignal false (Some 20))))
                    Example.hangs _ eq_refl eq_refl)).
  - exact (proj1 (abort_surfaces_as_timeout
                    (Example.settings 3 [])
                    (Example.request "/slow" None)
                    Example.hangs _ eq_refl eq_refl)).
Defined.

(** Once the transport call has resolved, the body is still to be read.
    A reader that rejects with an [AbortError] is translated in the same
    way; but in the auto-detect branch of [parseResponse] the rejection of
    [json()] is swallowed by the fallback to [text()], and it is the
    failure of [text()] that is translated. *)
Lemma abort_while_decoding :
  let s := Example.settings 3 [] in
  let config := Example.request "/a" None in
  let abort := mkPlatformError "AbortError" "The operation was aborted" in
  let unusable := mkPlatformError "TypeError" "Body is unusable" in
  let h (contentType : string) :=
    Handle.mk true 200 "OK" [("content-type", contentType)]
              "https://api.example.com/a"
              (DecodeRejects abort) (DecodeRejects unusable)
              (DecodeRejects abort) (DecodeRejects abort) DataNull in
  forall p, Grab.prepare s config = inl p ->
    Grab.complete s config p (Grab.FetchResolves (h "application/json"))
    = Threw (VError (TimeoutError "https://api.example.com/a" 30000)) /\
    Grab.complete s config p (Grab.FetchResolves (h "application/octet-stream"))
    = Threw (VError (NetworkError "Body is unusable" "https://api.example.com/a")).
Proof.
  intros s config abort unusable h p Hp. vm_compute in Hp.
  injection Hp as <-. split; reflexivity.
Qed.

(** *** A 304 for a fingerprint that has no entry *)

(** C10. When the transport answers 304 and the cache holds no entry for
    the fingerprint, [buildResponse] yields the descriptor [{ok: true,
    status: 304, data: null}]; the [then] callback of [cacheableRequest]
    finds nothing to refresh, stores that descriptor under the fingerprint
    with the default TTL and the [ETag] header of the response (indexing
    the ETag when there is one), and hands the same descriptor to the
    caller. Until the entry expires, [get] serves it: [data = null],
    [fromCache = true]. *)
Theorem not_modified_without_entry (s : Grab.settings) (h : HttpCache.t)
        (cacheKey : string) (response : Handle.t)
        (responseType originalUrl : string) (now : Z) :
  Handle.status response = 304 ->
  JsMap.get cacheKey (HttpCache.cache h) = None ->
  exists r h',
    Grab.buildResponse s response responseType originalUrl = inl r /\
    (Resp.ok r = true /\ Resp.status r = 304 /\ Resp.data r = DataNull) /\
    Grab.then_callback h cacheKey (VResponse r) now = (Returned (VResponse r), h') /\
    JsMap.get cacheKey (HttpCache.cache h')
    = Some (HttpCache.mkEntry r (now + HttpCache.ttl h)
                              (Headers.get (Handle.headers response) "etag")) /\
    (forall tag, Headers.get (Handle.headers response) "etag" = Some tag ->
                 JsString.truthy tag = true ->
                 HttpCache.get_etag h' cacheKey = Some tag) /\
    (forall now', now' <= now + HttpCache.ttl h ->
       exists r', fst (HttpCache.get h' cacheKey now') = Some r' /\
                  Resp.data r' = DataNull /\ Resp.fromCache r' = Some true).
Proof.
  intros Hstatus Hnone.
  set (r := Resp.mk true 304 "Not Modified" (Handle.headers response)
                    (Handle.url response) DataNull FieldAbsent None).
  exists r, (HttpCache.set h cacheKey r None
                           (Headers.get (Handle.headers response) "etag") now).
  split; [unfold Grab.buildResponse; now rewrite Hstatus|].
  split; [repeat split|].
  split.
  { unfold Grab.then_callback, Grab.status_of. cbn [Resp.status r Z.eqb Pos.eqb].
    unfold HttpCache.refresh, HttpCache.get. rewrite Hnone. cbn [HttpCache.cache].
    rewrite Hnone. reflexivity. }
  split; [apply HttpCacheFacts.set_records|].
  split.
  { intros tag Htag Htruthy. rewrite Htag.
    now apply HttpCacheFacts.set_indexes_etag. }
  intros now' Htime. eexists. split.
  - apply HttpCacheFacts.get_after_set. exact Htime.
  - split; reflexivity.
Qed.

(** A 304 with an ETag, on an empty cache. *)
Lemma not_modified_without_entry_witness :
  let h := HttpCache.new None None None in
  let response := Example.handle 304 "Not Modified" [("etag", "v1")] DataNull in
  exists r h',
    Grab.then_callback h "k" (VResponse r) 1000 = (Returned (VResponse r), h') /\
    Resp.data r = DataNull /\
    HttpCache.get_etag h' "k" = Some "v1" /\
    exists r', fst (HttpCache.get h' "k" 2000) = Some r' /\
               Resp.data r' = DataNull /\ Resp.fromCache r' = Some true.
Proof.
  intros h response.
  destruct (not_modified_without_entry
              (Example.settings 3 []) h "k" response "auto"
              "https://api.example.com/a" 1000 eq_refl eq_refl)
    as (r & h' & _ & (_ & _ & Hdata) & Hthen & _ & Htag & Hget).
  exists r, h'. split; [exact Hthen|]. split; [exact Hdata|].
  split; [exact (Htag "v1" eq_refl eq_refl)|].
  apply (Hget 2000). vm_compute. discriminate.
Defined.

(** *** Requests that find their fingerprint in flight *)

Lemma with_cache_same (c : Grab.client) : Grab.with_cache c (Grab.cache c) = c.
Proof. now destruct c. Qed.

(** A request whose fingerprint is memoised and registered in flight joins
    the registered promise and leaves the client as it is. *)
Lemma request_joins (s : Grab.settings) (c : Grab.client) (config : Config.t)
      (now : Z) (url cacheKey : string) (promise : nat) :
  Grab.resolveUrl s (Config.url config) = inl url ->
  HttpCache.memoised (Grab.cache c) cacheKey "GET" url (Config.params config)
                          (Config.headers config) ->
  HttpCache.getPending (Grab.cache c) cacheKey = Some promise ->
  Grab.cacheableRequest s c config now = (Grab.Joins promise, c).
Proof.
  intros Hurl Hmemo Hpending. unfold Grab.cacheableRequest. rewrite Hurl.
  rewrite (HttpCacheFacts.key_memoised _ _ _ _ _ _ Hmemo), Hpending.
  now rewrite with_cache_same.
Qed.

Lemma start_attempt_called (s : Grab.settings) (config : Config.t) (attempt : Z)
      (lastError : jsval) :
  snd (Grab.start_attempt s config attempt lastError)
  = Grab.awaiting (fst (Grab.start_attempt s config attempt lastError)).
Proof.
  unfold Grab.start_attempt, Grab.after_error.
  destruct (Grab.retryAttempts s <? attempt); [reflexivity|].
  destruct (Grab.prepare s config) as [p|error]; [reflexivity|].
  now destruct (Grab.on_attempt_error s attempt error).
Qed.

(** What a request that starts a pipeline leaves behind: its fingerprint
    memoised and registered under the new promise, and a new pipeline, which
    has called the transport once if it is awaiting it and not at all
    otherwise. *)
Lemma request_starts (s : Grab.settings) (c c1 : Grab.client) (config : Config.t)
      (now : Z) (promise : nat) :
  Grab.cacheableRequest s c config now = (Grab.Starts promise, c1) ->
  exists url cacheKey ph,
    Grab.resolveUrl s (Config.url config) = inl url /\
    HttpCache.memoised (Grab.cache c1) cacheKey "GET" url (Config.params config)
                            (Config.headers config) /\
    HttpCache.getPending (Grab.cache c1) cacheKey = Some promise /\
    Grab.tasks c1 = (promise, Grab.mkTask cacheKey ph) :: Grab.tasks c /\
    Grab.transport_calls c1
    = (if Grab.awaiting ph then S (Grab.transport_calls c) else Grab.transport_calls c).
Proof.
  unfold Grab.cacheableRequest.
  destruct (Grab.resolveUrl s (Config.url config)) as [url|e]; [|discriminate].
  pose proof (HttpCacheFacts.key_memoises (Grab.cache c) "GET" url
                (Config.params config) (Config.headers config)) as Hmemo.
  destruct (HttpCache.key (Grab.cache c) "GET" url (Config.params config)
                          (Config.headers config)) as [cacheKey cache1].
  cbn [fst snd] in Hmemo.
  destruct (HttpCache.getPending cache1 cacheKey); [discriminate|].
  pose proof (HttpCacheFacts.authCache_get cache1 cacheKey now) as Hsame.
  destruct (HttpCache.get cache1 cacheKey now) as [cached cache2].
  cbn [snd] in Hsame.
  destruct cached; [discriminate|].
  destruct (CircuitBreaker.enter (Grab.circuitBreaker c) now) as [g breaker1].
  match goal with
  | |- context [let (ph, called) := ?x in _] =>
      assert (Hcalled : snd x = Grab.awaiting (fst x))
        by (destruct g; [reflexivity | apply start_attempt_called]);
      destruct x as [ph called]
  end.
  cbn [fst snd] in Hcalled. subst called.
  intros H. injection H as <- <-.
  exists url, cacheKey, ph. split; [reflexivity|]. split; [|split; [|split]].
  - apply (HttpCacheFacts.memoised_same_memo cache1); [exact Hsame | exact Hmemo].
  - unfold HttpCache.getPending, HttpCache.track. simpl.
    apply JsMapFacts.get_set_eq.
  - reflexivity.
  - reflexivity.
Qed.

Lemma run_app (s : Grab.settings) (t1 t2 : list Grab.event) :
  forall c : Grab.client,
    Grab.run s c (t1 ++ t2)%list
    = (fst (Grab.run s (fst (Grab.run s c t1)) t2),
       (snd (Grab.run s c t1) ++ snd (Grab.run s (fst (Grab.run s c t1)) t2))%list).
Proof.
  induction t1 as [|e t1 IH]; intros c.
  - simpl. now destruct (Grab.run s c t2).
  - cbn [app Grab.run]. destruct (Grab.step s c e) as [c1 r]. rewrite IH.
    destruct (Grab.run s c1 t1) as [c2 replies]. cbn [fst snd].
    destruct r; reflexivity.
Qed.

(** A pipeline that awaits its transport call, and whose call then
    succeeds, settles its promise without a further transport call and
    gives up its place in the in-flight registry. *)
Lemma success_settles (s : Grab.settings) (c1 : Grab.client) (promise : nat)
      (k : string) (attempt : Z) (config1 : Config.t) (p : Grab.prepared)
      (rest : list (nat * Grab.task)) (fo : Grab.fetch_outcome) (v : jsval)
      (now' : Z) :
  Grab.tasks c1 = (promise, Grab.mkTask k (Grab.AwaitingTransport attempt config1 p)) :: rest ->
  Grab.complete s config1 p fo = Returned v ->
  exists c2 r,
    Grab.run s c1 [Grab.TransportSettles promise fo; Grab.PromiseSettles promise now']
    = (c2, []) /\
    Grab.transport_calls c2 = Grab.transport_calls c1 /\
    Grab.find_result promise (Grab.results c2) = Some r /\
    HttpCache.getPending (Grab.cache c2) k = None.
Proof.
  intros Htasks Hcomplete.
  cbn [Grab.run Grab.step]. rewrite Htasks. cbn [Grab.find_task].
  rewrite Nat.eqb_refl, Hcomplete.
  cbn [Grab.tasks Grab.set_phase map fst snd Grab.t_key Grab.find_task].
  rewrite Nat.eqb_refl. cbn [Grab.find_task]. rewrite Nat.eqb_refl.
  unfold Grab.finish. cbn [Grab.t_phase Grab.t_key CircuitBreaker.settle
                           Grab.circuitBreaker Grab.cache].
  destruct (Grab.then_callback (Grab.cache c1) k v now') as [r1 h1].
  eexists _, r1. split; [reflexivity|].
  cbn [Grab.transport_calls Grab.results Grab.find_result Grab.cache].
  rewrite Nat.eqb_refl. repeat split.
  unfold HttpCache.getPending, HttpCache.untrack. simpl.
  apply JsMapFacts.get_delete_eq.
Qed.

Lemma requests_join (s : Grab.settings) (c : Grab.client) (config : Config.t)
      (promise : nat) :
  (forall now, Grab.cacheableRequest s c config now = (Grab.Joins promise, c)) ->
  forall nows,
    Grab.run s c (map (Grab.Request config) nows)
    = (c, map (fun _ => Grab.Joins promise) nows).
Proof.
  intros Hjoin. induction nows as [|now nows IH]; [reflexivity|].
  cbn [map Grab.run Grab.step]. rewrite Hjoin, IH. reflexivity.
Qed.

(** C3. A [cacheableRequest] whose fingerprint has an entry in the in-flight
    registry returns the registered promise (so it ends as that promise
    ends), and does not touch the breaker, start a pipeline or call the
    transport: only the auth memo of the cache may change. Hence, after a
    request that has started a pipeline, any number of further requests with
    the same descriptor made while it is in flight join its promise and
    leave the client as it is; and when the pipeline has called the
    transport and that call succeeds, the transport has been called exactly
    once for all of them, the promise they share is settled, and the
    fingerprint has left the registry. *)
Theorem in_flight_requests_join (s : Grab.settings) (c : Grab.client)
        (config : Config.t) (now : Z) :
  (forall url cacheKey cache1 promise,
     Grab.resolveUrl s (Config.url config) = inl url ->
     HttpCache.key (Grab.cache c) "GET" url (Config.params config)
                   (Config.headers config) = (cacheKey, cache1) ->
     HttpCache.getPending (Grab.cache c) cacheKey = Some promise ->
     Grab.cacheableRequest s c config now
     = (Grab.Joins promise, Grab.with_cache c cache1) /\
     Grab.circuitBreaker (Grab.with_cache c cache1) = Grab.circuitBreaker c /\
     Grab.tasks (Grab.with_cache c cache1) = Grab.tasks c /\
     Grab.transport_calls (Grab.with_cache c cache1) = Grab.transport_calls c /\
     HttpCache.cache cache1 = HttpCache.cache (Grab.cache c) /\
     HttpCache.pending cache1 = HttpCache.pending (Grab.cache c) /\
     forall later, Grab.outcome_of later (Grab.Joins promise)
                   = Grab.find_result promise (Grab.results later)) /\
  (forall promise c1,
     Grab.cacheableRequest s c config now = (Grab.Starts promise, c1) ->
     (forall nows,
        Grab.run s c1 (map (Grab.Request config) nows)
        = (c1, map (fun _ => Grab.Joins promise) nows)) /\
     (forall nows k attempt config1 p fo v now',
        Grab.tasks c1
        = (promise, Grab.mkTask k (Grab.AwaitingTransport attempt config1 p))
            :: Grab.tasks c ->
        Grab.complete s config1 p fo = Returned v ->
        exists c2 r,
          Grab.run s c1 (map (Grab.Request config) nows
                           ++ [Grab.TransportSettles promise fo;
                               Grab.PromiseSettles promise now'])%list
          = (c2, map (fun _ => Grab.Joins promise) nows) /\
          Grab.transport_calls c2 = S (Grab.transport_calls c) /\
          HttpCache.getPending (Grab.cache c2) k = None /\
          Forall (fun reply => Grab.outcome_of c2 reply = Some r)
                 (Grab.Starts promise :: map (fun _ => Grab.Joins promise) nows))).
Proof.
  split.
  - intros url cacheKey cache1 promise Hurl Hkey Hpending.
    pose proof (HttpCacheFacts.key_frame (Grab.cache c) "GET" url
                  (Config.params config) (Config.headers config)) as Hframe.
    rewrite Hkey in Hframe. cbn [snd] in Hframe.
    destruct Hframe as (Hcache & Hpend & _).
    split; [|repeat split; auto].
    unfold Grab.cacheableRequest. rewrite Hurl, Hkey.
    unfold HttpCache.getPending in *. rewrite Hpend, Hpending. reflexivity.
  - intros promise c1 Hstart.
    destruct (request_starts s c c1 config now promise Hstart)
      as (url & cacheKey & ph & Hurl & Hmemo & Hpending & Htasks & Hcalls).
    assert (Hjoin : forall nows,
               Grab.run s c1 (map (Grab.Request config) nows)
               = (c1, map (fun _ => Grab.Joins promise) nows)).
    { apply requests_join. intros now0.
      now apply (request_joins s c1 config now0 url cacheKey promise). }
    split; [exact Hjoin|].
    intros nows k attempt config1 p fo v now' Hawait Hcomplete.
    rewrite Htasks in Hawait. injection Hawait as Hk Hph. subst ph.
    cbn [Grab.awaiting] in Hcalls.
    destruct (success_settles s c1 promise cacheKey attempt config1 p (Grab.tasks c)
                              fo v now' Htasks Hcomplete)
      as (c2 & r & Hrun & Hsame & Hresult & Hgone).
    exists c2, r. rewrite run_app, Hjoin. cbn [fst snd]. rewrite Hrun. cbn [fst snd].
    rewrite app_nil_r. split; [reflexivity|]. split; [lia|]. split; [now subst k|].
    constructor; [exact Hresult|].
    apply Forall_forall. intros reply Hin. apply in_map_iff in Hin.
    destruct Hin as (x & <- & _). exact Hresult.
Qed.

(** Ten requests for the same URL on a fresh client, the first of which
    starts the pipeline; then the transport answers 200. *)
Lemma in_flight_requests_join_witness :
  let s := Example.settings 3 [] in
  let c := Grab.fresh (HttpCache.new None None None)
                      (CircuitBreaker.new None None CircuitBreaker.FallbackNull) in
  let config := Example.request "/b" None in
  let c1 := snd (Grab.cacheableRequest s c config 0) in
  let ok200 :=
    Grab.FetchResolves
      (Example.handle 200 "OK" [("content-type", "application/json")]
                      (DataJson "{}")) in
  fst (Grab.cacheableRequest s c1 config 5) = Grab.Joins 0 /\
  exists c2 r,
    Grab.run s c1 (map (Grab.Request config) [1; 2; 3; 4; 5; 6; 7; 8; 9]
                     ++ [Grab.TransportSettles 0 ok200; Grab.PromiseSettles 0 20])%list
    = (c2, map (fun _ => Grab.Joins 0%nat) [1; 2; 3; 4; 5; 6; 7; 8; 9]) /\
    Grab.transport_calls c2 = 1%nat /\
    Forall (fun reply => Grab.outcome_of c2 reply = Some r)
           (Grab.Starts 0 :: map (fun _ => Grab.Joins 0%nat) [1; 2; 3; 4; 5; 6; 7; 8; 9]).
Proof.
  intros s c config c1 ok200. split.
  - destruct (in_flight_requests_join s c1 config 5) as (Hjoin & _).
    destruct (Hjoin "https://api.example.com/b" _ _ 0%nat eq_refl eq_refl eq_refl)
      as (Hreply & _).
    rewrite Hreply. reflexivity.
  - destruct (in_flight_requests_join s c config 0) as (_ & Hstart).
    destruct (Hstart 0%nat c1 eq_refl) as (_ & Honce).
    destruct (Honce [1; 2; 3; 4; 5; 6; 7; 8; 9] _ _ _ _ ok200 _ 20 eq_refl eq_refl)
      as (c2 & r & Hrun & Hcalls & _ & Hall).
    exists c2, r. split; [exact Hrun|]. split; [exact Hcalls | exact Hall].
Defined.

(** *** What the shared auth memo does to the cacheable path *)

(** The request of one principal is answered and cached; the same request
    with the credential of another principal is then served the first
    principal's response from the cache, and the transport is not called
    for it. Made while the first is in flight, it joins the first one's
    promise. *)
Lemma second_credential_served_first_response :
  let s := Example.settings 3 [] in
  let c := Grab.fresh (HttpCache.new None None None)
                      (CircuitBreaker.new None None CircuitBreaker.FallbackNull) in
  let as_A := Config.with_headers (Example.request "/d" None)
                                  [("Authorization", "Bearer A")] in
  let as_B := Config.with_headers (Example.request "/d" None)
                                  [("Authorization", "Bearer B")] in
  let for_A :=
    Grab.FetchResolves
      (Example.handle 200 "OK" [("content-type", "application/json")]
                      (DataJson "{owner:A}")) in
  (exists c' r,
     Grab.run s c [Grab.Request as_A 0; Grab.TransportSettles 0 for_A;
                   Grab.PromiseSettles 0 10; Grab.Request as_B 20]
     = (c', [Grab.Starts 0; Grab.Answers (Returned (VResponse r))]) /\
     Resp.data r = DataJson "{owner:A}" /\ Resp.fromCache r = Some true /\
     Grab.transport_calls c' = 1%nat) /\
  snd (Grab.run s c [Grab.Request as_A 0; Grab.Request as_B 1])
  = [Grab.Starts 0; Grab.Joins 0].
Proof.
  cbv zeta. split; [|vm_compute; reflexivity].
  eexists _, _. split; [vm_compute; reflexivity|].
  repeat split.
Qed.

End PipelineFacts.

(** ** Order and size of the ordered maps *)

Module JsMapOrder.

Import JsMap.

Section Ordered.

Context {V : Type}.

Lemma get_in_keys (k : string) (m : JsMap.t V) :
  get k m <> None <-> In k (keys m).
Proof.
  induction m as [|[k0 v0] r IH]; simpl.
  - split; [intros H; now elim H | tauto].
  - destruct (String.eqb_spec k0 k) as [->|Hne].
    + split; [now left | discriminate].
    + rewrite IH. split; [now right | intros [H|H]; [contradiction | exact H]].
Qed.

Lemma has_in_keys (k : string) (m : JsMap.t V) :
  has k m = true <-> In k (keys m).
Proof.
  rewrite <- get_in_keys. unfold has.
  destruct (get k m); split; congruence.
Qed.

Lemma length_set (k : string) (v : V) (m : JsMap.t V) :
  List.length (set k v m)
  = if has k m then List.length m else S (List.length m).
Proof.
  unfold has. induction m as [|[k0 v0] r IH]; simpl; [reflexivity|].
  destruct (String.eqb k0 k); simpl; [reflexivity|].
  rewrite IH. now destruct (get k r).
Qed.

Lemma length_delete_le (k : string) (m : JsMap.t V) :
  (List.length (delete k m) <= List.length m)%nat.
Proof. apply filter_length_le. Qed.

Lemma length_delete_lt (k : string) (m : JsMap.t V) :
  has k m = true -> (List.length (delete k m) < List.length m)%nat.
Proof.
  unfold has, delete. induction m as [|[k0 v0] r IH]; simpl; [discriminate|].
  destruct (String.eqb k0 k); simpl.
  - intros _. pose proof (filter_length_le (fun kv => negb (String.eqb (fst kv) k)) r).
    lia.
  - intros H. specialize (IH H). lia.
Qed.

Lemma has_delete (k : string) (m : JsMap.t V) : has k (delete k m) = false.
Proof. unfold has. now rewrite JsMapFacts.get_delete_eq. Qed.

Lemma first_key_has (k : string) (m : JsMap.t V) :
  first_key m = Some k -> has k m = true.
Proof.
  destruct m as [|[k0 v0] r]; simpl; [discriminate|].
  intros H. injection H as ->. unfold has. simpl. now rewrite String.eqb_refl.
Qed.

(** Setting a key that is absent appends it. *)
Lemma set_absent (k : string) (v : V) (m : JsMap.t V) :
  get k m = None -> set k v m = (m ++ [(k, v)])%list.
Proof.
  induction m as [|[k0 v0] r IH]; simpl; [reflexivity|].
  destruct (String.eqb k0 k); [discriminate|].
  intros H. now rewrite IH.
Qed.

(** Setting a key that is present leaves the order of the keys. *)
Lemma keys_set_present (k : string) (v : V) (m : JsMap.t V) :
  get k m <> None -> keys (set k v m) = keys m.
Proof.
  unfold keys. induction m as [|[k0 v0] r IH]; simpl; [intros H; now elim H|].
  destruct (String.eqb k0 k); simpl; [reflexivity|].
  intros H. now rewrite IH.
Qed.

Lemma keys_delete (k : string) (m : JsMap.t V) :
  keys (delete k m) = filter (fun k0 => negb (String.eqb k0 k)) (keys m).
Proof.
  unfold keys, delete. induction m as [|[k0 v0] r IH]; simpl; [reflexivity|].
  destruct (String.eqb k0 k); simpl; now rewrite IH.
Qed.

Lemma keys_set (k : string) (v : V) (m : JsMap.t V) :
  keys (set k v m) = if has k m then keys m else (keys m ++ [k])%list.
Proof.
  unfold has. destruct (get k m) eqn:Hget.
  - apply keys_set_present. congruence.
  - rewrite (set_absent k v m Hget). unfold keys. now rewrite map_app.
Qed.

Lemma NoDup_keys_delete (k : string) (m : JsMap.t V) :
  NoDup (keys m) -> NoDup (keys (delete k m)).
Proof. rewrite keys_delete. apply NoDup_filter. Qed.

Lemma NoDup_keys_set (k : string) (v : V) (m : JsMap.t V) :
  NoDup (keys m) -> NoDup (keys (set k v m)).
Proof.
  intros Hnd. rewrite keys_set. destruct (has k m) eqn:Hhas; [exact Hnd|].
  apply NoDup_app; [exact Hnd | constructor; [intros [] | constructor] |].
  intros x Hin [<-|[]]. apply has_in_keys in Hin. congruence.
Qed.

(** With distinct keys, a key absent from the head of a list is looked up in
    its tail, and deleting the head's key removes just the head. *)
Lemma delete_head (k : string) (v : V) (m : JsMap.t V) :
  NoDup (keys ((k, v) :: m)) -> delete k ((k, v) :: m) = m.
Proof.
  intros Hnd. inversion Hnd as [|x l Hnotin Hnd' Heq]; subst.
  unfold delete. simpl. rewrite String.eqb_refl. simpl.
  apply forallb_filter_id. apply forallb_forall. intros [k0 v0] Hin. simpl.
  destruct (String.eqb_spec k0 k) as [->|]; [|reflexivity].
  elim Hnotin. unfold keys. apply in_map_iff. now exists (k, v0).
Qed.

End Ordered.

End JsMapOrder.

(** ** Runs of cache operations *)

Module CacheRunFacts.

Import HttpCache CacheOps.

(** What [set] leaves in the entries and in the ETag index. *)
Lemma cache_set (c : t) (k : string) (d : Resp.t) (customTtl : option Z)
      (tag : option string) (now : Z) :
  cache (set c k d customTtl tag now)
  = JsMap.set k (mkEntry d (now + or_default customTtl (ttl c)) tag)
              (if evicts c k
               then match JsMap.first_key (cache c) with
                    | Some oldestKey => JsMap.delete oldestKey (cache c)
                    | None => cache c
                    end
               else cache c).
Proof.
  unfold set, evicts. rewrite HttpCacheFacts.cache_scheduleCleanup.
  destruct (_ && _)%bool; [destruct (JsMap.first_key _)|];
    (destruct tag as [tg|]; [destruct (JsString.truthy tg)|]); reflexivity.
Qed.

Lemma etags_set (c : t) (k : string) (d : Resp.t) (customTtl : option Z)
      (tag : option string) (now : Z) :
  etags (set c k d customTtl tag now)
  = let kept :=
      if evicts c k
      then match JsMap.first_key (cache c) with
           | Some oldestKey => JsMap.delete oldestKey (etags c)
           | None => etags c
           end
      else etags c in
    match tag with
    | Some s => if JsString.truthy s then JsMap.set k s kept else kept
    | None => kept
    end.
Proof.
  unfold set, evicts. rewrite HttpCacheFacts.etags_scheduleCleanup.
  destruct (_ && _)%bool; [destruct (JsMap.first_key _)|];
    (destruct tag as [tg|]; [destruct (JsString.truthy tg)|]); reflexivity.
Qed.

Lemma maxSize_set (c : t) (k : string) (d : Resp.t) (customTtl : option Z)
      (tag : option string) (now : Z) :
  maxSize (set c k d customTtl tag now) = maxSize c
  /\ ttl (set c k d customTtl tag now) = ttl c
  /\ pending (set c k d customTtl tag now) = pending c.
Proof.
  unfold set, _scheduleCleanup.
  destruct (_ && _)%bool; [destruct (JsMap.first_key _)|];
    (destruct tag as [tg|]; [destruct (JsString.truthy tg)|]);
    cbn; destruct (_cleanupScheduled c); auto.
Qed.

Lemma cache_get (c : t) (k : string) (now : Z) :
  cache (snd (get c k now))
  = match JsMap.get k (cache c) with
    | None => cache c
    | Some e => if expires e <? now then JsMap.delete k (cache c)
                else JsMap.set k e (JsMap.delete k (cache c))
    end.
Proof.
  unfold get. destruct (JsMap.get k (cache c)) as [e|]; [|reflexivity].
  now destruct (expires e <? now).
Qed.

Lemma etags_get (c : t) (k : string) (now : Z) :
  etags (snd (get c k now))
  = match JsMap.get k (cache c) with
    | None => etags c
    | Some e => if expires e <? now then JsMap.delete k (etags c) else etags c
    end.
Proof.
  unfold get. destruct (JsMap.get k (cache c)) as [e|]; [|reflexivity].
  now destruct (expires e <? now).
Qed.

Lemma frame_get (c : t) (k : string) (now : Z) :
  maxSize (snd (get c k now)) = maxSize c /\ ttl (snd (get c k now)) = ttl c.
Proof.
  unfold get. destruct (JsMap.get k (cache c)) as [e|]; [|auto].
  now destruct (expires e <? now).
Qed.

Lemma frame_refresh (c : t) (k : string) (now : Z) :
  maxSize (refresh c k now) = maxSize c /\ ttl (refresh c k now) = ttl c
  /\ etags (refresh c k now) = etags c.
Proof. unfold refresh. now destruct (JsMap.get k (cache c)). Qed.

(** The sweep and [invalidate] are runs of [drop]. *)
Lemma cleanup_drops (c : t) (now : Z) :
  _cleanup c now
  = fold_left drop
      (map fst (filter (fun kv => expires (snd kv) <=? now) (cache c))) c.
Proof.
  unfold _cleanup.
  generalize (filter (fun kv => expires (snd kv) <=? now) (cache c)).
  intros dead. revert c. induction dead as [|kv dead IH]; intros c; [reflexivity|].
  simpl. apply IH.
Qed.

Lemma invalidate_drops (c : t) (matches : string -> bool) :
  invalidate c matches
  = (Z.of_nat (List.length (filter matches (JsMap.keys (cache c)))),
     fold_left drop (filter matches (JsMap.keys (cache c))) c).
Proof.
  unfold invalidate.
  assert (H : forall (l : list string) (n : Z) (a : t),
             fold_left
               (fun acc key =>
                  if matches key
                  then (fst acc + 1,
                        with_etags
                          (with_cache (snd acc) (JsMap.delete key (cache (snd acc))))
                          (JsMap.delete key (etags (snd acc))))
                  else acc) l (n, a)
             = (n + Z.of_nat (List.length (filter matches l)),
                fold_left drop (filter matches l) a)).
  { induction l as [|key l IH]; intros n a; simpl.
    - now rewrite Z.add_0_r.
    - destruct (matches key); simpl; rewrite IH; [|reflexivity].
      f_equal. lia. }
  rewrite H. reflexivity.
Qed.

(** A property of caches that [drop] keeps is kept by runs of [drop]. *)
Lemma fold_drop_keeps (P : t -> Prop) :
  (forall c key, P c -> P (drop c key)) ->
  forall keys c, P c -> P (fold_left drop keys c).
Proof.
  intros Hdrop. induction keys as [|key keys IH]; intros c Hc; [exact Hc|].
  simpl. apply IH. now apply Hdrop.
Qed.

(** *** The bound on the number of entries *)

Lemma within_capacity_drop (m : Z) (c : t) (key : string) :
  within_capacity m c -> within_capacity m (drop c key).
Proof.
  unfold within_capacity, drop, JsMap.size. simpl. intros [Hm Hs]. split; [exact Hm|].
  pose proof (JsMapOrder.length_delete_le key (cache c)). lia.
Qed.

Lemma within_capacity_set (m : Z) (c : t) (k : string) (d : Resp.t)
      (customTtl : option Z) (tag : option string) (now : Z) :
  1 <= m -> within_capacity m c ->
  within_capacity m (set c k d customTtl tag now).
Proof.
  unfold within_capacity. intros Hone [Hm Hs].
  split; [now rewrite (proj1 (maxSize_set c k d customTtl tag now))|].
  rewrite cache_set. unfold JsMap.size in *. rewrite JsMapOrder.length_set.
  unfold evicts. rewrite Hm. unfold JsMap.size.
  destruct (JsMap.has k (cache c)) eqn:Hhas.
  - rewrite Bool.andb_false_r, Hhas. exact Hs.
  - rewrite Bool.andb_true_r.
    destruct (Z.leb_spec m (Z.of_nat (List.length (cache c)))) as [Hfull|Hroom].
    + destruct (cache c) as [|[oldest e] rest] eqn:Hcache; [simpl in Hfull; lia|].
      cbn [JsMap.first_key].
      assert (Hlt : (List.length (JsMap.delete oldest ((oldest, e) :: rest))
                     < List.length ((oldest, e) :: rest))%nat).
      { apply JsMapOrder.length_delete_lt. unfold JsMap.has. simpl.
        now rewrite String.eqb_refl. }
      destruct (JsMap.has k (JsMap.delete oldest ((oldest, e) :: rest))); lia.
    + rewrite Hhas. lia.
Qed.

Lemma within_capacity_apply (m : Z) (c : t) (o : op) :
  1 <= m -> within_capacity m c -> within_capacity m (apply c o).
Proof.
  intros Hone Hc. destruct o as [k d customTtl tag now|k now|k now|now|matches|];
    cbn [apply].
  - now apply within_capacity_set.
  - destruct Hc as [Hm Hs]. split; [now rewrite (proj1 (frame_get c k now))|].
    rewrite cache_get. unfold JsMap.size in *.
    destruct (JsMap.get k (cache c)) as [e|] eqn:Hget; [|exact Hs].
    assert (Hhas : JsMap.has k (cache c) = true) by (unfold JsMap.has; now rewrite Hget).
    pose proof (JsMapOrder.length_delete_lt k (cache c) Hhas).
    destruct (expires e <? now); [lia|].
    rewrite JsMapOrder.length_set, JsMapOrder.has_delete. lia.
  - destruct Hc as [Hm Hs]. split; [now rewrite (proj1 (frame_refresh c k now))|].
    unfold refresh. destruct (JsMap.get k (cache c)) as [e|] eqn:Hget; [|exact Hs].
    cbn [cache with_cache]. unfold JsMap.size in *.
    rewrite JsMapOrder.length_set. unfold JsMap.has. now rewrite Hget.
  - unfold cleanup_timer. rewrite cleanup_drops.
    apply fold_drop_keeps; [intros; now apply within_capacity_drop|].
    exact Hc.
  - rewrite invalidate_drops. cbn [snd].
    apply fold_drop_keeps; [intros; now apply within_capacity_drop|].
    exact Hc.
  - destruct Hc as [Hm Hs]. split; [exact Hm|]. cbn. lia.
Qed.

Lemma within_capacity_run (m : Z) (ops : list op) :
  1 <= m -> forall c, within_capacity m c -> within_capacity m (run c ops).
Proof.
  intros Hone. unfold run. induction ops as [|o ops IH]; intros c Hc; [exact Hc|].
  simpl. apply IH. now apply within_capacity_apply.
Qed.



(** *** The ETag index *)

Lemma get_set_present {V : Type} (k k' : string) (v : V) (m : JsMap.t V) :
  JsMap.get k' m <> None -> JsMap.get k' (JsMap.set k v m) <> None.
Proof.
  intros H. destruct (String.eqb_spec k k') as [->|Hne].
  - rewrite JsMapFacts.get_set_eq. discriminate.
  - now rewrite JsMapFacts.get_set_ne.
Qed.

Lemma get_delete_present {V : Type} (k k' : string) (m : JsMap.t V) :
  JsMap.get k' (JsMap.delete k m) <> None -> k <> k' /\ JsMap.get k' m <> None.
Proof.
  intros H. destruct (String.eqb_spec k k') as [->|Hne].
  - now rewrite JsMapFacts.get_delete_eq in H.
  - split; [exact Hne|]. now rewrite JsMapFacts.get_delete_ne in H.
Qed.

Lemma etags_indexed_drop (c : t) (key : string) :
  etags_indexed c -> etags_indexed (drop c key).
Proof.
  unfold etags_indexed, drop. cbn. intros Hc k Hk.
  apply get_delete_present in Hk. destruct Hk as [Hne Hk].
  rewrite JsMapFacts.get_delete_ne by exact Hne. now apply Hc.
Qed.

Lemma etags_indexed_set (c : t) (k : string) (d : Resp.t) (customTtl : option Z)
      (tag : option string) (now : Z) :
  etags_indexed c -> etags_indexed (set c k d customTtl tag now).
Proof.
  unfold etags_indexed. intros Hc k' Hk'. rewrite cache_set. rewrite etags_set in Hk'.
  destruct (String.eqb_spec k k') as [->|Hne];
    [rewrite JsMapFacts.get_set_eq; discriminate|].
  rewrite JsMapFacts.get_set_ne by exact Hne.
  assert (Hkept : JsMap.get k'
                    (if evicts c k
                     then match JsMap.first_key (cache c) with
                          | Some oldestKey => JsMap.delete oldestKey (etags c)
                          | None => etags c
                          end
                     else etags c) <> None).
  { cbv zeta in Hk'. destruct tag as [tg|]; [|exact Hk'].
    destruct (JsString.truthy tg); [|exact Hk'].
    now rewrite JsMapFacts.get_set_ne in Hk' by exact Hne. }
  destruct (evicts c k); [|now apply Hc].
  destruct (JsMap.first_key (cache c)) as [oldest|]; [|now apply Hc].
  apply get_delete_present in Hkept. destruct Hkept as [Hold Hin].
  rewrite JsMapFacts.get_delete_ne by exact Hold. now apply Hc.
Qed.

Lemma etags_indexed_apply (c : t) (o : op) :
  etags_indexed c -> etags_indexed (apply c o).
Proof.
  intros Hc. destruct o as [k d customTtl tag now|k now|k now|now|matches|];
    cbn [apply].
  - now apply etags_indexed_set.
  - unfold etags_indexed. intros k' Hk'. rewrite cache_get. rewrite etags_get in Hk'.
    destruct (JsMap.get k (cache c)) as [e|] eqn:Hget; [|now apply Hc].
    destruct (expires e <? now).
    + apply get_delete_present in Hk'. destruct Hk' as [Hne Hin].
      rewrite JsMapFacts.get_delete_ne by exact Hne. now apply Hc.
    + destruct (String.eqb_spec k k') as [->|Hne];
        [rewrite JsMapFacts.get_set_eq; discriminate|].
      rewrite JsMapFacts.get_set_ne, JsMapFacts.get_delete_ne by exact Hne.
      now apply Hc.
  - unfold etags_indexed. intros k' Hk'.
    rewrite (proj2 (proj2 (frame_refresh c k now))) in Hk'.
    unfold refresh. destruct (JsMap.get k (cache c)) as [e|]; [|now apply Hc].
    cbn [cache with_cache]. apply get_set_present. now apply Hc.
  - unfold cleanup_timer. rewrite cleanup_drops.
    apply fold_drop_keeps; [intros; now apply etags_indexed_drop|].
    exact Hc.
  - rewrite invalidate_drops. cbn [snd].
    apply fold_drop_keeps; [intros; now apply etags_indexed_drop|].
    exact Hc.
  - intros k' Hk'. now elim Hk'.
Qed.

Lemma etags_indexed_run (ops : list op) :
  forall c, etags_indexed c -> etags_indexed (run c ops).
Proof.
  unfold run. induction ops as [|o ops IH]; intros c Hc; [exact Hc|].
  simpl. apply IH. now apply etags_indexed_apply.
Qed.

Lemma etags_indexed_new (a b : option Z) (names : option (list string)) :
  etags_indexed (new a b names).
Proof. intros k Hk. now elim Hk. Qed.

(** X2. Every ETag of the index belongs to an entry of the cache, whatever
    has been done to a new cache: [set] indexes an ETag only beside the
    entry it stores, and every deletion of an entry ([set]'s eviction, the
    expiry found by [get], the sweep, [invalidate], [clear]) deletes its
    ETag with it. *)
Theorem etag_index_within_entries (o_ttl o_maxSize : option Z)
        (o_authHeaders : option (list string)) (ops : list op) (k tag : string) :
  get_etag (run (new o_ttl o_maxSize o_authHeaders) ops) k = Some tag ->
  exists e, JsMap.get k (cache (run (new o_ttl o_maxSize o_authHeaders) ops)) = Some e.
Proof.
  intros Htag.
  pose proof (etags_indexed_run ops _ (etags_indexed_new o_ttl o_maxSize o_authHeaders) k)
    as H.
  unfold get_etag in Htag. rewrite Htag in H.
  destruct (JsMap.get k (cache (run (new o_ttl o_maxSize o_authHeaders) ops))) as [e|].
  - now exists e.
  - elim H; [discriminate | reflexivity].
Qed.

(** An entry with an ETag is stored, another one evicts nothing, and the
    ETag is still beside its entry. *)
Lemma etag_index_within_entries_witness :
  let v := Resp.mk true 200 "OK" [] "https://api.example.com/a"
                   (DataJson "{}") FieldNull None in
  exists e,
    JsMap.get "a" (cache (run (new None None None)
                              [Set_ "a" v None (Some "v1") 0; Set_ "b" v None None 1]))
    = Some e.
Proof.
  intros v.
  exact (etag_index_within_entries None None None
           [Set_ "a" v None (Some "v1") 0; Set_ "b" v None None 1] "a" "v1" eq_refl).
Defined.

(** *** Eviction and recency *)

Lemma get_fold_drop (keys : list string) (k : string) :
  forall c,
    JsMap.get k (cache (fold_left drop keys c))
    = (if existsb (String.eqb k) keys then None else JsMap.get k (cache c)) /\
    JsMap.get k (etags (fold_left drop keys c))
    = (if existsb (String.eqb k) keys then None else JsMap.get k (etags c)) /\
    pending (fold_left drop keys c) = pending c.
Proof.
  induction keys as [|key keys IH]; intros c; [now simpl|].
  cbn [fold_left existsb]. destruct (IH (drop c key)) as (Hc & He & Hp).
  rewrite Hc, He, Hp. unfold drop. cbn [cache etags pending with_cache with_etags].
  destruct (String.eqb_spec k key) as [->|Hne]; cbn [orb].
  - rewrite !JsMapFacts.get_delete_eq. now destruct (existsb _ keys).
  - rewrite !JsMapFacts.get_delete_ne by congruence. auto.
Qed.

(** X4. [set] evicts only when the cache is full and the key is new, and
    then it evicts the oldest key, with its ETag, and nothing else: every
    other key is looked up as before, and the new key goes to the end. When
    the cache has room, or the key is already there, no other key is
    affected. *)
Theorem set_evicts_oldest_only (c : t) (k : string) (d : Resp.t)
        (customTtl : option Z) (tag : option string) (now : Z) :
  let c' := set c k d customTtl tag now in
  (forall oldest,
     evicts c k = true -> JsMap.first_key (cache c) = Some oldest ->
     JsMap.get oldest (cache c') = None /\
     JsMap.get oldest (etags c') = None /\
     JsMap.keys (cache c')
     = (filter (fun k0 => negb (String.eqb k0 oldest)) (JsMap.keys (cache c)) ++ [k])%list /\
     forall k', k' <> oldest -> k' <> k ->
                JsMap.get k' (cache c') = JsMap.get k' (cache c)) /\
  (evicts c k = false ->
   forall k', k' <> k -> JsMap.get k' (cache c') = JsMap.get k' (cache c)).
Proof.
  intros c'. subst c'. split.
  - intros oldest Hev Hfirst. rewrite cache_set, etags_set, Hev, Hfirst.
    unfold evicts in Hev. apply Bool.andb_true_iff in Hev. destruct Hev as [_ Hnew].
    apply Bool.negb_true_iff in Hnew.
    assert (Hold : JsMap.has oldest (cache c) = true)
      by now apply JsMapOrder.first_key_has.
    assert (Hne : k <> oldest) by (intros ->; congruence).
    assert (Habsent : JsMap.get k (JsMap.delete oldest (cache c)) = None).
    { rewrite JsMapFacts.get_delete_ne by congruence.
      unfold JsMap.has in Hnew. now destruct (JsMap.get k (cache c)). }
    split; [now rewrite JsMapFacts.get_set_ne, JsMapFacts.get_delete_eq|].
    split.
    { cbv zeta. destruct tag as [tg|]; [destruct (JsString.truthy tg)|];
        rewrite ?JsMapFacts.get_set_ne by exact Hne;
        apply JsMapFacts.get_delete_eq. }
    split.
    { rewrite JsMapOrder.keys_set. unfold JsMap.has. rewrite Habsent.
      now rewrite JsMapOrder.keys_delete. }
    intros k' H1 H2.
    rewrite JsMapFacts.get_set_ne, JsMapFacts.get_delete_ne by congruence.
    reflexivity.
  - intros Hev k' Hne. rewrite cache_set, Hev.
    now rewrite JsMapFacts.get_set_ne by congruence.
Qed.

(** A cache of capacity two holding [a] and [b] is given [c]: [a] goes. *)
Lemma set_evicts_oldest_only_witness :
  let v := Resp.mk true 200 "OK" [] "https://api.example.com/a"
                   (DataJson "{}") FieldNull None in
  let c := run (new None (Some 2) None)
               [Set_ "a" v None (Some "v1") 0; Set_ "b" v None None 1] in
  JsMap.get "a" (cache (set c "c" v None None 2)) = None /\
  JsMap.get "b" (cache (set c "c" v None None 2)) = JsMap.get "b" (cache c).
Proof.
  intros v c.
  destruct (proj1 (set_evicts_oldest_only c "c" v None None 2) "a" eq_refl eq_refl)
    as (Hgone & _ & _ & Hkept).
  split; [exact Hgone|].
  apply Hkept; discriminate.
Defined.

(** X5. Reading an entry makes it the most recently used: a hit on the
    oldest key of a full cache moves the key to the end, so that the [set]
    of a new key that follows evicts the second oldest key instead, and the
    entry that was read is still there. *)
Theorem hit_protects_from_eviction (c : t) (k k1 k2 : string) (e e1 : entry)
        (rest : JsMap.t entry) (d : Resp.t) (customTtl : option Z)
        (tag : option string) (now now' : Z) :
  distinct_keys c ->
  cache c = (k, e) :: (k1, e1) :: rest ->
  now <= expires e ->
  maxSize c <= JsMap.size (cache c) ->
  JsMap.get k2 (cache c) = None ->
  let read := HttpCache.get c k now in
  let c' := set (snd read) k2 d customTtl tag now' in
  fst read = Some (Resp.with_fromCache (data e) true) /\
  JsMap.keys (cache (snd read)) = (k1 :: JsMap.keys rest ++ [k])%list /\
  JsMap.get k (cache c') = Some e /\
  JsMap.get k1 (cache c') = None.
Proof.
  intros Hnd Hcache Hfresh Hfull Hnew read c'. subst read c'.
  unfold distinct_keys in Hnd. rewrite Hcache in Hnd.
  assert (Hk : JsMap.get k (cache c) = Some e)
    by (rewrite Hcache; simpl; now rewrite String.eqb_refl).
  assert (Hread : HttpCache.get c k now
                  = (Some (Resp.with_fromCache (data e) true),
                     with_cache c (JsMap.set k e (JsMap.delete k (cache c))))).
  { unfold HttpCache.get. rewrite Hk.
    destruct (Z.ltb_spec (expires e) now); [lia | reflexivity]. }
  rewrite Hread. cbn [fst snd].
  assert (Hdel : JsMap.delete k (cache c) = (k1, e1) :: rest)
    by (rewrite Hcache; now apply JsMapOrder.delete_head).
  assert (Hnotin : JsMap.get k ((k1, e1) :: rest) = None).
  { assert (Hn : ~ In k (JsMap.keys ((k1, e1) :: rest))).
    { change (JsMap.keys ((k, e) :: (k1, e1) :: rest))
        with (k :: JsMap.keys ((k1, e1) :: rest)) in Hnd.
      apply NoDup_cons_iff in Hnd. tauto. }
    destruct (JsMap.get k ((k1, e1) :: rest)) eqn:Hg; [|reflexivity].
    elim Hn. apply JsMapOrder.get_in_keys. congruence. }
  assert (Hmoved : JsMap.set k e (JsMap.delete k (cache c))
                   = ((k1, e1) :: rest ++ [(k, e)])%list).
  { rewrite Hdel. now rewrite (JsMapOrder.set_absent k e _ Hnotin). }
  split; [reflexivity|].
  split.
  { cbn [cache with_cache]. rewrite Hmoved. unfold JsMap.keys. simpl.
    now rewrite map_app. }
  assert (Hne1 : k1 <> k).
  { intros ->. simpl in Hnotin. now rewrite String.eqb_refl in Hnotin. }
  assert (Hne2 : k2 <> k) by (intros ->; congruence).
  assert (Hne12 : k2 <> k1).
  { intros ->. rewrite Hcache in Hnew. simpl in Hnew.
    destruct (String.eqb k k1); [discriminate|].
    now rewrite String.eqb_refl in Hnew. }
  assert (Hev : evicts (with_cache c (JsMap.set k e (JsMap.delete k (cache c)))) k2
                = true).
  { unfold evicts. cbn [maxSize cache with_cache]. rewrite Hmoved.
    apply Bool.andb_true_iff. split.
    - apply Z.leb_le. unfold JsMap.size in *. rewrite Hcache in Hfull.
      cbn [List.length] in *. rewrite length_app. cbn [List.length]. lia.
    - apply Bool.negb_true_iff. unfold JsMap.has.
      replace (JsMap.get k2 ((k1, e1) :: rest ++ [(k, e)])%list) with (@None entry);
        [reflexivity|].
      symmetry. rewrite <- Hmoved.
      rewrite JsMapFacts.get_set_ne, JsMapFacts.get_delete_ne by congruence.
      exact Hnew. }
  rewrite cache_set, Hev. cbn [cache with_cache]. rewrite Hmoved.
  cbn [JsMap.first_key]. split.
  - rewrite JsMapFacts.get_set_ne, JsMapFacts.get_delete_ne by congruence.
    rewrite <- Hmoved. apply JsMapFacts.get_set_eq.
  - rewrite JsMapFacts.get_set_ne by congruence. apply JsMapFacts.get_delete_eq.
Qed.

(** In a cache of capacity two holding [a] and [b], [a] is read, then [c]
    is stored: [b] goes. *)
Lemma hit_protects_from_eviction_witness :
  let v := Resp.mk true 200 "OK" [] "https://api.example.com/a"
                   (DataJson "{}") FieldNull None in
  let c := run (new None (Some 2) None)
               [Set_ "a" v None None 0; Set_ "b" v None None 1] in
  JsMap.get "a" (cache (set (snd (HttpCache.get c "a" 5)) "c" v None None 6))
  = Some (mkEntry v 300000 None) /\
  JsMap.get "b" (cache (set (snd (HttpCache.get c "a" 5)) "c" v None None 6)) = None.
Proof.
  intros v c.
  destruct (hit_protects_from_eviction
              c "a" "b" "c" (mkEntry v 300000 None) (mkEntry v 300001 None) []
              v None None 5 6)
    as (_ & _ & Ha & Hb).
  - unfold distinct_keys. cbn. repeat constructor; cbn; intuition discriminate.
  - reflexivity.
  - cbn. discriminate.
  - cbn. discriminate.
  - reflexivity.
  - split; [exact Ha | exact Hb].
Defined.

(** *** Refreshing, sweeping, invalidating *)

(** X6. [refresh] gives an entry a new lease of [ttl] from now, whatever
    its expiry was (also when it had expired, and also when it had been
    stored with a TTL of its own): a [get] within the new lease returns its
    data. It leaves the ETag index alone, and does nothing for a key that
    has no entry. *)
Theorem refresh_extends_lease (c : t) (k : string) (e : entry) (now now' : Z) :
  JsMap.get k (cache c) = Some e ->
  now' <= now + ttl c ->
  JsMap.get k (cache (refresh c k now)) = Some (mkEntry (data e) (now + ttl c) (etag e)) /\
  fst (HttpCache.get (refresh c k now) k now') = Some (Resp.with_fromCache (data e) true) /\
  etags (refresh c k now) = etags c /\
  JsMap.keys (cache (refresh c k now)) = JsMap.keys (cache c) /\
  (forall k0, JsMap.get k0 (cache c) = None -> refresh c k0 now = c).
Proof.
  intros Hget Htime.
  assert (Hnew : JsMap.get k (cache (refresh c k now))
                 = Some (mkEntry (data e) (now + ttl c) (etag e))).
  { unfold refresh. rewrite Hget. cbn [cache with_cache].
    apply JsMapFacts.get_set_eq. }
  split; [exact Hnew|]. split.
  { unfold HttpCache.get. rewrite Hnew. cbn [expires data].
    destruct (Z.ltb_spec (now + ttl c) now'); [lia | reflexivity]. }
  split; [apply frame_refresh|]. split.
  { unfold refresh. rewrite Hget. cbn [cache with_cache].
    apply JsMapOrder.keys_set_present. congruence. }
  intros k0 Hnone. unfold refresh. now rewrite Hnone.
Qed.

(** An entry stored at time 0 with a TTL of one second has expired at time
    5000; refreshed then, it is served again. *)
Lemma refresh_extends_lease_witness :
  let v := Resp.mk true 200 "OK" [] "https://api.example.com/a"
                   (DataJson "{}") FieldNull None in
  let c := set (new None None None) "a" v (Some 1000) None 0 in
  fst (HttpCache.get c "a" 5000) = None /\
  fst (HttpCache.get (refresh c "a" 5000) "a" 6000)
  = Some (Resp.with_fromCache v true).
Proof.
  intros v c. split; [reflexivity|].
  exact (proj1 (proj2 (refresh_extends_lease c "a" (mkEntry v 1000 None) 5000 6000
                         eq_refl ltac:(discriminate)))).
Defined.

(** X7. After the sweep no entry is left whose expiry is at or before the
    time of the sweep, and no ETag of such an entry; with distinct keys,
    every entry that expires later is still there; the in-flight registry
    is untouched, and the timer can be armed again. *)
Theorem sweep_removes_expired (c : t) (now : Z) :
  let c' := cleanup_timer c now in
  (forall k e, JsMap.get k (cache c') = Some e -> now < expires e) /\
  (forall k e, JsMap.get k (cache c) = Some e -> expires e <= now ->
               JsMap.get k (cache c') = None /\ JsMap.get k (etags c') = None) /\
  (distinct_keys c ->
   forall k e, JsMap.get k (cache c) = Some e -> now < expires e ->
               JsMap.get k (cache c') = Some e) /\
  pending c' = pending c /\ _cleanupScheduled c' = false.
Proof.
  intros c'. subst c'. unfold cleanup_timer. rewrite cleanup_drops.
  set (c0 := with_cleanupScheduled c false).
  change (cache c0) with (cache c).
  set (dead := map fst (filter (fun kv => expires (snd kv) <=? now) (cache c))).
  assert (Hdead : forall k, existsb (String.eqb k) dead = true <->
                            exists e, In (k, e) (cache c) /\ expires e <= now).
  { intros k. rewrite existsb_exists. subst dead. split.
    - intros (x & Hin & Heq). apply String.eqb_eq in Heq. subst x.
      apply in_map_iff in Hin. destruct Hin as ([k0 e] & Hk & Hin). simpl in Hk.
      subst k0. apply filter_In in Hin. destruct Hin as [Hin Hexp]. simpl in Hexp.
      exists e. split; [exact Hin | now apply Z.leb_le].
    - intros (e & Hin & Hexp). exists k. split; [|apply String.eqb_refl].
      apply in_map_iff. exists (k, e). split; [reflexivity|].
      apply filter_In. split; [exact Hin | now apply Z.leb_le]. }
  assert (Hlookup : forall (m : JsMap.t entry) k e, JsMap.get k m = Some e -> In (k, e) m).
  { induction m as [|[k0 e0] r IH]; simpl; [discriminate|].
    intros k e. destruct (String.eqb_spec k0 k) as [->|Hne].
    - intros H. injection H as ->. now left.
    - intros H. right. now apply IH. }
  split; [|split; [|split; [|split]]].
  - intros k e Hget. destruct (get_fold_drop dead k c0) as (Hc & _ & _).
    rewrite Hc in Hget. destruct (existsb (String.eqb k) dead) eqn:Hex; [discriminate|].
    change (cache c0) with (cache c) in Hget.
    destruct (Z.lt_ge_cases now (expires e)) as [Hlt|Hge]; [exact Hlt|].
    assert (Hyes : existsb (String.eqb k) dead = true).
    { apply Hdead. exists e. split; [now apply Hlookup | lia]. }
    congruence.
  - intros k e Hget Hexp. destruct (get_fold_drop dead k c0) as (Hc & He & _).
    assert (Hyes : existsb (String.eqb k) dead = true).
    { apply Hdead. exists e. split; [now apply Hlookup | exact Hexp]. }
    rewrite Hc, He, Hyes. auto.
  - intros Hnd k e Hget Halive. destruct (get_fold_drop dead k c0) as (Hc & _ & _).
    rewrite Hc. change (cache c0) with (cache c).
    destruct (existsb (String.eqb k) dead) eqn:Hex; [|exact Hget].
    apply Hdead in Hex. destruct Hex as (e' & Hin & Hexp).
    assert (Hsame : e' = e).
    { unfold distinct_keys, JsMap.keys in Hnd. clear - Hnd Hin Hget.
      induction (cache c) as [|[k0 e0] r IH]; simpl in *; [contradiction|].
      inversion Hnd as [|x l Hnotin Hnd' Heq]; subst.
      destruct (String.eqb_spec k0 k) as [->|Hne].
      - injection Hget as ->. destruct Hin as [Heq|Hin]; [congruence|].
        elim Hnotin. apply in_map_iff. now exists (k, e').
      - destruct Hin as [Heq|Hin]; [congruence|]. now apply IH. }
    subst e'. lia.
  - destruct (get_fold_drop dead EmptyString c0) as (_ & _ & Hp). exact Hp.
  - apply (fold_drop_keeps (fun x => _cleanupScheduled x = false));
      [intros; assumption | reflexivity].
Qed.

(** An entry past its expiry and one that is not, swept at time 2000. *)
Lemma sweep_removes_expired_witness :
  let v := Resp.mk true 200 "OK" [] "https://api.example.com/a"
                   (DataJson "{}") FieldNull None in
  let c := run (new None None None)
               [Set_ "a" v (Some 1000) (Some "v1") 0; Set_ "b" v None None 1] in
  (JsMap.get "a" (cache (cleanup_timer c 2000)) = None /\
   JsMap.get "a" (etags (cleanup_timer c 2000)) = None) /\
  JsMap.get "b" (cache (cleanup_timer c 2000)) = Some (mkEntry v 300001 None).
Proof.
  intros v c.
  destruct (sweep_removes_expired c 2000) as (_ & Hgone & Hkept & _). split.
  - apply (Hgone "a" (mkEntry v 1000 (Some "v1")) eq_refl). discriminate.
  - apply Hkept; [|reflexivity|reflexivity].
    unfold distinct_keys. cbn. repeat constructor; cbn; intuition discriminate.
Defined.

(** X8. [invalidate] removes the entries whose key matches, with their
    ETags (the ETag index being within the entries), and returns how many
    keys matched; an entry whose key does not match is looked up as
    before; a [get] of a matching key misses afterwards. The in-flight
    registry is left as it is, so a request in flight for an invalidated
    key still settles into the cache. *)
Theorem invalidate_removes_matching (c : t) (matches : string -> bool) :
  let '(count, c') := invalidate c matches in
  count = Z.of_nat (List.length (filter matches (JsMap.keys (cache c)))) /\
  (forall k, matches k = true ->
             JsMap.get k (cache c') = None /\
             (etags_indexed c -> JsMap.get k (etags c') = None) /\
             forall now, fst (HttpCache.get c' k now) = None) /\
  (forall k, matches k = false ->
             JsMap.get k (cache c') = JsMap.get k (cache c) /\
             JsMap.get k (etags c') = JsMap.get k (etags c)) /\
  pending c' = pending c.
Proof.
  rewrite invalidate_drops.
  set (hits := filter matches (JsMap.keys (cache c))).
  assert (Hhit : forall k, existsb (String.eqb k) hits = true <->
                           matches k = true /\ In k (JsMap.keys (cache c))).
  { intros k. rewrite existsb_exists. subst hits. split.
    - intros (x & Hin & Heq). apply String.eqb_eq in Heq. subst x.
      apply filter_In in Hin. tauto.
    - intros [Hm Hin]. exists k. split; [|apply String.eqb_refl].
      apply filter_In. tauto. }
  split; [reflexivity|]. split; [|split].
  - intros k Hm. destruct (get_fold_drop hits k c) as (Hc & He & _).
    assert (Hcache : JsMap.get k (cache (fold_left drop hits c)) = None).
    { rewrite Hc. destruct (existsb (String.eqb k) hits) eqn:Hex; [reflexivity|].
      destruct (JsMap.get k (cache c)) eqn:Hget; [|reflexivity].
      assert (Hyes : existsb (String.eqb k) hits = true).
      { apply Hhit. split; [exact Hm|]. apply JsMapOrder.get_in_keys. congruence. }
      congruence. }
    split; [exact Hcache|]. split.
    + intros Hidx. rewrite He.
      destruct (existsb (String.eqb k) hits) eqn:Hex; [reflexivity|].
      destruct (JsMap.get k (etags c)) eqn:Htag; [|reflexivity].
      assert (Hyes : existsb (String.eqb k) hits = true).
      { apply Hhit. split; [exact Hm|]. apply JsMapOrder.get_in_keys.
        apply Hidx. congruence. }
      congruence.
    + intros now. unfold HttpCache.get. now rewrite Hcache.
  - intros k Hm. destruct (get_fold_drop hits k c) as (Hc & He & _).
    rewrite Hc, He.
    destruct (existsb (String.eqb k) hits) eqn:Hex; [|auto].
    apply Hhit in Hex. destruct Hex as [Hyes _]. congruence.
  - destruct (get_fold_drop hits EmptyString c) as (_ & _ & Hp). exact Hp.
Qed.

(** Two entries, one under a key that starts with [GET], invalidated by
    that prefix. *)
Lemma invalidate_removes_matching_witness :
  let v := Resp.mk true 200 "OK" [] "https://api.example.com/a"
                   (DataJson "{}") FieldNull None in
  let c := run (new None None None)
               [Set_ "GET /a" v None (Some "v1") 0; Set_ "HEAD /a" v None None 1] in
  fst (invalidate c (String.prefix "GET")) = 1 /\
  fst (HttpCache.get (snd (invalidate c (String.prefix "GET"))) "GET /a" 5) = None /\
  JsMap.get "HEAD /a" (cache (snd (invalidate c (String.prefix "GET"))))
  = JsMap.get "HEAD /a" (cache c).
Proof.
  intros v c. pose proof (invalidate_removes_matching c (String.prefix "GET")) as H.
  destruct (invalidate c (String.prefix "GET")) as [count c'].
  destruct H as (Hcount & Hhit & Hmiss & _). cbn [fst snd].
  split; [exact Hcount|]. split.
  - exact (proj2 (proj2 (Hhit "GET /a" eq_refl)) 5).
  - exact (proj1 (Hmiss "HEAD /a" eq_refl)).
Defined.

(** The keys of the entries stay pairwise distinct. *)
Lemma distinct_keys_apply (c : t) (o : op) :
  distinct_keys c -> distinct_keys (apply c o).
Proof.
  unfold distinct_keys. intros Hc.
  assert (Hdrop : forall c0 key, NoDup (JsMap.keys (cache c0)) ->
                                 NoDup (JsMap.keys (cache (drop c0 key))))
    by (intros c0 key H0; unfold drop; cbn; now apply JsMapOrder.NoDup_keys_delete).
  destruct o as [k d customTtl tag now|k now|k now|now|matches|]; cbn [apply].
  - rewrite cache_set. apply JsMapOrder.NoDup_keys_set.
    destruct (evicts c k); [|exact Hc].
    destruct (JsMap.first_key (cache c)); [|exact Hc].
    now apply JsMapOrder.NoDup_keys_delete.
  - rewrite cache_get. destruct (JsMap.get k (cache c)) as [e|]; [|exact Hc].
    destruct (expires e <? now); [now apply JsMapOrder.NoDup_keys_delete|].
    apply JsMapOrder.NoDup_keys_set. now apply JsMapOrder.NoDup_keys_delete.
  - unfold refresh. destruct (JsMap.get k (cache c)); [|exact Hc].
    cbn. now apply JsMapOrder.NoDup_keys_set.
  - unfold cleanup_timer. rewrite cleanup_drops.
    apply (fold_drop_keeps (fun x => NoDup (JsMap.keys (cache x)))); [exact Hdrop|].
    exact Hc.
  - rewrite invalidate_drops. cbn [snd].
    apply (fold_drop_keeps (fun x => NoDup (JsMap.keys (cache x)))); [exact Hdrop|].
    exact Hc.
  - cbn. constructor.
Qed.

Lemma distinct_keys_run (ops : list op) (o_ttl o_maxSize : option Z)
      (o_authHeaders : option (list string)) :
  distinct_keys (run (new o_ttl o_maxSize o_authHeaders) ops).
Proof.
  unfold run.
  assert (H : forall c, distinct_keys c -> distinct_keys (fold_left apply ops c)).
  { induction ops as [|o ops IH]; intros c Hc; [exact Hc|].
    simpl. apply IH. now apply distinct_keys_apply. }
  apply H. unfold distinct_keys. cbn. constructor.
Qed.

End CacheRunFacts.

(** ** Conditional requests *)

Module RevalidationFacts.

Import CacheOps.

Lemma etags_indexed_same (c c' : HttpCache.t) :
  HttpCache.cache c' = HttpCache.cache c -> HttpCache.etags c' = HttpCache.etags c ->
  etags_indexed c -> etags_indexed c'.
Proof. unfold etags_indexed. now intros -> ->. Qed.

(** When the ETag index is within the entries, a [get] that misses leaves
    no ETag under the key: either there was no entry, hence no ETag, or the
    entry had expired and its ETag was deleted with it. *)
Lemma miss_leaves_no_etag (c : HttpCache.t) (k : string) (now : Z) :
  etags_indexed c -> fst (HttpCache.get c k now) = None ->
  HttpCache.get_etag (snd (HttpCache.get c k now)) k = None.
Proof.
  unfold HttpCache.get_etag. intros Hc Hmiss. rewrite CacheRunFacts.etags_get.
  unfold HttpCache.get in Hmiss.
  destruct (JsMap.get k (HttpCache.cache c)) as [e|] eqn:Hget.
  - destruct (HttpCache.expires e <? now); [|discriminate].
    apply JsMapFacts.get_delete_eq.
  - destruct (JsMap.get k (HttpCache.etags c)) eqn:Htag; [|reflexivity].
    elim (Hc k); [congruence | exact Hget].
Qed.

Lemma etags_indexed_then (h : HttpCache.t) (k : string) (v : jsval) (now : Z) :
  etags_indexed h -> etags_indexed (snd (Grab.then_callback h k v now)).
Proof.
  intros Hh. unfold Grab.then_callback.
  assert (Hget : forall h0, etags_indexed h0 ->
                            etags_indexed (snd (HttpCache.get h0 k now)))
    by (intros h0 H0; exact (CacheRunFacts.etags_indexed_apply h0 (Get k now) H0)).
  assert (Hrefresh : etags_indexed (HttpCache.refresh h k now))
    by exact (CacheRunFacts.etags_indexed_apply h (Refresh k now) Hh).
  assert (Hmid : etags_indexed
                   (snd (match Grab.status_of v with
                         | Some status =>
                             if status =? 304
                             then HttpCache.get (HttpCache.refresh h k now) k now
                             else (None, h)
                         | None => (None, h)
                         end))).
  { destruct (Grab.status_of v) as [status|]; [|exact Hh].
    destruct (status =? 304); [now apply Hget | exact Hh]. }
  destruct v as [| |e|r|tag]; try exact Hh;
    destruct (match Grab.status_of _ with Some _ => _ | None => _ end)
      as [refreshed h1]; cbn [snd] in Hmid;
    destruct refreshed; try exact Hmid.
  destruct (Resp.ok r); [|exact Hmid].
  cbn [snd]. now apply CacheRunFacts.etags_indexed_set.
Qed.

Lemma etags_indexed_request (s : Grab.settings) (c : Grab.client)
      (config : Config.t) (now : Z) :
  etags_indexed (Grab.cache c) ->
  etags_indexed (Grab.cache (snd (Grab.cacheableRequest s c config now))).
Proof.
  intros Hc. unfold Grab.cacheableRequest.
  destruct (Grab.resolveUrl s (Config.url config)) as [url|e]; [|exact Hc].
  pose proof (HttpCacheFacts.key_frame (Grab.cache c) "GET" url (Config.params config)
                (Config.headers config)) as Hframe.
  destruct (HttpCache.key (Grab.cache c) "GET" url (Config.params config)
                          (Config.headers config)) as [cacheKey cache1].
  cbn [snd] in Hframe. destruct Hframe as (Hcache & _ & Hetags & _).
  assert (H1 : etags_indexed cache1) by now apply (etags_indexed_same (Grab.cache c)).
  destruct (HttpCache.getPending cache1 cacheKey); [exact H1|].
  pose proof (CacheRunFacts.etags_indexed_apply cache1 (Get cacheKey now) H1) as H2.
  cbn [apply] in H2.
  destruct (HttpCache.get cache1 cacheKey now) as [cached cache2]. cbn [snd] in H2.
  destruct cached; [exact H2|].
  destruct (CircuitBreaker.enter (Grab.circuitBreaker c) now) as [g breaker1].
  match goal with
  | |- context [let (ph, called) := ?x in _] => destruct x as [ph called]
  end.
  cbn. now apply (etags_indexed_same cache2).
Qed.

Lemma etags_indexed_step (s : Grab.settings) (c : Grab.client) (e : Grab.event) :
  etags_indexed (Grab.cache c) ->
  etags_indexed (Grab.cache (fst (Grab.step s c e))).
Proof.
  intros Hc. destruct e as [config now|promise fo|promise|promise now]; cbn [Grab.step].
  - pose proof (etags_indexed_request s c config now Hc) as H.
    now destruct (Grab.cacheableRequest s c config now).
  - destruct (Grab.find_task promise (Grab.tasks c)) as [[k ph]|]; [|exact Hc].
    destruct ph; exact Hc.
  - destruct (Grab.find_task promise (Grab.tasks c)) as [[k ph]|]; [|exact Hc].
    destruct ph; try exact Hc.
    now destruct (Grab.start_attempt s config (attempt + 1) error).
  - assert (Hfinish : forall t, etags_indexed
                                  (Grab.cache (Grab.finish c promise t now))).
    { intros t. unfold Grab.finish.
      destruct (match Grab.t_phase t with
                | Grab.ThunkSettled r => _
                | Grab.GateSettled r => _
                | _ => _
                end) as [r breaker1].
      destruct r as [v|v].
      - pose proof (etags_indexed_then (Grab.cache c) (Grab.t_key t) v now Hc) as H.
        destruct (Grab.then_callback (Grab.cache c) (Grab.t_key t) v now) as [r1 h1].
        cbn. cbn [snd] in H. exact H.
      - cbn. exact Hc. }
    destruct (Grab.find_task promise (Grab.tasks c)) as [[k ph]|]; [|exact Hc].
    destruct ph; try exact Hc; cbn [fst]; apply Hfinish.
Qed.

Lemma etags_indexed_client_run (s : Grab.settings) (trace : list Grab.event) :
  forall c, etags_indexed (Grab.cache c) ->
            etags_indexed (Grab.cache (fst (Grab.run s c trace))).
Proof.
  induction trace as [|e trace IH]; intros c Hc; [exact Hc|].
  cbn [Grab.run]. pose proof (etags_indexed_step s c e Hc) as H1.
  destruct (Grab.step s c e) as [c1 r]. cbn [fst] in H1.
  specialize (IH c1 H1). destruct (Grab.run s c1 trace) as [c2 replies].
  exact IH.
Qed.

(** X3. A client never adds [If-None-Match]. Whatever requests and
    settlements a client has gone through since it was created, when
    [cacheableRequest] starts a pipeline the attempt it dispatches carries
    the descriptor of the caller as it is: the ETag looked up after the
    cache miss is never there, because [get] has just deleted it with the
    expired entry, or there was no entry to hold one. *)
Theorem conditional_header_never_added (s : Grab.settings)
        (o_ttl o_maxSize : option Z) (o_authHeaders : option (list string))
        (breaker : CircuitBreaker.t) (trace : list Grab.event)
        (config : Config.t) (now : Z) (promise : nat) (c1 : Grab.client)
        (k : string) (attempt : Z) (dispatched : Config.t) (p : Grab.prepared) :
  let c := fst (Grab.run s (Grab.fresh (HttpCache.new o_ttl o_maxSize o_authHeaders)
                                       breaker) trace) in
  Grab.cacheableRequest s c config now = (Grab.Starts promise, c1) ->
  Grab.find_task promise (Grab.tasks c1)
  = Some (Grab.mkTask k (Grab.AwaitingTransport attempt dispatched p)) ->
  dispatched = config.
Proof.
  intros c.
  assert (Hc : etags_indexed (Grab.cache c)).
  { apply etags_indexed_client_run. apply CacheRunFacts.etags_indexed_new. }
  clearbody c. unfold Grab.cacheableRequest.
  destruct (Grab.resolveUrl s (Config.url config)) as [url|e]; [|discriminate].
  pose proof (HttpCacheFacts.key_frame (Grab.cache c) "GET" url (Config.params config)
                (Config.headers config)) as Hframe.
  destruct (HttpCache.key (Grab.cache c) "GET" url (Config.params config)
                          (Config.headers config)) as [cacheKey cache1].
  cbn [snd] in Hframe. destruct Hframe as (Hcache & _ & Hetags & _).
  assert (H1 : etags_indexed cache1) by now apply (etags_indexed_same (Grab.cache c)).
  destruct (HttpCache.getPending cache1 cacheKey); [discriminate|].
  pose proof (miss_leaves_no_etag cache1 cacheKey now H1) as Hnone.
  destruct (HttpCache.get cache1 cacheKey now) as [cached cache2].
  cbn [fst snd] in Hnone.
  destruct cached; [discriminate|]. rewrite (Hnone eq_refl).
  destruct (CircuitBreaker.enter (Grab.circuitBreaker c) now) as [g breaker1].
  destruct g as [o|].
  - intros H. injection H as <- <-. cbn. rewrite Nat.eqb_refl. discriminate.
  - unfold Grab.start_attempt, Grab.after_error.
    destruct (Grab.retryAttempts s <? 1);
      [intros H; injection H as <- <-; cbn; rewrite Nat.eqb_refl; discriminate|].
    destruct (Grab.prepare s config) as [pr|error].
    + intros H. injection H as <- <-. cbn. rewrite Nat.eqb_refl.
      intros H. now injection H.
    + destruct (Grab.on_attempt_error s 1 error);
        intros H; injection H as <- <-; cbn; rewrite Nat.eqb_refl; discriminate.
Qed.

(** A response with an ETag is cached; once it has expired, the same
    request is dispatched again as the caller wrote it. *)
Lemma conditional_header_never_added_witness :
  let s := Example.settings 3 [] in
  let config := Example.request "/a" None in
  let tagged :=
    Grab.FetchResolves
      (Example.handle 200 "OK" [("content-type", "application/json"); ("etag", "v1")]
                      (DataJson "{}")) in
  let c := fst (Grab.run s (Grab.fresh (HttpCache.new None None None)
                                       (CircuitBreaker.new None None
                                                           CircuitBreaker.FallbackNull))
                         [Grab.Request config 0; Grab.TransportSettles 0 tagged;
                          Grab.PromiseSettles 0 10]) in
  HttpCache.get_etag (Grab.cache c) (fst (HttpCache.key (Grab.cache c) "GET"
                                            "https://api.example.com/a" [] []))
  = Some "v1" /\
  exists k p,
    Grab.find_task 1 (Grab.tasks (snd (Grab.cacheableRequest s c config 400000)))
    = Some (Grab.mkTask k (Grab.AwaitingTransport 1 config p)).
Proof.
  intros s config tagged c. split; [vm_compute; reflexivity|].
  assert (H : exists k dispatched p,
             Grab.find_task 1 (Grab.tasks (snd (Grab.cacheableRequest s c config 400000)))
             = Some (Grab.mkTask k (Grab.AwaitingTransport 1 dispatched p)))
    by (eexists _, _, _; vm_compute; reflexivity).
  destruct H as (k & dispatched & p & Hfind).
  exists k, p. rewrite Hfind.
  rewrite (conditional_header_never_added
             s None None None
             (CircuitBreaker.new None None CircuitBreaker.FallbackNull)
             [Grab.Request config 0; Grab.TransportSettles 0 tagged;
              Grab.PromiseSettles 0 10]
             config 400000 1%nat
             (snd (Grab.cacheableRequest s c config 400000))
             k 1 dispatched p eq_refl Hfind).
  reflexivity.
Defined.

End RevalidationFacts.

(** ** Fingerprints on a memo miss *)

Module FingerprintFacts.

Import JsString JsonRead.

Lemma append_assoc (a b c : string) : (a ++ b) ++ c = a ++ (b ++ c).
Proof. induction a as [|x a IH]; simpl; [reflexivity | now rewrite IH]. Qed.

(** [read_char] reads back what [json_escape] writes. *)
Lemma read_escape (c : ascii) (rest : string) :
  read_char (json_escape c ++ rest) = Some (c, rest).
Proof.
  destruct c as [[] [] [] [] [] [] [] []]; reflexivity.
Qed.

Lemma read_closing_quote (rest : string) :
  read_char (String dquote rest) = None.
Proof. reflexivity. Qed.

(** Two string literals that start two equal texts are equal, and so are
    the texts after them. *)
Lemma json_body_inj (a : string) :
  forall (b s t : string),
    json_body a ++ String dquote s = json_body b ++ String dquote t ->
    a = b /\ s = t.
Proof.
  induction a as [|c a IH]; intros b s t H.
  - destruct b as [|c' b]; simpl in H.
    + injection H as ->. auto.
    + apply (f_equal read_char) in H. rewrite read_closing_quote in H.
      rewrite append_assoc in H. now rewrite read_escape in H.
  - destruct b as [|c' b]; simpl in H.
    + apply (f_equal read_char) in H. rewrite read_closing_quote in H.
      rewrite append_assoc in H. now rewrite read_escape in H.
    + rewrite !append_assoc in H.
      pose proof (f_equal read_char H) as Hhead. rewrite !read_escape in Hhead.
      injection Hhead as -> Hrest. destruct (IH _ _ _ Hrest) as [-> ->]. auto.
Qed.

Lemma json_quote_inj (a b s t : string) :
  json_quote a ++ s = json_quote b ++ t -> a = b /\ s = t.
Proof.
  unfold json_quote. simpl. intros H. injection H as H.
  rewrite !append_assoc in H. simpl in H.
  now apply json_body_inj.
Qed.

Lemma member_inj (k1 v1 k2 v2 s t : string) :
  Json.member k1 (json_quote v1) ++ s = Json.member k2 (json_quote v2) ++ t ->
  k1 = k2 /\ v1 = v2 /\ s = t.
Proof.
  unfold Json.member. rewrite !append_assoc. intros H.
  apply json_quote_inj in H. destruct H as [-> H].
  cbn [String.append] in H. injection H as H.
  rewrite !append_assoc in H. cbn [String.append] in H.
  apply json_body_inj in H. destruct H as [-> ->]. auto.
Qed.

Lemma stringify_members (o : list (string * string)) :
  Json.stringify_strings o = "{" ++ members_text o.
Proof.
  unfold Json.stringify_strings, Json.object, join. f_equal.
  induction o as [|kv rest IH]; [reflexivity|].
  destruct rest as [|kv2 rest]; [reflexivity|].
  cbn [map String.concat members_text] in *.
  rewrite !append_assoc. f_equal. f_equal. exact IH.
Qed.

Lemma quote_head (a s : string) : exists r, json_quote a ++ s = String dquote r.
Proof. unfold json_quote. simpl. eauto. Qed.

Lemma members_text_inj (o1 : list (string * string)) :
  forall o2, members_text o1 = members_text o2 -> o1 = o2.
Proof.
  assert (Hhead : forall kv r, exists x, members_text (kv :: r) = String dquote x).
  { intros kv r. destruct r as [|kv2 r]; cbn [members_text]; unfold Json.member;
      rewrite !append_assoc; apply quote_head. }
  induction o1 as [|[k1 v1] r1 IH]; intros o2 H.
  - destruct o2 as [|kv2 r2]; [reflexivity|].
    destruct (Hhead kv2 r2) as [x Hx]. rewrite Hx in H. discriminate.
  - destruct o2 as [|[k2 v2] r2].
    + destruct (Hhead (k1, v1) r1) as [x Hx]. rewrite Hx in H. discriminate.
    + assert (Hsplit : forall k v r,
                 members_text ((k, v) :: r)
                 = Json.member k (json_quote v)
                     ++ match r with [] => "}" | _ => "," ++ members_text r end).
      { intros k v r. now destruct r. }
      rewrite !Hsplit in H. apply member_inj in H. destruct H as (-> & -> & Htail).
      f_equal. destruct r1 as [|kv1 r1'], r2 as [|kv2 r2']; try reflexivity;
        try discriminate.
      injection Htail as Htail. now apply IH.
Qed.

(** [JSON.stringify] tells two objects of strings apart. *)
Lemma stringify_strings_inj (o1 o2 : list (string * string)) :
  Json.stringify_strings o1 = Json.stringify_strings o2 -> o1 = o2.
Proof.
  rewrite !stringify_members. intros H. injection H as H.
  now apply members_text_inj.
Qed.

Lemma append_cancel (p a b : string) : p ++ a = p ++ b -> a = b.
Proof.
  induction p as [|c p IH]; simpl; [auto|]. intros H. injection H as H. auto.
Qed.

(** X9. On a memo miss fingerprints do separate principals: when the
    auth memo of the cache knows the header shape of neither of two
    requests with the same method, URL and parameters, equal fingerprints
    mean equal auth extracts, name by name and value by value. *)
Theorem fingerprints_separate_on_miss (c : HttpCache.t) (method url : string)
        (params : list (string * pval)) (h1 h2 : list (string * string)) :
  JsMap.get (shape h1) (HttpCache._authCache c) = None ->
  JsMap.get (shape h2) (HttpCache._authCache c) = None ->
  fst (HttpCache.key c method url params h1) = fst (HttpCache.key c method url params h2) ->
  HttpCache.extract_auth (HttpCache.authHeaders c) h1
  = HttpCache.extract_auth (HttpCache.authHeaders c) h2.
Proof.
  unfold shape, HttpCache.key. intros -> -> H. cbn [fst] in H.
  unfold join in H. cbn [String.concat] in H.
  repeat (apply append_cancel in H).
  destruct (HttpCache.extract_auth (HttpCache.authHeaders c) h1) as [|x1 r1] eqn:E1,
           (HttpCache.extract_auth (HttpCache.authHeaders c) h2) as [|x2 r2] eqn:E2;
    try reflexivity.
  - rewrite stringify_members in H. discriminate.
  - rewrite stringify_members in H. discriminate.
  - now apply stringify_strings_inj.
Qed.

(** On a fresh cache the fingerprints of two credentials differ. *)
Lemma fingerprints_separate_on_miss_witness :
  fst (HttpCache.key (HttpCache.new None None None) "GET" "https://api.example.com/d" []
                     [("Authorization", "Bearer A")])
  <> fst (HttpCache.key (HttpCache.new None None None) "GET" "https://api.example.com/d" []
                        [("Authorization", "Bearer B")]).
Proof.
  intros H.
  pose proof (fingerprints_separate_on_miss
                (HttpCache.new None None None) "GET" "https://api.example.com/d" []
                [("Authorization", "Bearer A")] [("Authorization", "Bearer B")]
                eq_refl eq_refl H) as Hsame.
  discriminate Hsame.
Defined.

Lemma extract_auth_ext (names : list string) (h1 h2 : list (string * string)) :
  (forall name, In name names -> findHeader h1 name = findHeader h2 name) ->
  HttpCache.extract_auth names h1 = HttpCache.extract_auth names h2.
Proof.
  unfold HttpCache.extract_auth. generalize (@nil (string * string)) as acc.
  induction names as [|name names IH]; intros acc Hsame; [reflexivity|].
  cbn [fold_left]. rewrite (Hsame name) by now left.
  apply IH. intros x Hx. apply Hsame. now right.
Qed.

(** X10. The fingerprint looks at the headers only through [findHeader] on
    the configured auth names: on a memo miss, two requests with the same
    method, URL and parameters for which [findHeader] finds the same value
    under every auth name get the same fingerprint, whatever else differs
    in their headers (other headers such as [Accept], the order of the
    headers, the case of their names). *)
Theorem other_headers_do_not_split (c : HttpCache.t) (method url : string)
        (params : list (string * pval)) (h1 h2 : list (string * string)) :
  JsMap.get (shape h1) (HttpCache._authCache c) = None ->
  JsMap.get (shape h2) (HttpCache._authCache c) = None ->
  (forall name, In name (HttpCache.authHeaders c) ->
                findHeader h1 name = findHeader h2 name) ->
  fst (HttpCache.key c method url params h1) = fst (HttpCache.key c method url params h2).
Proof.
  unfold shape, HttpCache.key. intros -> -> Hsame. cbn [fst].
  now rewrite (extract_auth_ext _ h1 h2 Hsame).
Qed.

(** The same credential with two [Accept] headers, in another order and
    another case. *)
Lemma other_headers_do_not_split_witness :
  fst (HttpCache.key (HttpCache.new None None None) "GET" "https://api.example.com/d" []
                     [("Accept", "text/html"); ("Authorization", "Bearer A")])
  = fst (HttpCache.key (HttpCache.new None None None) "GET" "https://api.example.com/d" []
                       [("authorization", "Bearer A"); ("Accept", "application/json");
                        ("X-Trace", "1")]).
Proof.
  apply (other_headers_do_not_split
           (HttpCache.new None None None) "GET" "https://api.example.com/d" []
           [("Accept", "text/html"); ("Authorization", "Bearer A")]
           [("authorization", "Bearer A"); ("Accept", "application/json");
            ("X-Trace", "1")]
           eq_refl eq_refl).
  intros name [<-|[<-|[<-|[]]]]; reflexivity.
Defined.

End FingerprintFacts.

(** ** More of the circuit breaker *)

Module BreakerFacts.

Import CircuitBreaker BreakerRuns.

(** X11. While open, the breaker turns callers away up to and including
    the instant at which [resetTimeout] has elapsed since the last
    failure, leaving its state as it is; the first call that comes strictly
    later is let through as the half-open probe. *)
Theorem open_until_timeout_elapsed (cb : t) (last now : Z) :
  state cb = CIRCUIT_OPEN ->
  lastFailureTime cb = Some last ->
  (now - last <= resetTimeout cb ->
   enter cb now = (Rejected (this_fallback cb), cb)) /\
  (resetTimeout cb < now - last ->
   fst (enter cb now) = Allowed /\
   state (snd (enter cb now)) = CIRCUIT_HALF_OPEN /\
   halfOpenRequestSent (snd (enter cb now)) = true).
Proof.
  intros Hs Hl. unfold enter, shouldReset. rewrite Hs, Hl. split; intros Ht.
  - destruct (Z.ltb_spec (resetTimeout cb) (now - last)); [lia | reflexivity].
  - destruct (Z.ltb_spec (resetTimeout cb) (now - last)); [|lia].
    cbn. auto.
Qed.

(** A breaker opened at time 30 with a reset timeout of one minute, called
    at 60030 and at 60031. *)
Lemma open_until_timeout_elapsed_witness :
  let cb := after_calls (new (Some 1) None FallbackNull)
                        [mkCall 20 (Threw VNull) 30] in
  fst (enter cb 60030) = Rejected (this_fallback cb) /\
  fst (enter cb 60031) = Allowed.
Proof.
  intros cb.
  destruct (open_until_timeout_elapsed cb 30 60030 eq_refl eq_refl) as [Hrej _].
  destruct (open_until_timeout_elapsed cb 30 60031 eq_refl eq_refl) as [_ Hprobe].
  split.
  - rewrite (Hrej ltac:(discriminate)). reflexivity.
  - exact (proj1 (Hprobe eq_refl)).
Defined.



(** *** Health *)

Lemma consistent_after_call (cb : t) (wc : whole_call) :
  consistent cb -> consistent (after_call cb wc)
                   /\ failureThreshold (after_call cb wc) = failureThreshold cb.
Proof.
  unfold consistent, after_call, call, enter, counting.
  intros (Hone & Hpos & Hclosed & Hopen & Hprobe).
  destruct (state cb) eqn:Hs.
  - pose proof (Hclosed eq_refl) as Hlt.
    cbn [fst snd]. rewrite Hs. destruct (thunk wc) as [v|v]; cbn [settle fst snd].
    + unfold onSuccess. cbn. rewrite Hs. cbn. rewrite ?Hs.
      repeat split; intros; try discriminate; try congruence; try lia.
    + unfold onFailure. cbn.
      destruct (Z.leb_spec (failureThreshold cb) (failureCount cb + 1)); cbn;
        rewrite ?Hs;
        repeat split; intros; try discriminate; try congruence; try lia.
  - assert (Hge : failureThreshold cb <= failureCount cb) by (apply Hopen; discriminate).
    destruct (shouldReset cb (entered wc)); cbn [fst snd].
    + cbn. destruct (thunk wc) as [v|v]; cbn [settle fst snd].
      * unfold onSuccess. cbn.
        repeat split; intros; try discriminate; try congruence; try lia.
      * unfold onFailure. cbn.
        destruct (Z.leb_spec (failureThreshold cb) (failureCount cb + 1)); [|lia].
        cbn. repeat split; intros; try discriminate; try congruence; try lia.
    + rewrite Hs. repeat split; intros; try discriminate; try congruence; try lia.
  - pose proof (Hprobe eq_refl) as Hsent. cbn [fst snd]. rewrite Hs, Hsent.
    assert (Hge : failureThreshold cb <= failureCount cb) by (apply Hopen; discriminate).
    destruct (thunk wc) as [v|v]; cbn [settle fst snd].
    + unfold onSuccess. cbn. rewrite Hs. cbn.
      repeat split; intros; try discriminate; try congruence; try lia.
    + unfold onFailure. cbn.
      destruct (Z.leb_spec (failureThreshold cb) (failureCount cb + 1)); [|lia].
      cbn. repeat split; intros; try discriminate; try congruence; try lia.
Qed.

Lemma consistent_after_calls (calls : list whole_call) :
  forall cb, consistent cb ->
             consistent (after_calls cb calls)
             /\ failureThreshold (after_calls cb calls) = failureThreshold cb.
Proof.
  unfold after_calls. induction calls as [|wc calls IH]; intros cb Hcb; [auto|].
  cbn [fold_left]. destruct (consistent_after_call cb wc Hcb) as [H1 Ht].
  destruct (IH _ H1) as [H2 Ht2]. split; [exact H2 | congruence].
Qed.

(** X13. For a breaker with a threshold of at least one whose calls do not
    overlap, [isHealthy] says exactly whether the breaker is closed; while
    it is open or half-open the failure count is at least the threshold;
    and between two calls no probe is pending, so the breaker is never
    stuck half-open. *)
Theorem healthy_iff_closed (o_threshold o_reset : option Z) (f : fallback_value)
        (calls : list whole_call) :
  1 <= failureThreshold (new o_threshold o_reset f) ->
  let cb := after_calls (new o_threshold o_reset f) calls in
  (isHealthy cb = true <-> state cb = CIRCUIT_CLOSED) /\
  (state cb <> CIRCUIT_CLOSED -> failureThreshold cb <= failureCount cb) /\
  (state cb = CIRCUIT_HALF_OPEN -> halfOpenRequestSent cb = false).
Proof.
  intros Hone cb.
  assert (Hnew : consistent (new o_threshold o_reset f)).
  { unfold consistent. repeat split; cbn in *; try lia; try discriminate.
    intros H; now elim H. }
  destruct (consistent_after_calls calls _ Hnew) as [(H1 & H0 & Hclosed & Hopen & Hprobe) _].
  fold cb in H1, H0, Hclosed, Hopen, Hprobe.
  split; [|split; assumption].
  unfold isHealthy. rewrite Bool.andb_true_iff, Z.ltb_lt. split.
  - intros [Hs _]. now destruct (state cb).
  - intros Hs. split; [now rewrite Hs | now apply Hclosed].
Qed.

(** Threshold two: a failure, a success, a failure leave the breaker
    healthy; a second failure in a row does not. *)
Lemma healthy_iff_closed_witness :
  isHealthy (after_calls (new (Some 2) None FallbackNull)
                         [mkCall 0 (Threw VNull) 1; mkCall 2 (Returned VNull) 3;
                          mkCall 4 (Threw VNull) 5]) = true /\
  isHealthy (after_calls (new (Some 2) None FallbackNull)
                         [mkCall 0 (Threw VNull) 1; mkCall 2 (Returned VNull) 3;
                          mkCall 4 (Threw VNull) 5; mkCall 6 (Threw VNull) 7]) = false.
Proof.
  split.
  - apply (proj1 (healthy_iff_closed (Some 2) None FallbackNull
                    [mkCall 0 (Threw VNull) 1; mkCall 2 (Returned VNull) 3;
                     mkCall 4 (Threw VNull) 5] ltac:(discriminate))).
    reflexivity.
  - destruct (isHealthy _) eqn:H; [|reflexivity].
    apply (proj1 (healthy_iff_closed (Some 2) None FallbackNull
                    [mkCall 0 (Threw VNull) 1; mkCall 2 (Returned VNull) 3;
                     mkCall 4 (Threw VNull) 5; mkCall 6 (Threw VNull) 7]
                    ltac:(discriminate))) in H.
    discriminate H.
Defined.

End BreakerFacts.

(** ** More of the retry loop *)

Module RetryLoopFacts.

(** The loop as [executeWithRetry] runs it, with [remaining] iterations
    to go before [attempt] passes [retryAttempts]: it never runs more
    iterations than that, calls the transport at most once per iteration,
    and sleeps only between two iterations. *)
Lemma retry_loop_bounds (s : Grab.settings) (config : Config.t)
      (script : nat -> Grab.transport) :
  forall (remaining : nat) (attempt : Z) (lastError : jsval) (w : Grab.world),
    Z.of_nat remaining = Grab.retryAttempts s - attempt + 1 ->
    let w' := snd (Grab.retry_loop s config script remaining attempt lastError w) in
    (Grab.attempts w <= Grab.attempts w' <= Grab.attempts w + remaining)%nat /\
    (0 < remaining -> Grab.attempts w < Grab.attempts w')%nat /\
    (Grab.dispatches w <= Grab.dispatches w')%nat /\
    (Grab.dispatches w' - Grab.dispatches w <= Grab.attempts w' - Grab.attempts w)%nat /\
    (List.length (Grab.slept w) <= List.length (Grab.slept w'))%nat /\
    (List.length (Grab.slept w') - List.length (Grab.slept w)
     <= Nat.pred (Grab.attempts w' - Grab.attempts w))%nat.
Proof.
  induction remaining as [|remaining IH]; intros attempt lastError w Hinv; cbn zeta.
  - cbn [Grab.retry_loop snd]. lia.
  - cbn [Grab.retry_loop].
    destruct (Grab.executeHttpRequest s config (script (Grab.dispatches w)))
      as [[v|error] called].
    + cbn [snd Grab.attempts Grab.dispatches Grab.slept]. destruct called; lia.
    + destruct (Grab.on_attempt_error s attempt error) as [finalError|delay] eqn:Hdec.
      * cbn [snd Grab.attempts Grab.dispatches Grab.slept]. destruct called; lia.
      * assert (Hnot_last : attempt <> Grab.retryAttempts s).
        { intros ->. unfold Grab.on_attempt_error in Hdec.
          rewrite Z.eqb_refl in Hdec. discriminate Hdec. }
        specialize (IH (attempt + 1) error
                       (Grab.mkWorld (S (Grab.attempts w))
                                     (if called then S (Grab.dispatches w)
                                      else Grab.dispatches w)
                                     (Grab.slept w ++ [delay]))
                       ltac:(lia)).
        cbn zeta in IH. cbn [Grab.attempts Grab.dispatches Grab.slept] in *.
        rewrite length_app in IH. cbn [List.length] in IH.
        destruct IH as (Ha & Hpos & Hd & Hd' & Hs & Hs').
        assert (0 < remaining)%nat by lia. specialize (Hpos ltac:(lia)).
        destruct called; lia.
Qed.

(** X14. Whatever the transport does, [executeWithRetry] enters
    [executeHttpRequest] at most [retryAttempts] times, calls the transport
    at most once per entry, and sleeps fewer times than it has entered;
    with [retryAttempts] at zero or below it calls nothing and throws
    [undefined]. *)
Theorem retry_never_exceeds_attempts (s : Grab.settings) (config : Config.t)
        (script : nat -> Grab.transport) (w : Grab.world) :
  let w' := snd (Grab.executeWithRetry s config script w) in
  (Grab.attempts w' - Grab.attempts w <= Z.to_nat (Grab.retryAttempts s))%nat /\
  (Grab.dispatches w' - Grab.dispatches w <= Grab.attempts w' - Grab.attempts w)%nat /\
  (List.length (Grab.slept w') - List.length (Grab.slept w)
   <= Nat.pred (Grab.attempts w' - Grab.attempts w))%nat /\
  (Grab.retryAttempts s <= 0 ->
   Grab.executeWithRetry s config script w = (Threw VUndefined, w)).
Proof.
  cbn zeta. unfold Grab.executeWithRetry.
  split; [|split; [|split]].
  4: { intros Hzero. replace (Z.to_nat (Grab.retryAttempts s)) with 0%nat by lia.
       reflexivity. }
  all: destruct (Z.leb_spec (Grab.retryAttempts s) 0) as [Hzero|Hpos];
    [ replace (Z.to_nat (Grab.retryAttempts s)) with 0%nat by lia;
      cbn [Grab.retry_loop snd]; lia
    | pose proof (retry_loop_bounds s config script (Z.to_nat (Grab.retryAttempts s)) 1
                                    VUndefined w ltac:(lia)) as H;
      cbn zeta in H; lia ].
Qed.

Lemma retry_never_exceeds_attempts_witness :
  Grab.executeWithRetry (Example.settings 0 []) (Example.request "/a" None)
                        (fun _ => Example.hangs) Example.world0
  = (Threw VUndefined, Example.world0).
Proof.
  exact (proj2 (proj2 (proj2 (retry_never_exceeds_attempts
                                (Example.settings 0 []) (Example.request "/a" None)
                                (fun _ => Example.hangs) Example.world0)))
               ltac:(discriminate)).
Defined.

(** X15. An error that the retry condition turns down ends the request at
    once: with at least one attempt configured, when the first attempt
    fails with such an error, [executeWithRetry] throws what the error
    chain makes of it after that single attempt, without sleeping; and a
    first attempt that succeeds is returned after that single attempt. *)
Theorem first_attempt_decides (s : Grab.settings) (config : Config.t)
        (script : nat -> Grab.transport) (w : Grab.world) :
  1 <= Grab.retryAttempts s ->
  (forall error called,
     Grab.executeHttpRequest s config (script (Grab.dispatches w)) = (Threw error, called) ->
     Grab.retryCondition s error = false ->
     Grab.executeWithRetry s config script w
     = (Threw (callErrorInterceptors (Grab.errorInterceptors s) error),
        Grab.mkWorld (S (Grab.attempts w))
                     (if called then S (Grab.dispatches w) else Grab.dispatches w)
                     (Grab.slept w))) /\
  (forall v called,
     Grab.executeHttpRequest s config (script (Grab.dispatches w)) = (Returned v, called) ->
     Grab.executeWithRetry s config script w
     = (Returned v,
        Grab.mkWorld (S (Grab.attempts w))
                     (if called then S (Grab.dispatches w) else Grab.dispatches w)
                     (Grab.slept w))).
Proof.
  intros Hone. unfold Grab.executeWithRetry.
  destruct (Z.to_nat (Grab.retryAttempts s)) as [|remaining] eqn:Hn; [lia|].
  split.
  - intros error called Hreq Hcond. cbn [Grab.retry_loop]. rewrite Hreq.
    unfold Grab.on_attempt_error. rewrite Hcond. cbn [negb].
    now rewrite Bool.orb_true_r.
  - intros v called Hreq. cbn [Grab.retry_loop]. now rewrite Hreq.
Qed.

(** A 418 with three attempts configured: one transport call. *)
Lemma first_attempt_decides_witness :
  Grab.dispatches
    (snd (Grab.executeWithRetry
            (Example.settings 3 []) (Example.request "/coffee" None)
            (fun _ => Example.answers (Example.handle 418 "I'm a teapot" [] DataNull))
            Example.world0)) = 1%nat.
Proof.
  rewrite (proj1 (first_attempt_decides
                    (Example.settings 3 []) (Example.request "/coffee" None)
                    (fun _ => Example.answers (Example.handle 418 "I'm a teapot" [] DataNull))
                    Example.world0 ltac:(discriminate))
                 _ true eq_refl eq_refl).
  reflexivity.
Defined.



End RetryLoopFacts.

(** ** The size limits *)

Module SizeLimitFacts.

Import SizeLimits.



(** What [executeHttpRequest] throws for an oversized response. *)
Lemma complete_oversized (s : Grab.settings) (config : Config.t)
      (p : Grab.prepared) (response : Handle.t) :
  oversized s response = true ->
  Grab.complete s config p (Grab.FetchResolves response)
  = Threw (VError (NetworkError (too_large_message s response) (Grab.p_url p))).
Proof.
  unfold oversized, too_large_message. intros H.
  apply Bool.andb_true_iff in H as [H Hlen].
  apply Bool.andb_true_iff in H as [H304 Hok].
  unfold Grab.complete, Grab.buildResponse.
  apply Bool.negb_true_iff in H304. rewrite H304, Hok. cbn [negb].
  unfold Grab.parseResponse.
  destruct (Headers.get (Handle.headers response) "content-length") as [cl|];
    [|discriminate Hlen].
  destruct (JsNumber.of_digits cl) as [n|] eqn:Hn; [|discriminate Hlen].
  apply Bool.andb_true_iff in Hlen as [Hmax Hlt]. rewrite Hmax, Hlt.
  assert (Htruthy : JsString.truthy cl = true).
  { destruct cl; [discriminate Hn | reflexivity]. }
  rewrite Htruthy. reflexivity.
Qed.

(** X18. A response whose [Content-Length] is above [maxResponseSize] is
    reported as a [NetworkError] carrying the [Response too large]
    message, whatever the response type asked for, and the default retry
    condition accepts that error: against a server that always answers
    so, a client with the default retry condition calls the transport
    [retryAttempts] times before it throws. *)
Theorem oversized_response_is_retried (s : Grab.settings) (config : Config.t)
        (p : Grab.prepared) :
  (forall response,
     oversized s response = true ->
     Grab.complete s config p (Grab.FetchResolves response)
     = Threw (VError (NetworkError (too_large_message s response) (Grab.p_url p))) /\
     defaultRetryCondition
       (VError (NetworkError (too_large_message s response) (Grab.p_url p))) = true) /\
  (forall script w,
     Grab.prepare s config = inl p ->
     always_oversized s config p script ->
     Grab.retryCondition s = defaultRetryCondition ->
     0 <= Grab.retryAttempts s ->
     exists e w',
       Grab.executeWithRetry s config script w = (Threw e, w') /\
       Grab.dispatches w'
       = (Grab.dispatches w + Z.to_nat (Grab.retryAttempts s))%nat).
Proof.
  split.
  - intros response Hover. split; [now apply complete_oversized | reflexivity].
  - intros script w Hprep Halways Hcond Hnonneg.
    assert (Hfail : Grab.always_failing s config script).
    { intros n. destruct (Halways n) as (Hlive & response & Hwith & Hover).
      exists (VError (NetworkError (too_large_message s response) (Grab.p_url p))).
      split; [|now rewrite Hcond].
      unfold Grab.executeHttpRequest. rewrite Hprep. unfold Grab.await_fetch.
      rewrite Hlive, Hwith. now rewrite complete_oversized. }
    destruct (RetryFacts.retry_loop_always_failing
                s config script Hfail (Z.to_nat (Grab.retryAttempts s)) 1 VUndefined w
                ltac:(lia))
      as (e & w' & Hrun & Hd & _).
    exists e, w'. split; [exact Hrun | exact Hd].
Qed.

(** A server that always announces a body of 100 MB, against the limit of
    50 MB and three attempts: three transport calls. *)
Lemma oversized_response_is_retried_witness :
  let big := Example.handle 200 "OK" [("Content-Length", "104857600")] DataNull in
  exists e w',
    Grab.executeWithRetry (Example.settings 3 []) (Example.request "/a" None)
                          (fun _ => Example.answers big) Example.world0
    = (Threw e, w') /\
    Grab.dispatches w' = 3%nat.
Proof.
  cbv zeta.
  destruct (Grab.prepare (Example.settings 3 []) (Example.request "/a" None))
    as [p|e] eqn:Hp; [|discriminate Hp].
  refine (proj2 (oversized_response_is_retried
                   (Example.settings 3 []) (Example.request "/a" None) p)
                (fun _ => Example.answers
                            (Example.handle 200 "OK" [("Content-Length", "104857600")]
                                            DataNull))
                Example.world0 Hp _ eq_refl ltac:(discriminate)).
  intros n. injection Hp as <-. split; [reflexivity|].
  eexists. split; reflexivity.
Defined.

End SizeLimitFacts.

(** ** What the cacheable path stores and serves *)

Module CachedPathFacts.

Lemma authCache_set (h : HttpCache.t) (k : string) (d : Resp.t)
      (customTtl : option Z) (tag : option string) (now : Z) :
  HttpCache._authCache (HttpCache.set h k d customTtl tag now) = HttpCache._authCache h.
Proof.
  unfold HttpCache.set, HttpCache._scheduleCleanup.
  destruct (_ && _)%bool; [destruct (JsMap.first_key _)|];
    (destruct tag as [tg|]; [destruct (JsString.truthy tg)|]); cbn;
    match goal with |- context [if ?b then _ else _] => destruct b end; reflexivity.
Qed.

(** A response that [executeHttpRequest] returns is a 304 or is [ok]. *)
Lemma complete_ok (s : Grab.settings) (config : Config.t) (p : Grab.prepared)
      (fo : Grab.fetch_outcome) (r : Resp.t) :
  Grab.complete s config p fo = Returned (VResponse r) ->
  Resp.status r <> 304 -> Resp.ok r = true.
Proof.
  unfold Grab.complete. destruct fo as [response|error]; [|discriminate].
  unfold Grab.buildResponse.
  destruct (Z.eqb_spec (Handle.status response) 304) as [H304|H304].
  - intros H. injection H as <-. cbn. congruence.
  - destruct (Handle.ok response) eqn:Hok; cbn [negb]; [|discriminate].
    destruct (Grab.parseResponse _ _ _); [|discriminate].
    intros H. injection H as <-. reflexivity.
Qed.

(** The promise of a pipeline whose [call] has fulfilled with a response
    that is [ok] and not a 304 is fulfilled with that response, which is
    stored; the same request made next, no later than the expiry, is
    answered with it from the cache, past the breaker and the
    transport. *)
Lemma fulfilled_then_served (s : Grab.settings) (c1 : Grab.client)
      (config : Config.t) (url k : string) (promise : nat) (ph : Grab.phase)
      (r : Resp.t) (rest : list (nat * Grab.task)) (t1 t2 : Z) :
  Grab.resolveUrl s (Config.url config) = inl url ->
  HttpCache.memoised (Grab.cache c1) k "GET" url (Config.params config)
                     (Config.headers config) ->
  Grab.tasks c1 = (promise, Grab.mkTask k ph) :: rest ->
  ph = Grab.ThunkSettled (Returned (VResponse r))
  \/ ph = Grab.GateSettled (Returned (VResponse r)) ->
  Resp.ok r = true -> Resp.status r <> 304 ->
  t2 <= t1 + HttpCache.ttl (Grab.cache c1) ->
  exists c2 c3,
    Grab.step s c1 (Grab.PromiseSettles promise t1) = (c2, None) /\
    Grab.find_result promise (Grab.results c2) = Some (Returned (VResponse r)) /\
    Grab.cacheableRequest s c2 config t2
    = (Grab.Answers (Returned (VResponse (Resp.with_fromCache r true))), c3) /\
    Grab.transport_calls c3 = Grab.transport_calls c1 /\
    Grab.circuitBreaker c3 = Grab.circuitBreaker c2 /\
    (ph = Grab.GateSettled (Returned (VResponse r)) ->
     Grab.circuitBreaker c2 = Grab.circuitBreaker c1).
Proof.
  intros Hurl Hmemo Htasks Hph Hok H304 Htime.
  assert (Hthen : Grab.then_callback (Grab.cache c1) k (VResponse r) t1
                  = (Returned (VResponse r),
                     HttpCache.set (Grab.cache c1) k r None
                                   (Headers.get (Resp.headers r) "etag") t1)).
  { unfold Grab.then_callback. cbn [Grab.status_of].
    destruct (Z.eqb_spec (Resp.status r) 304) as [|_]; [contradiction|].
    now rewrite Hok. }
  set (stored := HttpCache.set (Grab.cache c1) k r None
                               (Headers.get (Resp.headers r) "etag") t1) in *.
  assert (Hfinish : exists b,
             Grab.step s c1 (Grab.PromiseSettles promise t1)
             = (Grab.mkClient (HttpCache.untrack stored k) b
                              (Grab.remove_task promise (Grab.tasks c1))
                              ((promise, Returned (VResponse r)) :: Grab.results c1)
                              (Grab.next_promise c1) (Grab.transport_calls c1), None)
             /\ (ph = Grab.GateSettled (Returned (VResponse r)) ->
                 b = Grab.circuitBreaker c1)).
  { destruct Hph as [-> | ->]; eexists; (split; [|shelve]);
      cbn [Grab.step]; rewrite Htasks; cbn [Grab.find_task]; rewrite Nat.eqb_refl;
      unfold Grab.finish; cbn [Grab.t_phase Grab.t_key CircuitBreaker.settle];
      rewrite Hthen; rewrite <- Htasks; reflexivity.
    Unshelve. all: [> discriminate | reflexivity]. }
  destruct Hfinish as (b & Hstep & Hgate).
  eexists _, _. split; [exact Hstep|].
  split; [cbn [Grab.results Grab.find_result]; now rewrite Nat.eqb_refl|].
  assert (Hmemo2 : HttpCache.memoised (HttpCache.untrack stored k) k "GET" url
                                      (Config.params config) (Config.headers config)).
  { apply (HttpCacheFacts.memoised_same_memo (Grab.cache c1)); [|exact Hmemo].
    unfold stored. cbn. apply authCache_set. }
  assert (Hget : HttpCache.get (HttpCache.untrack stored k) k t2
                 = (Some (Resp.with_fromCache r true),
                    HttpCache.with_cache
                      (HttpCache.untrack stored k)
                      (JsMap.set k (HttpCache.mkEntry
                                      r (t1 + HttpCache.ttl (Grab.cache c1))
                                      (Headers.get (Resp.headers r) "etag"))
                                 (JsMap.delete k (HttpCache.cache stored))))).
  { unfold HttpCache.get. cbn [HttpCache.untrack HttpCache.with_pending HttpCache.cache].
    unfold stored at 1. rewrite HttpCacheFacts.set_records.
    cbn [HttpCache.expires HttpCache.data or_default].
    destruct (Z.ltb_spec (t1 + HttpCache.ttl (Grab.cache c1)) t2); [lia | reflexivity]. }
  unfold Grab.cacheableRequest. rewrite Hurl. cbn [Grab.cache].
  rewrite (HttpCacheFacts.key_memoised _ _ _ _ _ _ Hmemo2).
  assert (Hpending : HttpCache.getPending (HttpCache.untrack stored k) k = None).
  { unfold HttpCache.getPending, HttpCache.untrack. cbn. apply JsMapFacts.get_delete_eq. }
  rewrite Hpending, Hget. split; [reflexivity|].
  cbn. repeat split. exact Hgate.
Qed.

(** What a request that starts a pipeline has done: the breaker has been
    entered, and the pipeline waits behind the rejection of the gate or
    where the first attempt has brought it. *)
Lemma request_starts_phase (s : Grab.settings) (c c1 : Grab.client)
      (config : Config.t) (now : Z) (promise : nat) :
  Grab.cacheableRequest s c config now = (Grab.Starts promise, c1) ->
  exists url cacheKey config1,
    Grab.resolveUrl s (Config.url config) = inl url /\
    HttpCache.memoised (Grab.cache c1) cacheKey "GET" url (Config.params config)
                       (Config.headers config) /\
    Grab.circuitBreaker c1 = snd (CircuitBreaker.enter (Grab.circuitBreaker c) now) /\
    let started :=
      match fst (CircuitBreaker.enter (Grab.circuitBreaker c) now) with
      | CircuitBreaker.Rejected o => (Grab.GateSettled o, false)
      | CircuitBreaker.Allowed => Grab.start_attempt s config1 1 VUndefined
      end in
    Grab.tasks c1 = (promise, Grab.mkTask cacheKey (fst started)) :: Grab.tasks c /\
    Grab.transport_calls c1
    = (if snd started then S (Grab.transport_calls c) else Grab.transport_calls c).
Proof.
  unfold Grab.cacheableRequest.
  destruct (Grab.resolveUrl s (Config.url config)) as [url|e]; [|discriminate].
  pose proof (HttpCacheFacts.key_memoises (Grab.cache c) "GET" url
                (Config.params config) (Config.headers config)) as Hmemo.
  destruct (HttpCache.key (Grab.cache c) "GET" url (Config.params config)
                          (Config.headers config)) as [cacheKey cache1].
  cbn [fst snd] in Hmemo.
  destruct (HttpCache.getPending cache1 cacheKey); [discriminate|].
  pose proof (HttpCacheFacts.authCache_get cache1 cacheKey now) as Hsame.
  destruct (HttpCache.get cache1 cacheKey now) as [cached cache2].
  cbn [snd] in Hsame.
  destruct cached; [discriminate|].
  destruct (CircuitBreaker.enter (Grab.circuitBreaker c) now) as [g breaker1].
  cbn [fst snd].
  match goal with
  | |- context [Grab.start_attempt s ?cfg 1 VUndefined] => set (config1 := cfg)
  end.
  match goal with
  | |- context [let (ph, called) := ?x in _] => destruct x as [ph called] eqn:Hstarted
  end.
  intros H. injection H as <- <-.
  exists url, cacheKey, config1. split; [reflexivity|]. split; [|split; [reflexivity|]].
  - apply (HttpCacheFacts.memoised_same_memo cache1); [exact Hsame | exact Hmemo].
  - cbn zeta. rewrite Hstarted. cbn [fst snd Grab.tasks Grab.transport_calls].
    split; reflexivity.
Qed.

(** X19. A response that is [ok] and not a 304 is stored when its promise
    settles, and serves the same request from then on until it expires:
    after a request that has started a pipeline and whose transport call
    is answered with such a response, the same request made next, no later
    than [ttl] after the settlement, is answered with that response marked
    [fromCache], and the transport has been called once in all. *)
Theorem response_served_from_cache (s : Grab.settings) (c c1 : Grab.client)
        (config config1 : Config.t) (now t1 t2 : Z) (promise : nat) (k : string)
        (attempt : Z) (p : Grab.prepared) (fo : Grab.fetch_outcome) (r : Resp.t) :
  Grab.cacheableRequest s c config now = (Grab.Starts promise, c1) ->
  Grab.tasks c1
  = (promise, Grab.mkTask k (Grab.AwaitingTransport attempt config1 p)) :: Grab.tasks c ->
  Grab.complete s config1 p fo = Returned (VResponse r) ->
  Resp.status r <> 304 ->
  t2 <= t1 + HttpCache.ttl (Grab.cache c1) ->
  exists c3,
    Grab.run s c1 [Grab.TransportSettles promise fo; Grab.PromiseSettles promise t1;
                   Grab.Request config t2]
    = (c3, [Grab.Answers (Returned (VResponse (Resp.with_fromCache r true)))]) /\
    Grab.transport_calls c3 = S (Grab.transport_calls c).
Proof.
  intros Hstart Htasks Hcomplete H304 Htime.
  destruct (PipelineFacts.request_starts s c c1 config now promise Hstart)
    as (url & cacheKey & ph & Hurl & Hmemo & _ & Htasks' & Hcalls).
  rewrite Htasks in Htasks'. injection Htasks' as -> <-. cbn [Grab.awaiting] in Hcalls.
  pose proof (complete_ok s config1 p fo r Hcomplete H304) as Hok.
  set (c1' := Grab.mkClient (Grab.cache c1) (Grab.circuitBreaker c1)
                            (Grab.set_phase promise
                                            (Grab.ThunkSettled (Returned (VResponse r)))
                                            (Grab.tasks c1))
                            (Grab.results c1) (Grab.next_promise c1)
                            (Grab.transport_calls c1)).
  assert (Hfirst : Grab.step s c1 (Grab.TransportSettles promise fo) = (c1', None)).
  { cbn [Grab.step]. rewrite Htasks at 1. cbn [Grab.find_task].
    rewrite Nat.eqb_refl, Hcomplete. reflexivity. }
  destruct (fulfilled_then_served
              s c1' config url cacheKey promise
              (Grab.ThunkSettled (Returned (VResponse r))) r
              (Grab.set_phase promise (Grab.ThunkSettled (Returned (VResponse r)))
                              (Grab.tasks c))
              t1 t2 Hurl Hmemo)
    as (c2 & c3 & Hsecond & _ & Hthird & Hsame & _); auto.
  { unfold c1'. cbn [Grab.tasks]. rewrite Htasks. cbn [Grab.set_phase map fst snd Grab.t_key].
    now rewrite Nat.eqb_refl. }
  exists c3. cbn [Grab.run]. rewrite Hfirst, Hsecond. cbn [Grab.step]. rewrite Hthird.
  split; [reflexivity|]. rewrite Hsame. unfold c1'. cbn [Grab.transport_calls]. exact Hcalls.
Qed.

Lemma response_served_from_cache_witness :
  let s := Example.settings 3 [] in
  let c := Grab.fresh (HttpCache.new None None None)
                      (CircuitBreaker.new None None CircuitBreaker.FallbackNull) in
  let config := Example.request "/b" None in
  let ok200 :=
    Grab.FetchResolves
      (Example.handle 200 "OK" [("content-type", "application/json")]
                      (DataJson "{}")) in
  exists c3 r,
    Grab.run s (snd (Grab.cacheableRequest s c config 0))
             [Grab.TransportSettles 0 ok200; Grab.PromiseSettles 0 10;
              Grab.Request config (10 + DEFAULT_CACHE_TTL)]
    = (c3, [Grab.Answers (Returned (VResponse r))]) /\
    Resp.data r = DataJson "{}" /\ Resp.fromCache r = Some true /\
    Grab.transport_calls c3 = 1%nat.
Proof.
  cbv zeta.
  destruct (response_served_from_cache
              (Example.settings 3 [])
              (Grab.fresh (HttpCache.new None None None)
                          (CircuitBreaker.new None None CircuitBreaker.FallbackNull))
              _ (Example.request "/b" None) _ 0 10 (10 + DEFAULT_CACHE_TTL) 0%nat _ _ _
              (Grab.FetchResolves
                 (Example.handle 200 "OK" [("content-type", "application/json")]
                                 (DataJson "{}")))
              _ eq_refl eq_refl eq_refl ltac:(discriminate) ltac:(discriminate))
    as (c3 & Hrun & Hcalls).
  eexists c3, _. split; [exact Hrun|]. repeat split. exact Hcalls.
Defined.

(** X20. The value of the breaker's fallback goes through the same [then]
    callback as a response of the transport: when a request is turned away
    by the breaker and the configured fallback returns a response object
    (headers included) that is [ok] and not a 304, that object is stored
    under the request's fingerprint, and the same request made next, no
    later than [ttl] after the settlement, is answered with it from the
    cache; the breaker is not consulted for that answer and the transport
    has not been called. *)
Theorem fallback_response_is_cached (s : Grab.settings) (c c1 : Grab.client)
        (config : Config.t) (now t1 t2 : Z) (promise : nat) (r : Resp.t) :
  CircuitBreaker.rejecting (Grab.circuitBreaker c) now ->
  CircuitBreaker.fallback (Grab.circuitBreaker c)
  = CircuitBreaker.FallbackFunction (Returned (VResponse r)) ->
  Resp.ok r = true -> Resp.status r <> 304 ->
  Grab.cacheableRequest s c config now = (Grab.Starts promise, c1) ->
  t2 <= t1 + HttpCache.ttl (Grab.cache c1) ->
  exists c3,
    Grab.run s c1 [Grab.PromiseSettles promise t1; Grab.Request config t2]
    = (c3, [Grab.Answers (Returned (VResponse (Resp.with_fromCache r true)))]) /\
    Grab.circuitBreaker c3 = Grab.circuitBreaker c /\
    Grab.transport_calls c3 = Grab.transport_calls c.
Proof.
  intros Hrej Hfallback Hok H304 Hstart Htime.
  destruct (request_starts_phase s c c1 config now promise Hstart)
    as (url & cacheKey & config1 & Hurl & Hmemo & Hbreaker & Hrest).
  rewrite (CircuitBreakerFacts.enter_rejecting _ _ Hrej) in Hbreaker, Hrest.
  cbn [fst snd] in Hbreaker, Hrest. destruct Hrest as [Htasks Hcalls].
  unfold CircuitBreaker.this_fallback in Htasks. rewrite Hfallback in Htasks.
  destruct (fulfilled_then_served
              s c1 config url cacheKey promise
              (Grab.GateSettled (Returned (VResponse r))) r (Grab.tasks c)
              t1 t2 Hurl Hmemo Htasks)
    as (c2 & c3 & Hfirst & _ & Hsecond & Hsame & Hb3 & Hb2); auto.
  exists c3. cbn [Grab.run]. rewrite Hfirst. cbn [Grab.step]. rewrite Hsecond.
  split; [reflexivity|]. split; [|congruence].
  rewrite Hb3, (Hb2 eq_refl). exact Hbreaker.
Qed.

(** An open breaker whose fallback returns a canned 200: the canned
    response is what the next request gets from the cache. *)
Lemma fallback_response_is_cached_witness :
  let canned := Resp.mk true 200 "OK" [] "https://api.example.com/b"
                        (DataJson "[]") FieldAbsent None in
  let breaker :=
    CircuitBreaker.mk 5 60000 (CircuitBreaker.FallbackFunction (Returned (VResponse canned)))
                      CircuitBreaker.CIRCUIT_OPEN 5 (Some 0) 0 false in
  let s := Example.settings 3 [] in
  let c := Grab.fresh (HttpCache.new None None None) breaker in
  let config := Example.request "/b" None in
  exists c3,
    Grab.run s (snd (Grab.cacheableRequest s c config 1000))
             [Grab.PromiseSettles 0 1001; Grab.Request config 200000]
    = (c3, [Grab.Answers (Returned (VResponse (Resp.with_fromCache canned true)))]) /\
    Grab.transport_calls c3 = 0%nat.
Proof.
  cbv zeta.
  destruct (fallback_response_is_cached
              (Example.settings 3 [])
              (Grab.fresh
                 (HttpCache.new None None None)
                 (CircuitBreaker.mk
                    5 60000
                    (CircuitBreaker.FallbackFunction
                       (Returned (VResponse (Resp.mk true 200 "OK" []
                                                     "https://api.example.com/b"
                                                     (DataJson "[]") FieldAbsent None))))
                    CircuitBreaker.CIRCUIT_OPEN 5 (Some 0) 0 false))
              _ (Example.request "/b" None) 1000 1001 200000 0%nat _
              (or_introl (conj eq_refl eq_refl)) eq_refl eq_refl ltac:(discriminate)
              eq_refl ltac:(discriminate))
    as (c3 & Hrun & _ & Hcalls).
  exists c3. split; [exact Hrun | exact Hcalls].
Defined.

End CachedPathFacts.

(** ** What a request is sent with *)

Module RequestFacts.

(** *** Headers *)

Lemma get_absent {V : Type} (k : string) (m : JsMap.t V) :
  ~ In k (JsMap.keys m) -> JsMap.get k m = None.
Proof.
  intros Hout. destruct (JsMap.get k m) eqn:Hget; [|reflexivity].
  elim Hout. apply JsMapOrder.get_in_keys. congruence.
Qed.

(** A key that the right operand of a spread does not have keeps the
    value of the left operand. *)
Lemma get_spread_absent {V : Type} (k : string) (b : JsMap.t V) :
  forall a, ~ In k (JsMap.keys b) -> JsMap.get k (spread a b) = JsMap.get k a.
Proof.
  unfold spread. induction b as [|[k1 v1] b IH]; intros a Hout; [reflexivity|].
  cbn [fold_left fst snd]. rewrite IH.
  - apply JsMapFacts.get_set_ne. intros ->. apply Hout. now left.
  - intros Hin. apply Hout. now right.
Qed.

(** In [{ ...a, ...b }] a property of [b] wins over one of [a]. *)
Lemma get_spread {V : Type} (k : string) (b : JsMap.t V) :
  forall a, NoDup (JsMap.keys b) ->
            JsMap.get k (spread a b)
            = match JsMap.get k b with Some v => Some v | None => JsMap.get k a end.
Proof.
  induction b as [|[k1 v1] b IH]; intros a Hnd; [reflexivity|].
  change (JsMap.keys ((k1, v1) :: b)) with (k1 :: JsMap.keys b) in Hnd.
  apply NoDup_cons_iff in Hnd as [Hout Hnd].
  change (spread a ((k1, v1) :: b)) with (spread (JsMap.set k1 v1 a) b).
  cbn [JsMap.get]. destruct (String.eqb_spec k1 k) as [->|Hne].
  - rewrite (get_spread_absent k b _ Hout). apply JsMapFacts.get_set_eq.
  - rewrite (IH _ Hnd). now rewrite (JsMapFacts.get_set_ne k1 k v1 a Hne).
Qed.

Lemma get_spread_present {V : Type} (k : string) (b : JsMap.t V) :
  forall a, JsMap.get k a <> None -> JsMap.get k (spread a b) <> None.
Proof.
  unfold spread. induction b as [|[k1 v1] b IH]; intros a Hin; [exact Hin|].
  cbn [fold_left fst snd]. apply IH.
  destruct (String.eqb_spec k1 k) as [->|Hne].
  - now rewrite JsMapFacts.get_set_eq.
  - now rewrite (JsMapFacts.get_set_ne k1 k v1 a Hne).
Qed.

(** The headers of the options that [buildFetchOptions] returns. *)
Lemma options_headers (s : Grab.settings) (config : Config.t)
      (options : Grab.fetch_options) :
  Grab.buildFetchOptions s config = inl options ->
  Grab.o_headers options
  = match Config.body config with
    | BodyFormData =>
        JsMap.delete "content-type"
          (JsMap.delete "Content-Type"
             (spread (spread [] (Grab.defaultHeaders s)) (Config.headers config)))
    | _ => spread (spread [] (Grab.defaultHeaders s)) (Config.headers config)
    end.
Proof.
  unfold Grab.buildFetchOptions.
  destruct (_ && _)%bool;
    [destruct (Grab.body_size (Config.body config)) as [size|e];
     [destruct (Grab.maxRequestSize s <? size)|]|];
    try discriminate;
    (destruct (Config.body config) as [|text|n| |[text|message]| |];
     try discriminate; intros H; injection H as <-; reflexivity).
Qed.

(** X21. The headers of a request are the default headers of the client
    overridden, name by name and with the case of the name as it is
    written, by the headers of the request; for a [FormData] body the two
    spellings [Content-Type] and [content-type] are then left out. *)
Theorem request_headers_merge (s : Grab.settings) (config : Config.t)
        (options : Grab.fetch_options) (name : string) :
  NoDup (JsMap.keys (Grab.defaultHeaders s)) ->
  NoDup (JsMap.keys (Config.headers config)) ->
  Grab.buildFetchOptions s config = inl options ->
  (Config.body config = BodyFormData ->
   name = "Content-Type" \/ name = "content-type" ->
   JsMap.get name (Grab.o_headers options) = None) /\
  (Config.body config <> BodyFormData
   \/ (name <> "Content-Type" /\ name <> "content-type") ->
   JsMap.get name (Grab.o_headers options)
   = match JsMap.get name (Config.headers config) with
     | Some v => Some v
     | None => JsMap.get name (Grab.defaultHeaders s)
     end).
Proof.
  intros Hdefaults Hheaders Hbuild.
  rewrite (options_headers s config options Hbuild).
  assert (Hmerged :
            JsMap.get name (spread (spread [] (Grab.defaultHeaders s))
                                   (Config.headers config))
            = match JsMap.get name (Config.headers config) with
              | Some v => Some v
              | None => JsMap.get name (Grab.defaultHeaders s)
              end).
  { rewrite (get_spread name _ _ Hheaders), (get_spread name _ _ Hdefaults).
    now destruct (JsMap.get name (Grab.defaultHeaders s)). }
  split.
  - intros -> [-> | ->].
    + rewrite JsMapFacts.get_delete_ne by discriminate. apply JsMapFacts.get_delete_eq.
    + apply JsMapFacts.get_delete_eq.
  - intros Hrest. destruct (Config.body config); try exact Hmerged.
    destruct Hrest as [Hbody | [Hupper Hlower]]; [now elim Hbody|].
    rewrite !JsMapFacts.get_delete_ne by congruence. exact Hmerged.
Qed.

(** A request that gives [Accept] and, in lower case, [content-type]:
    the default [Content-Type] stays beside the caller's spelling. *)
Lemma request_headers_merge_witness :
  let config := Config.mk (Some "GET") "/a" []
                          [("Accept", "text/plain"); ("content-type", "text/csv")]
                          BodyNone None None None None None in
  exists options,
    Grab.buildFetchOptions (Example.settings 3 []) config = inl options /\
    JsMap.get "Content-Type" (Grab.o_headers options) = Some "application/json" /\
    JsMap.get "content-type" (Grab.o_headers options) = Some "text/csv".
Proof.
  cbv zeta. eexists. split; [reflexivity|]. split.
  - refine (proj2 (request_headers_merge
                     (Example.settings 3 [])
                     (Config.mk (Some "GET") "/a" []
                                [("Accept", "text/plain"); ("content-type", "text/csv")]
                                BodyNone None None None None None)
                     _ "Content-Type" _ _ eq_refl) (or_introl _)).
    + repeat constructor; cbn; intuition discriminate.
    + repeat constructor; cbn; intuition discriminate.
    + discriminate.
  - reflexivity.
Defined.

(** The names that [normalizeHeaders] keeps are names of the object it is
    given. *)
Lemma clean_absent (k : string) (entries : list (string * option string)) :
  forall acc : JsMap.t string,
    ~ In k (map fst entries) -> JsMap.get k acc = None ->
    JsMap.get k
      (fold_left
         (fun acc kv =>
            match snd kv with
            | Some v => if JsString.truthy (fst kv) then JsMap.set (fst kv) v acc else acc
            | None => acc
            end)
         entries acc) = None.
Proof.
  induction entries as [|[k1 v1] entries IH]; intros acc Hout Hacc; [exact Hacc|].
  cbn [fold_left fst snd]. apply IH.
  - intros Hin. apply Hout. now right.
  - destruct v1 as [v|]; [|exact Hacc].
    destruct (JsString.truthy k1); [|exact Hacc].
    rewrite JsMapFacts.get_set_ne; [exact Hacc|].
    intros ->. apply Hout. now left.
Qed.

Lemma NoDup_keys_spread {V : Type} (b : JsMap.t V) :
  forall a, NoDup (JsMap.keys a) -> NoDup (JsMap.keys (spread a b)).
Proof.
  unfold spread. induction b as [|[k1 v1] b IH]; intros a Hnd; [exact Hnd|].
  cbn [fold_left fst snd]. apply IH. now apply JsMapOrder.NoDup_keys_set.
Qed.

Lemma normalizeHeaders_NoDup (h : option (list (string * option string))) :
  NoDup (JsMap.keys (Options.normalizeHeaders h)).
Proof.
  assert (Hone : NoDup (JsMap.keys [("Content-Type", "application/json")])).
  { cbn. constructor; [intros [] | constructor]. }
  unfold Options.normalizeHeaders. destruct h as [entries|]; [|exact Hone].
  match goal with |- context [fold_left ?f entries []] => destruct (fold_left f entries []) end;
    [exact Hone|].
  apply NoDup_keys_spread. apply NoDup_keys_spread. constructor.
Qed.

Lemma normalizeHeaders_content_type (h : option (list (string * option string))) :
  JsMap.get "Content-Type" (Options.normalizeHeaders h) <> None /\
  ((forall entries, h = Some entries -> ~ In "Content-Type" (map fst entries)) ->
   JsMap.get "Content-Type" (Options.normalizeHeaders h) = Some "application/json").
Proof.
  unfold Options.normalizeHeaders. destruct h as [entries|]; [|split; [discriminate|reflexivity]].
  match goal with |- context [fold_left ?f entries []] => set (clean := fold_left f entries []) end.
  split.
  - destruct clean; [discriminate|]. now apply get_spread_present.
  - intros Hout. specialize (Hout entries eq_refl).
    assert (Hclean : JsMap.get "Content-Type" clean = None)
      by (apply clean_absent; [exact Hout | reflexivity]).
    destruct clean as [|kv clean']; [reflexivity|].
    rewrite get_spread_absent; [reflexivity|].
    intros Hin. apply JsMapOrder.get_in_keys in Hin. now elim Hin.
Qed.

(** X22. Every request of a client whose body is not a [FormData] carries
    a [Content-Type] header, bodiless requests included: the constructor
    puts [Content-Type: application/json] into the default headers
    whatever it is given, and [buildFetchOptions] sends the default
    headers with every request. The value is [application/json] unless the
    constructor or the request names [Content-Type] in that spelling. *)
Theorem content_type_always_sent (s : Grab.settings)
        (h : option (list (string * option string))) (config : Config.t)
        (options : Grab.fetch_options) :
  Grab.defaultHeaders s = Options.normalizeHeaders h ->
  Grab.buildFetchOptions s config = inl options ->
  Config.body config <> BodyFormData ->
  (exists v, JsMap.get "Content-Type" (Grab.o_headers options) = Some v) /\
  ((forall entries, h = Some entries -> ~ In "Content-Type" (map fst entries)) ->
   ~ In "Content-Type" (JsMap.keys (Config.headers config)) ->
   JsMap.get "Content-Type" (Grab.o_headers options) = Some "application/json").
Proof.
  intros Hdefaults Hbuild Hbody.
  rewrite (options_headers s config options Hbuild), Hdefaults.
  destruct (normalizeHeaders_content_type h) as [Hpresent Hvalue].
  assert (Hinner : JsMap.get "Content-Type" (spread [] (Options.normalizeHeaders h))
                   = JsMap.get "Content-Type" (Options.normalizeHeaders h)).
  { rewrite (get_spread _ _ _ (normalizeHeaders_NoDup h)).
    now destruct (JsMap.get "Content-Type" (Options.normalizeHeaders h)). }
  split.
  - destruct (JsMap.get "Content-Type"
                (spread (spread [] (Options.normalizeHeaders h)) (Config.headers config)))
      as [v|] eqn:Hget.
    + exists v. destruct (Config.body config); try exact Hget. now elim Hbody.
    + exfalso. revert Hget. apply get_spread_present. now rewrite Hinner.
  - intros Hctor Hrequest.
    assert (Hget : JsMap.get "Content-Type"
                     (spread (spread [] (Options.normalizeHeaders h))
                             (Config.headers config))
                   = Some "application/json").
    { rewrite (get_spread_absent _ _ _ Hrequest), Hinner. now apply Hvalue. }
    destruct (Config.body config); try exact Hget. now elim Hbody.
Qed.

(** A [GET] without headers or body on a client built without headers. *)
Lemma content_type_always_sent_witness :
  exists options,
    Grab.buildFetchOptions (Example.settings 3 []) (Example.request "/a" None)
    = inl options /\
    JsMap.get "Content-Type" (Grab.o_headers options) = Some "application/json".
Proof.
  eexists. split; [reflexivity|].
  refine (proj2 (content_type_always_sent
                   (Example.settings 3 []) None (Example.request "/a" None)
                   _ eq_refl eq_refl _) _ _).
  - discriminate.
  - discriminate.
  - intros [].
Defined.

(** *** URLs *)

Lemma prefix_cons (a b : ascii) (s1 s2 : string) :
  String.prefix (String a s1) (String b s2) = (Ascii.eqb a b && String.prefix s1 s2)%bool.
Proof.
  cbn [String.prefix]. destruct (ascii_dec a b) as [->|Hne].
  - now rewrite Ascii.eqb_refl.
  - now destruct (Ascii.eqb_spec a b).
Qed.

Lemma starts_with_slashes (s : string) :
  JsString.startsWith s "//"
  = match s with
    | String c1 (String c2 _) => (Ascii.eqb c1 "/" && Ascii.eqb c2 "/")%bool
    | _ => false
    end.
Proof.
  unfold JsString.startsWith.
  destruct s as [|c1 [|c2 r]]; [reflexivity| |].
  - rewrite prefix_cons. cbn [String.prefix]. apply Bool.andb_false_r.
  - rewrite !prefix_cons.
    replace (String.prefix EmptyString r) with true by now destruct r.
    rewrite Bool.andb_true_r.
    now rewrite (Ascii.eqb_sym "/" c1), (Ascii.eqb_sym "/" c2).
Qed.

Lemma absolute_not_slashes (url : string) :
  (JsString.startsWith url "http://" || JsString.startsWith url "https://")%bool = true ->
  JsString.startsWith url "//" = false.
Proof.
  rewrite starts_with_slashes. unfold JsString.startsWith.
  destruct url as [|c1 [|c2 r]]; try reflexivity.
  rewrite !prefix_cons. destruct (Ascii.eqb_spec "h" c1) as [<-|H1]; [reflexivity|].
  discriminate.
Qed.

Lemma strip_trailing_slash_cons (c : ascii) (r : string) :
  Url.strip_trailing_slash (String c r)
  = if (Ascii.eqb c "/" && match r with EmptyString => true | _ => false end)%bool
    then EmptyString
    else String c (Url.strip_trailing_slash r).
Proof.
  destruct c as [[] [] [] [] [] [] [] []]; destruct r; reflexivity.
Qed.

(** The base URL kept by the constructor, followed by a slash, starts with
    two slashes only if the option did. *)
Lemma base_not_slashes (u rest : string) :
  JsString.startsWith u "//" = false ->
  Url.strip_trailing_slash u = EmptyString \/
  JsString.startsWith (Url.strip_trailing_slash u ++ "/" ++ rest) "//" = false.
Proof.
  rewrite !starts_with_slashes.
  destruct u as [|c1 [|c2 r]]; intros Hu; [now left| |].
  - rewrite strip_trailing_slash_cons. cbn [andb].
    destruct (Ascii.eqb c1 "/") eqn:E1; cbn [andb]; [now left|].
    right. cbn. now rewrite E1.
  - right. rewrite strip_trailing_slash_cons. rewrite Bool.andb_false_r.
    rewrite strip_trailing_slash_cons.
    destruct (Ascii.eqb c2 "/" && match r with EmptyString => true | _ => false end)%bool
      eqn:E2.
    + apply Bool.andb_true_iff in E2 as [E2 _]. rewrite E2, Bool.andb_true_r in Hu.
      cbn. now rewrite Hu.
    + cbn. exact Hu.
Qed.

(** Appending a query does not make a URL start with two slashes. *)
Lemma query_not_slashes (url separator rest : string) :
  separator = "?" \/ separator = "&" ->
  JsString.startsWith url "//" = false ->
  JsString.startsWith (url ++ separator ++ rest) "//" = false.
Proof.
  rewrite !starts_with_slashes.
  intros Hsep. destruct url as [|c1 [|c2 r]]; intros Hu.
  - destruct Hsep as [-> | ->]; cbn; now destruct rest.
  - destruct Hsep as [-> | ->]; cbn; apply Bool.andb_false_r.
  - exact Hu.
Qed.

(** X23. Unless the [baseUrl] option itself starts with two slashes, no
    request goes to a protocol-relative URL: the URL that
    [executeHttpRequest] hands to the transport never starts with [//],
    whatever the request's URL and parameters ([resolveUrl] refuses such a
    URL, and neither the base URL kept by the constructor nor the query
    appended by [buildUrl] can produce one). *)
Theorem never_protocol_relative (s : Grab.settings) (valid : string -> bool)
        (option_baseUrl : option string) (config : Config.t) (p : Grab.prepared) :
  Grab.baseUrl s = Options.normalizeBaseUrl valid option_baseUrl ->
  (forall u, option_baseUrl = Some u -> JsString.startsWith u "//" = false) ->
  Grab.prepare s config = inl p ->
  JsString.startsWith (Grab.p_url p) "//" = false.
Proof.
  intros Hbase Hoption Hprepare.
  assert (Hresolved : forall resolved,
             Grab.resolveUrl s (Config.url config) = inl resolved ->
             JsString.startsWith resolved "//" = false).
  { intros resolved. unfold Grab.resolveUrl.
    destruct (_ || _)%bool eqn:Habsolute.
    - intros H. injection H as <-. now apply absolute_not_slashes.
    - destruct (JsString.startsWith (Config.url config) "//") eqn:Hslashes; [discriminate|].
      destruct (JsString.truthy (Grab.baseUrl s)) eqn:Htruthy.
      + intros H. injection H as <-. revert Htruthy. rewrite Hbase.
        unfold Options.normalizeBaseUrl.
        destruct option_baseUrl as [u|]; [|discriminate].
        destruct (negb (JsString.truthy u)); [discriminate|].
        destruct (_ && _)%bool; [discriminate|].
        destruct (base_not_slashes u (Url.strip_slash (Config.url config))
                                   (Hoption u eq_refl)) as [-> | Hok];
          [discriminate | intros _; exact Hok].
      + intros H. injection H as <-. exact Hslashes. }
  unfold Grab.prepare in Hprepare.
  destruct (Grab.resolveUrl s (Config.url config)) as [resolved|e]; [|discriminate].
  destruct (Grab.buildFetchOptions s config) as [options|e]; [|discriminate].
  injection Hprepare as <-. cbn [Grab.p_url].
  specialize (Hresolved resolved eq_refl).
  unfold Grab.buildUrl. destruct (Config.params config); [exact Hresolved|].
  apply query_not_slashes; [|exact Hresolved].
  destruct (Url.includes_char resolved "?"); [now right | now left].
Qed.

Lemma never_protocol_relative_witness :
  exists p,
    Grab.prepare (Example.settings 3 []) (Example.request "/a" None) = inl p /\
    JsString.startsWith (Grab.p_url p) "//" = false.
Proof.
  eexists. split; [reflexivity|].
  apply (never_protocol_relative
           (Example.settings 3 []) (fun _ => true) (Some "https://api.example.com/")
           (Example.request "/a" None) _ eq_refl).
  - intros u H. injection H as <-. reflexivity.
  - reflexivity.
Defined.

(** *** The query string *)

Lemma all_chars_app (f : ascii -> bool) (a b : string) :
  UrlText.all_chars f (a ++ b) = (UrlText.all_chars f a && UrlText.all_chars f b)%bool.
Proof.
  induction a as [|c a IH]; [reflexivity|].
  cbn [String.append UrlText.all_chars]. now rewrite IH, Bool.andb_assoc.
Qed.

Lemma count_char_app (c : ascii) (a b : string) :
  UrlText.count_char c (a ++ b)
  = (UrlText.count_char c a + UrlText.count_char c b)%nat.
Proof.
  induction a as [|d a IH]; [reflexivity|].
  cbn [String.append UrlText.count_char]. rewrite IH. now destruct (Ascii.eqb d c).
Qed.

Lemma count_char_none (f : ascii -> bool) (c : ascii) (s : string) :
  f c = false -> UrlText.all_chars f s = true -> UrlText.count_char c s = 0%nat.
Proof.
  intros Hc. induction s as [|d s IH]; [reflexivity|].
  cbn [UrlText.all_chars UrlText.count_char]. intros H.
  apply Bool.andb_true_iff in H as [Hd Hs].
  destruct (Ascii.eqb_spec d c) as [->|_]; [congruence | now apply IH].
Qed.

Lemma upper_hex_escaped (n : nat) :
  (n < 16)%nat -> UrlText.escaped (Url.upper_hex n) = true.
Proof.
  intros H. do 16 (destruct n as [|n]; [reflexivity|]). lia.
Qed.

(** What the serializer writes for a name or a value holds unreserved
    characters, [+] and [%] only. *)
Lemma encode_escaped (s : string) :
  UrlText.all_chars UrlText.escaped (Url.encode s) = true.
Proof.
  induction s as [|c s IH]; [reflexivity|].
  cbn [Url.encode]. destruct (Url.is_unreserved c) eqn:Hsafe.
  - cbn [UrlText.all_chars]. unfold UrlText.escaped at 1. now rewrite Hsafe, IH.
  - destruct (Nat.eqb (nat_of_ascii c) 32).
    + cbn [UrlText.all_chars]. now rewrite IH.
    + cbn [UrlText.all_chars]. rewrite IH.
      pose proof (nat_ascii_bounded c) as Hbound.
      rewrite !upper_hex_escaped; [reflexivity | |].
      * apply Nat.mod_upper_bound. discriminate.
      * apply Nat.Div0.div_lt_upper_bound. exact Hbound.
Qed.

Lemma given_pairs (params : list (string * pval)) :
  List.length
    (flat_map (fun kv => match Url.param_string (snd kv) with
                         | Some v => [(fst kv, v)]
                         | None => []
                         end) params)
  = List.length (UrlText.given params).
Proof.
  unfold UrlText.given. induction params as [|[k v] params IH]; [reflexivity|].
  cbn [flat_map filter fst snd]. destruct (Url.param_string v); cbn; now rewrite IH.
Qed.

Lemma search_string_counts (pairs : list (string * string)) :
  UrlText.all_chars (fun c => UrlText.escaped c || Ascii.eqb c "=" || Ascii.eqb c "&")%bool
                    (Url.search_string pairs) = true /\
  UrlText.count_char "=" (Url.search_string pairs) = List.length pairs /\
  UrlText.count_char "&" (Url.search_string pairs) = Nat.pred (List.length pairs).
Proof.
  assert (Hweak : forall s,
             UrlText.all_chars UrlText.escaped s = true ->
             UrlText.all_chars
               (fun c => UrlText.escaped c || Ascii.eqb c "=" || Ascii.eqb c "&")%bool s
             = true).
  { induction s as [|c s IH]; [reflexivity|]. cbn [UrlText.all_chars]. intros H.
    apply Bool.andb_true_iff in H as [Hc Hs]. now rewrite Hc, IH. }
  assert (Hpair : forall kv : string * string,
             let text := Url.encode (fst kv) ++ "=" ++ Url.encode (snd kv) in
             UrlText.all_chars
               (fun c => UrlText.escaped c || Ascii.eqb c "=" || Ascii.eqb c "&")%bool text
             = true /\
             UrlText.count_char "=" text = 1%nat /\ UrlText.count_char "&" text = 0%nat).
  { intros kv. cbn zeta. rewrite all_chars_app, !count_char_app.
    cbn [String.append UrlText.all_chars UrlText.count_char].
    rewrite !Hweak by apply encode_escaped.
    rewrite !(count_char_none UrlText.escaped "=") by (reflexivity || apply encode_escaped).
    rewrite !(count_char_none UrlText.escaped "&") by (reflexivity || apply encode_escaped).
    repeat split. }
  unfold Url.search_string, JsString.join.
  induction pairs as [|kv pairs IH]; [repeat split|].
  destruct (Hpair kv) as (Hall & Heq & Hamp). cbn zeta in Hall, Heq, Hamp.
  destruct pairs as [|kv' pairs].
  - cbn [map String.concat List.length Nat.pred]. repeat split; assumption.
  - destruct IH as (IHall & IHeq & IHamp).
    change (String.concat "&" (map _ (kv :: kv' :: pairs)))
      with ((Url.encode (fst kv) ++ "=" ++ Url.encode (snd kv))
              ++ "&" ++ String.concat "&"
              (map (fun kv => Url.encode (fst kv) ++ "=" ++ Url.encode (snd kv))
                   (kv' :: pairs))).
    rewrite all_chars_app, (count_char_app "="), (count_char_app "&"), Hall, Heq, Hamp.
    cbn [String.append UrlText.all_chars UrlText.count_char] in IHall, IHeq, IHamp |- *.
    rewrite IHall, IHeq, IHamp.
    cbn [List.length Nat.pred]. repeat split.
Qed.

(** X24. The query that [buildUrl] appends holds one [name=value] pair
    for each parameter whose value is neither [null] nor [undefined],
    separated by [&], and nothing in a name or a value can add a pair, a
    second query or a fragment: besides those [=] and [&], the query holds
    only letters, digits, [*], [-], [.], [_], [+] and [%]. *)
Theorem query_is_escaped (url : string) (params : list (string * pval)) :
  params <> [] ->
  exists query,
    Grab.buildUrl url params
    = url ++ (if Url.includes_char url "?" then "&" else "?") ++ query /\
    UrlText.all_chars (fun c => UrlText.escaped c || Ascii.eqb c "=" || Ascii.eqb c "&")%bool
                      query = true /\
    UrlText.count_char "=" query = List.length (UrlText.given params) /\
    UrlText.count_char "&" query = Nat.pred (List.length (UrlText.given params)).
Proof.
  intros Hparams. unfold Grab.buildUrl.
  destruct params as [|kv params]; [now elim Hparams|].
  eexists. split; [reflexivity|].
  rewrite <- given_pairs. apply search_string_counts.
Qed.

(** A value that tries to add a parameter and a fragment. *)
Lemma query_is_escaped_witness :
  Grab.buildUrl "https://api.example.com/search"
                [("q", PString "a&admin=1#top"); ("page", PNull)]
  = "https://api.example.com/search?q=a%26admin%3D1%23top" /\
  exists query,
    Grab.buildUrl "https://api.example.com/search"
                  [("q", PString "a&admin=1#top"); ("page", PNull)]
    = "https://api.example.com/search" ++ "?" ++ query /\
    UrlText.count_char "=" query = 1%nat.
Proof.
  split; [reflexivity|].
  destruct (query_is_escaped "https://api.example.com/search"
                             [("q", PString "a&admin=1#top"); ("page", PNull)]
                             ltac:(discriminate))
    as (query & Hurl & _ & Hcount & _).
  exists query. split; [exact Hurl | exact Hcount].
Defined.

End RequestFacts.

(** ** The limits a client is built with *)

Module OptionsFacts.

Import CacheOps.

Lemma etags_distinct_apply (c : HttpCache.t) (o : op) :
  NoDup (JsMap.keys (HttpCache.etags c)) ->
  NoDup (JsMap.keys (HttpCache.etags (apply c o))).
Proof.
  intros Hc.
  assert (Hdrop : forall c0 key, NoDup (JsMap.keys (HttpCache.etags c0)) ->
                                 NoDup (JsMap.keys (HttpCache.etags (drop c0 key))))
    by (intros c0 key H0; unfold drop; cbn; now apply JsMapOrder.NoDup_keys_delete).
  destruct o as [k d customTtl tag now|k now|k now|now|matches|]; cbn [apply].
  - rewrite CacheRunFacts.etags_set. cbn zeta.
    assert (Hkept : NoDup (JsMap.keys
                             (if evicts c k
                              then match JsMap.first_key (HttpCache.cache c) with
                                   | Some oldestKey =>
                                       JsMap.delete oldestKey (HttpCache.etags c)
                                   | None => HttpCache.etags c
                                   end
                              else HttpCache.etags c))).
    { destruct (evicts c k); [|exact Hc].
      destruct (JsMap.first_key (HttpCache.cache c)); [|exact Hc].
      now apply JsMapOrder.NoDup_keys_delete. }
    destruct tag as [tg|]; [|exact Hkept].
    destruct (JsString.truthy tg); [|exact Hkept].
    now apply JsMapOrder.NoDup_keys_set.
  - rewrite CacheRunFacts.etags_get.
    destruct (JsMap.get k (HttpCache.cache c)) as [e|]; [|exact Hc].
    destruct (HttpCache.expires e <? now); [|exact Hc].
    now apply JsMapOrder.NoDup_keys_delete.
  - now rewrite (proj2 (proj2 (CacheRunFacts.frame_refresh c k now))).
  - unfold HttpCache.cleanup_timer. rewrite CacheRunFacts.cleanup_drops.
    apply (CacheRunFacts.fold_drop_keeps
             (fun x => NoDup (JsMap.keys (HttpCache.etags x)))); [exact Hdrop|].
    exact Hc.
  - rewrite CacheRunFacts.invalidate_drops. cbn [snd].
    apply (CacheRunFacts.fold_drop_keeps
             (fun x => NoDup (JsMap.keys (HttpCache.etags x)))); [exact Hdrop|].
    exact Hc.
  - cbn. constructor.
Qed.

Lemma ttl_apply (c : HttpCache.t) (o : op) :
  HttpCache.ttl (apply c o) = HttpCache.ttl c.
Proof.
  destruct o as [k d customTtl tag now|k now|k now|now|matches|]; cbn [apply].
  - apply CacheRunFacts.maxSize_set.
  - apply CacheRunFacts.frame_get.
  - apply CacheRunFacts.frame_refresh.
  - unfold HttpCache.cleanup_timer. rewrite CacheRunFacts.cleanup_drops.
    now apply (CacheRunFacts.fold_drop_keeps (fun x => HttpCache.ttl x = HttpCache.ttl c)).
  - rewrite CacheRunFacts.invalidate_drops. cbn [snd].
    now apply (CacheRunFacts.fold_drop_keeps (fun x => HttpCache.ttl x = HttpCache.ttl c)).
  - reflexivity.
Qed.

Lemma run_keeps (P : HttpCache.t -> Prop) :
  (forall c o, P c -> P (apply c o)) ->
  forall ops c, P c -> P (run c ops).
Proof.
  intros Hstep. unfold run. induction ops as [|o ops IH]; intros c Hc; [exact Hc|].
  simpl. apply IH. now apply Hstep.
Qed.

(** The index of ETags is no larger than the entries it indexes. *)
Lemma etags_within_entries (c : HttpCache.t) :
  etags_indexed c -> NoDup (JsMap.keys (HttpCache.etags c)) ->
  JsMap.size (HttpCache.etags c) <= JsMap.size (HttpCache.cache c).
Proof.
  intros Hindexed Hdistinct. unfold JsMap.size.
  rewrite <- (length_map fst (HttpCache.etags c)), <- (length_map fst (HttpCache.cache c)).
  apply inj_le. apply NoDup_incl_length; [exact Hdistinct|].
  intros k Hk. apply JsMapOrder.get_in_keys. apply Hindexed.
  now apply JsMapOrder.get_in_keys.
Qed.

(** X25. The figures that [stats()] reports for the cache of a client are
    bounded, whatever options the client was built with and whatever
    operations its cache has gone through since: the ETags are no more
    than the entries, the entries no more than [maxSize], [maxSize] is
    between 1 and 10000 and [ttl] between one second and one day. *)
Theorem client_cache_stats_bounded (enabled : option bool) (ttl maxSize : option Z)
        (ops : list op) :
  let st := get_stats (run (Options.cache_of enabled ttl maxSize) ops) in
  0 <= st_etags st <= st_size st /\
  st_size st <= st_maxSize st /\
  1 <= st_maxSize st <= 10000 /\
  1000 <= st_ttl st <= 86400000.
Proof.
  cbn zeta. unfold get_stats. cbn [st_etags st_size st_maxSize st_ttl].
  set (c0 := Options.cache_of enabled ttl maxSize).
  assert (Hmax : 1 <= HttpCache.maxSize c0 <= 10000).
  { unfold c0, Options.cache_of, Options.normalizeCache, HttpCache.new, or_default.
    cbn [Options.c_maxSize HttpCache.maxSize].
    destruct (Z.eqb_spec (Z.max 1 (Z.min 10000 match maxSize with
                                                | Some v => if v =? 0 then 100 else v
                                                | None => 100
                                                end)) 0); lia. }
  assert (Httl : 1000 <= HttpCache.ttl c0 <= 86400000).
  { unfold c0, Options.cache_of, Options.normalizeCache, HttpCache.new, or_default.
    cbn [Options.c_ttl HttpCache.ttl].
    destruct (Z.eqb_spec (Z.max 1000 (Z.min 86400000
                                            match ttl with
                                            | Some v => if v =? 0 then DEFAULT_CACHE_TTL else v
                                            | None => DEFAULT_CACHE_TTL
                                            end)) 0); lia. }
  assert (Hcap : within_capacity (HttpCache.maxSize c0) (run c0 ops)).
  { apply CacheRunFacts.within_capacity_run; [lia|]. split; [reflexivity|].
    replace (JsMap.size (HttpCache.cache c0)) with 0 by reflexivity. lia. }
  destruct Hcap as [Hsame Hsize].
  assert (Hindexed : etags_indexed (run c0 ops))
    by (apply CacheRunFacts.etags_indexed_run, CacheRunFacts.etags_indexed_new).
  assert (Hdistinct : NoDup (JsMap.keys (HttpCache.etags (run c0 ops)))).
  { apply (run_keeps (fun x => NoDup (JsMap.keys (HttpCache.etags x))));
      [apply etags_distinct_apply | constructor]. }
  assert (Hkept : HttpCache.ttl (run c0 ops) = HttpCache.ttl c0).
  { apply (run_keeps (fun x => HttpCache.ttl x = HttpCache.ttl c0));
      [intros c o <-; apply ttl_apply | reflexivity]. }
  pose proof (etags_within_entries _ Hindexed Hdistinct) as Hetags.
  rewrite Hsame, Hkept. unfold JsMap.size in *. lia.
Qed.

(** X26. The limits of a client are within their ranges whatever the
    options: the timeout between 100 ms and 300 s, the breaker's failure
    threshold between 1 and 100 and its reset timeout between one second
    and one hour, the breaker starting closed and consistent; and
    normalizing them again, as [create()] does with the limits of the
    client it copies, changes none of them, nor the number of attempts,
    nor the [ttl] and [maxSize] of the cache. *)
Theorem limits_in_range_and_stable (t : Options.js_option)
        (failureThreshold resetTimeout : option Z)
        (fallback : CircuitBreaker.fallback_value)
        (attempts : option Z) (enabled : option bool) (ttl maxSize : option Z) :
  let breaker := Options.breaker_of failureThreshold resetTimeout fallback in
  let cache := Options.cache_of enabled ttl maxSize in
  100 <= Options.normalizeTimeout t <= 300000 /\
  1 <= CircuitBreaker.failureThreshold breaker <= 100 /\
  1000 <= CircuitBreaker.resetTimeout breaker <= 3600000 /\
  BreakerRuns.consistent breaker /\
  CircuitBreaker.isHealthy breaker = true /\
  Options.normalizeTimeout (Options.Num (Options.normalizeTimeout t))
  = Options.normalizeTimeout t /\
  normalizeRetryAttempts (Some (normalizeRetryAttempts attempts))
  = normalizeRetryAttempts attempts /\
  Options.breaker_of (Some (CircuitBreaker.failureThreshold breaker))
                     (Some (CircuitBreaker.resetTimeout breaker))
                     (CircuitBreaker.fallback breaker) = breaker /\
  Options.cache_of None (Some (HttpCache.ttl cache)) (Some (HttpCache.maxSize cache))
  = cache.
Proof.
  cbn zeta.
  assert (Htimeout : 100 <= Options.normalizeTimeout t <= 300000).
  { unfold Options.normalizeTimeout, JsNumber.clamp, DEFAULT_TIMEOUT.
    destruct t as [|n|s]; [lia| |].
    - destruct (0 <? n); lia.
    - destruct (0 <? JsNumber.toInt s 30000); lia. }
  unfold Options.breaker_of, Options.cache_of, Options.normalizeCircuitBreaker,
    Options.normalizeCache, CircuitBreaker.new, HttpCache.new.
  cbn [Options.b_failureThreshold Options.b_resetTimeout Options.b_fallback
       Options.c_ttl Options.c_maxSize Options.c_enabled
       CircuitBreaker.failureThreshold CircuitBreaker.resetTimeout
       CircuitBreaker.fallback HttpCache.ttl HttpCache.maxSize].
  set (th := Z.max 1 (Z.min 100 (or_default failureThreshold 5))).
  set (rt := Z.max 1000 (Z.min 3600000 (or_default resetTimeout 60000))).
  set (tl := Z.max 1000 (Z.min 86400000 (or_default ttl DEFAULT_CACHE_TTL))).
  set (ms := Z.max 1 (Z.min 10000 (or_default maxSize 100))).
  assert (Hth : 1 <= th <= 100) by (unfold th; lia).
  assert (Hrt : 1000 <= rt <= 3600000) by (unfold rt; lia).
  assert (Htl : 1000 <= tl <= 86400000) by (unfold tl; lia).
  assert (Hms : 1 <= ms <= 10000) by (unfold ms; lia).
  assert (Hsome : forall v d, 1 <= v -> or_default (Some v) d = v).
  { intros v d Hv. unfold or_default. destruct (Z.eqb_spec v 0); [lia | reflexivity]. }
  assert (Hagain : forall v lo hi, lo <= v <= hi -> Z.max lo (Z.min hi v) = v)
    by (intros; lia).
  repeat first [ rewrite (Hsome tl) by lia | rewrite (Hsome ms) by lia
               | rewrite (Hsome th) by lia | rewrite (Hsome rt) by lia
               | rewrite (Hagain tl) by lia | rewrite (Hagain ms) by lia
               | rewrite (Hagain th) by lia | rewrite (Hagain rt) by lia ].
  split; [exact Htimeout|]. split; [exact Hth|]. split; [exact Hrt|].
  split; [|split; [|split; [|split; [|split]]]].
  - unfold BreakerRuns.consistent. cbn. repeat split; try lia; try discriminate.
    intros H. now elim H.
  - unfold CircuitBreaker.isHealthy. cbn.
    destruct (Z.ltb_spec 0 th); [reflexivity | lia].
  - unfold Options.normalizeTimeout at 1. unfold JsNumber.clamp.
    destruct (Z.ltb_spec 0 (Options.normalizeTimeout t)); lia.
  - unfold normalizeRetryAttempts, JsNumber.clamp.
    destruct attempts as [a|]; [destruct (Z.leb_spec 0 a)|];
      match goal with |- context [0 <=? ?x] => destruct (Z.leb_spec 0 x) end; lia.
  - now destruct fallback.
  - reflexivity.
Qed.

End OptionsFacts.

(** ** What the attempts of a pipeline leave alone *)

Module PipelineRunFacts.

Import PipelineRuns.

Lemma step_between_attempts (s : Grab.settings) (c : Grab.client) (e : Grab.event) :
  between_attempts e = true ->
  Grab.cache (fst (Grab.step s c e)) = Grab.cache c /\
  Grab.circuitBreaker (fst (Grab.step s c e)) = Grab.circuitBreaker c /\
  Grab.results (fst (Grab.step s c e)) = Grab.results c.
Proof.
  destruct e as [config now|promise fo|promise|promise now]; try discriminate; intros _;
    cbn [Grab.step]; destruct (Grab.find_task promise (Grab.tasks c)) as [[k ph]|];
    try (repeat split; reflexivity); destruct ph; try (repeat split; reflexivity).
  destruct (Grab.start_attempt s config (attempt + 1) error). repeat split.
Qed.

Lemma run_between_attempts (s : Grab.settings) (trace : list Grab.event) :
  forall c,
    forallb between_attempts trace = true ->
    Grab.cache (fst (Grab.run s c trace)) = Grab.cache c /\
    Grab.circuitBreaker (fst (Grab.run s c trace)) = Grab.circuitBreaker c /\
    Grab.results (fst (Grab.run s c trace)) = Grab.results c.
Proof.
  induction trace as [|e trace IH]; intros c Hall; [repeat split|].
  cbn [forallb] in Hall. apply Bool.andb_true_iff in Hall as [He Hall].
  destruct (step_between_attempts s c e He) as (Hc & Hb & Hr).
  cbn [Grab.run]. destruct (Grab.step s c e) as [c1 r]. cbn [fst] in Hc, Hb, Hr.
  specialize (IH c1 Hall). destruct (Grab.run s c1 trace) as [c2 replies].
  cbn [fst] in *. destruct IH as (IHc & IHb & IHr).
  repeat split; congruence.
Qed.

(** X27. The breaker and the cache see a pipeline, not its attempts:
    while transport calls settle and sleeps end, whatever the number of
    attempts, neither the breaker nor the cache changes; and when the
    pipeline has given up, the settlement of its promise counts one
    failure at the breaker and records its time, rejects the promise with
    the error, frees the fingerprint in the in-flight registry and leaves
    the entries and the ETags of the cache as they were. *)
Theorem attempts_count_as_one_failure (s : Grab.settings) (c : Grab.client)
        (trace : list Grab.event) (promise : nat) (k : string) (e : jsval) (now : Z) :
  forallb between_attempts trace = true ->
  let c1 := fst (Grab.run s c trace) in
  Grab.find_task promise (Grab.tasks c1)
  = Some (Grab.mkTask k (Grab.ThunkSettled (Threw e))) ->
  let c2 := fst (Grab.step s c1 (Grab.PromiseSettles promise now)) in
  Grab.circuitBreaker c1 = Grab.circuitBreaker c /\
  Grab.cache c1 = Grab.cache c /\
  CircuitBreaker.failureCount (Grab.circuitBreaker c2)
  = CircuitBreaker.failureCount (Grab.circuitBreaker c) + 1 /\
  CircuitBreaker.lastFailureTime (Grab.circuitBreaker c2) = Some now /\
  HttpCache.cache (Grab.cache c2) = HttpCache.cache (Grab.cache c) /\
  HttpCache.etags (Grab.cache c2) = HttpCache.etags (Grab.cache c) /\
  HttpCache.getPending (Grab.cache c2) k = None /\
  Grab.find_result promise (Grab.results c2) = Some (Threw e).
Proof.
  intros Hall. cbn zeta.
  destruct (run_between_attempts s trace c Hall) as (Hc & Hb & _).
  set (c1 := fst (Grab.run s c trace)) in *. intros Htask.
  cbn [Grab.step]. rewrite Htask. unfold Grab.finish.
  cbn [fst Grab.t_phase Grab.t_key CircuitBreaker.settle Grab.circuitBreaker Grab.cache
       Grab.results Grab.find_result].
  rewrite Nat.eqb_refl, Hb, Hc.
  split; [reflexivity|]. split; [reflexivity|].
  unfold CircuitBreaker.onFailure.
  destruct (_ <=? _); cbn; repeat split; apply JsMapFacts.get_delete_eq.
Qed.

(** Two attempts that are answered with a 500: one failure at the
    breaker. *)
Lemma attempts_count_as_one_failure_witness :
  let s := Example.settings 2 [] in
  let c := snd (Grab.cacheableRequest
                  s
                  (Grab.fresh (HttpCache.new None None None)
                              (CircuitBreaker.new None None CircuitBreaker.FallbackNull))
                  (Example.request "/b" None) 0) in
  let unavailable :=
    Grab.FetchResolves (Example.handle 500 "Internal Server Error" [] DataNull) in
  let trace := [Grab.TransportSettles 0 unavailable; Grab.SleepEnds 0;
                Grab.TransportSettles 0 unavailable] in
  let c2 := fst (Grab.step s (fst (Grab.run s c trace)) (Grab.PromiseSettles 0 30)) in
  Grab.transport_calls c2 = 2%nat /\
  CircuitBreaker.failureCount (Grab.circuitBreaker c2) = 1.
Proof.
  cbv zeta. split; [reflexivity|].
  refine (proj1 (proj2 (proj2 (attempts_count_as_one_failure
                                 (Example.settings 2 [])
                                 (snd (Grab.cacheableRequest
                                         (Example.settings 2 [])
                                         (Grab.fresh
                                            (HttpCache.new None None None)
                                            (CircuitBreaker.new
                                               None None CircuitBreaker.FallbackNull))
                                         (Example.request "/b" None) 0))
                                 [Grab.TransportSettles
                                    0 (Grab.FetchResolves
                                         (Example.handle 500 "Internal Server Error" []
                                                         DataNull));
                                  Grab.SleepEnds 0;
                                  Grab.TransportSettles
                                    0 (Grab.FetchResolves
                                         (Example.handle 500 "Internal Server Error" []
                                                         DataNull))]
                                 0%nat _ _ 30 eq_refl eq_refl)))).
Defined.

End PipelineRunFacts.
